(** * qiskit-transpiler-tools: the transpilation pipeline and its decoupling plan

    A shallow embedding of
      - [qiskit_transpiler_tools/dd_passmanager.py]  (PassManager_DD_ALAP_XX)
      - [qiskit_transpiler_tools/transpiler.py]      (TranspilerSabreMapomaticDD,
                                                      transpile_cost_depthcnot)

    The Python code is glue around external collaborators (the vendor
    transpile routine, mapomatic, the scheduling passes).  The collaborators
    are kept abstract: each one is an arbitrary fallible function on an
    opaque external state, so randomness of the unseeded vendor routine and
    errors raised by a collaborator are both covered.  Every call to a
    collaborator is recorded in a call log, which is what the statements
    about "before any transpile attempt", "without invoking" and "built
    once" are about.

    Python exceptions are values of [PyError]; a Python function that can
    touch the pipeline object or a collaborator lives in the monad [M]
    (state plus exceptions, the state surviving an exception as in Python).
    Python floats that are costs are modelled by rationals: the code only
    compares them ([min], [==]) and forms [w1*depth + w2*count]; NaN and
    rounding are outside the model. *)

From Stdlib Require Import ZArith QArith List Lia.
From stdpp Require Import base option list gmap strings.

Set Default Proof Using "Type".
Local Open Scope Z_scope.

(** ** Python exceptions and results *)

Inductive PyError : Type :=
| AssertionError                 (* a failed [assert] *)
| ValueError                     (* [min] of an empty sequence *)
| IndexError                     (* sequence index out of range *)
| KeyError (key : string)        (* missing dictionary key *)
| AttributeError (name : string) (* attribute that the object does not have *)
| CollaboratorError (code : Z).  (* anything raised by an external collaborator *)

Inductive Result (A : Type) : Type :=
| Ok (a : A)
| Raise (e : PyError).
Arguments Ok {A} a.
Arguments Raise {A} e.

Definition is_ok {A} (r : Result A) : bool :=
  match r with Ok _ => true | Raise _ => false end.

(** Exception-only computations (pure Python code that may raise). *)
Definition rbind {A B} (r : Result A) (k : A → Result B) : Result B :=
  match r with
  | Ok a => k a
  | Raise e => Raise e
  end.

(** [[f(x) for x in l]] for a pure, fallible [f]: the first exception wins. *)
Fixpoint rmap {A B} (f : A → Result B) (l : list A) : Result (list B) :=
  match l with
  | [] => Ok []
  | x :: l' => rbind (f x) (λ y, rbind (rmap f l') (λ ys, Ok (y :: ys)))
  end.

(** [l[i]] on a Python list, for a non-negative index. *)
Definition list_getitem {A} (l : list A) (i : nat) : Result A :=
  match l !! i with
  | Some a => Ok a
  | None => Raise IndexError
  end.

(** [d[k]] on a Python dict with string keys. *)
Definition dict_getitem {V} (d : gmap string V) (k : string) : Result V :=
  match d !! k with
  | Some v => Ok v
  | None => Raise (KeyError k)
  end.

(** [obj.name], for an attribute that an object may not have. *)
Definition py_getattr {A} (attr : option A) (name : string) : Result A :=
  match attr with
  | Some a => Ok a
  | None => Raise (AttributeError name)
  end.

(** [k in d] *)
Definition dict_contains {V} (d : gmap string V) (k : string) : bool :=
  bool_decide (is_Some (d !! k)).

(** [[x]*n] for a Python int [n] (empty when [n <= 0]). *)
Definition list_repeat {A} (x : A) (n : Z) : list A := replicate (Z.to_nat n) x.

(** [o is None] *)
Definition is_None {A} (o : option A) : bool :=
  match o with None => true | Some _ => false end.

(** [len(l)] as a Python int. *)
Definition len {A} (l : list A) : Z := Z.of_nat (length l).

(** ** The part of the circuit interface the cost function reads *)

Class QuantumCircuitAPI (Circuit : Type) : Type := {
  (** [circuit.count_ops()]: operation name to number of occurrences *)
  count_ops : Circuit → gmap string nat;
  (** [circuit.depth()] *)
  depth : Circuit → nat;
}.

(** ** transpiler.py: the default cost function *)

Section Cost.
Context {Circuit : Type} `{QuantumCircuitAPI Circuit}.

Definition transpile_cost_depthcnot
    (circuit : Circuit) (weight_depth weight_cnot : Q) : Result Q :=
  rbind
    (if dict_contains (count_ops circuit) "cx"
     then dict_getitem (count_ops circuit) "cx"
     else Ok 0%nat)
    (λ num_cnots,
       let cost := (weight_depth * inject_Z (Z.of_nat (depth circuit))
                    + weight_cnot * inject_Z (Z.of_nat num_cnots))%Q in
       Ok cost).

(** The call [transpile_cost_depthcnot(circ)] with the default weights
    [weight_depth = 1.] and [weight_cnot = 20.]. *)
Definition transpile_cost_depthcnot_default (circuit : Circuit) : Result Q :=
  transpile_cost_depthcnot circuit 1%Q 20%Q.

(** Number of [cx] gates reported by [count_ops], zero when there is none. *)
Definition cx_count (circuit : Circuit) : nat :=
  default 0%nat (count_ops circuit !! "cx").

End Cost.

(** ** The data the external libraries hand back *)

(** A gate of the circuit library; the code only ever builds [XGate()]. *)
Inductive Gate : Type :=
| XGate
| OtherGate (name : string).

(** A transpiler pass.  [ALAPScheduleAnalysis(durations)] and
    [PadDynamicalDecoupling(durations, dd_sequence, pulse_alignment=...)]
    are the two the code constructs; a plan supplied by the caller may
    hold others. *)
Inductive Pass (Durations : Type) : Type :=
| ALAPScheduleAnalysis (durations : Durations)
| PadDynamicalDecoupling (durations : Durations) (dd_sequence : list Gate)
                         (pulse_alignment : Z)
| OtherPass (name : string).
Arguments ALAPScheduleAnalysis {Durations} durations.
Arguments PadDynamicalDecoupling {Durations} durations dd_sequence pulse_alignment.
Arguments OtherPass {Durations} name.

(** [PassManager(passes)]: an ordered list of passes. *)
Record PassManager (Durations : Type) : Type := { passes : list (Pass Durations) }.
Arguments Build_PassManager {Durations} passes.
Arguments passes {Durations} p.

(** ** The external collaborators

    Everything the repository calls but does not define.  [Domain] holds the
    types of the external libraries, opaque to the repository; [External]
    is the state of the outside world (random generators, caches, the
    provider's data).  [Collaborators] holds the operations: a collaborator
    reads and writes the outside world and may raise. *)

Class Domain : Type := {
  Circuit : Type;
  Backend : Type;
  Layout : Type;
  InstructionDurations : Type;
  MapomaticCost : Type;
  External : Type;
}.

Class Collaborators `{Domain} : Type := {
  circuit_api :: QuantumCircuitAPI Circuit;
  (** [backend.configuration().timing_constraints]: a dictionary, or
      nothing when the configuration of the backend has no such attribute
      (a simulator's, for one) *)
  timing_constraints : Backend → option (gmap string Z);
  (** [InstructionDurations.from_backend(backend)] *)
  InstructionDurations_from_backend :
    Backend → External → Result InstructionDurations * External;
  (** one run of the vendor transpile routine on one circuit, with the
      optimization level, seed and initial layout it is given ([None] is
      also what the routine takes when the keyword is left out) *)
  compiler_transpile_run :
    Circuit → Backend → option Z → option Z → option Layout →
    External → Result Circuit * External;
  (** [mapomatic.deflate_circuit(qc)] *)
  deflate_circuit : Circuit → External → Result Circuit * External;
  (** [mapomatic.matching_layouts(qc, backend)] *)
  matching_layouts : Circuit → Backend → External → Result (list Layout) * External;
  (** [mapomatic.evaluate_layouts(qc, layouts, backend, cost_function=...)] *)
  evaluate_layouts :
    Circuit → list Layout → Backend → option MapomaticCost →
    External → Result (list (Layout * Q)) * External;
  (** [pass_manager.run(circuit)] *)
  PassManager_run :
    PassManager InstructionDurations → Circuit → External → Result Circuit * External;
}.

Section DataModel.
Context `{Domain}.

(** One entry of the call log per call to a collaborator. *)
Inductive Event : Type :=
| EvFromBackend (backend : Backend)
| EvTranspile (circuit : Circuit) (backend : Backend)
              (optimization_level : option Z) (seed : option Z)
              (initial_layout : option Layout)
| EvDeflate (circuit : Circuit)
| EvMatchingLayouts (circuit : Circuit) (backend : Backend)
| EvEvaluateLayouts (circuit : Circuit) (layouts : list Layout) (backend : Backend)
                    (cost_function : option MapomaticCost)
| EvRun (pm : PassManager InstructionDurations) (circuit : Circuit).

(** The argument and the result of [transpile]:
    [Union[QuantumCircuit, List[QuantumCircuit]]]. *)
Inductive Circuits : Type :=
| Single (circuit : Circuit)
| Many (circuits : list Circuit).

End DataModel.

(** The fields of a [PassManager_DD_ALAP_XX] object. *)
Module PassManager_DD_ALAP_XX.
Record t `{Domain} : Type := __init__ { _backend : Backend }.
Arguments __init__ {_} _backend.
End PassManager_DD_ALAP_XX.

(** The fields of a [TranspilerSabreMapomaticDD] object. *)
Module TranspilerSabreMapomaticDD.
Record t `{Domain} : Type := __init__ {
  _backend : Backend;
  _optimization_level : Z;
  _num_transpilations : Z;
  _seed_transpiler : option (list (option Z));
  _cost_transpile : option (Circuit → Result Q);
  _apply_mapomatic : bool;
  _cost_mapomatic : option MapomaticCost;
  _apply_dd : bool;
  _dd_passmanager : option (PassManager InstructionDurations);
}.
Arguments __init__ {_} _backend _optimization_level _num_transpilations
  _seed_transpiler _cost_transpile _apply_mapomatic _cost_mapomatic _apply_dd
  _dd_passmanager.
End TranspilerSabreMapomaticDD.

(** ** The world and the monad of the Python code *)

Section Monad.
Context `{Domain}.

(** What a call can read and change: the pipeline object the method is
    called on, the outside world, and the log of calls to collaborators
    (oldest first). *)
Record World : Type := {
  pipeline : TranspilerSabreMapomaticDD.t;
  outside : External;
  calls : list Event;
}.

Definition M (A : Type) : Type := World → Result A * World.

Definition ret {A} (a : A) : M A := λ w, (Ok a, w).

Definition raise {A} (e : PyError) : M A := λ w, (Raise e, w).

Definition bind {A B} (m : M A) (k : A → M B) : M B :=
  λ w, match m w with
       | (Ok a, w') => k a w'
       | (Raise e, w') => (Raise e, w')
       end.

(** A pure, fallible computation inside [M]. *)
Definition lift {A} (r : Result A) : M A := λ w, (r, w).

(** Reading [self]. *)
Definition get_self : M TranspilerSabreMapomaticDD.t := λ w, (Ok (pipeline w), w).

(** Replacing [self] (only the [backend] setter does). *)
Definition put_self (self : TranspilerSabreMapomaticDD.t) : M unit :=
  λ w, (Ok tt, {| pipeline := self; outside := outside w; calls := calls w |}).

(** A call to a collaborator: logged, then run on the outside world. *)
Definition call {A} (ev : Event) (f : External → Result A * External) : M A :=
  λ w, let '(r, o) := f (outside w) in
       (r, {| pipeline := pipeline w; outside := o; calls := calls w ++ [ev] |}).

(** [assert b] *)
Definition py_assert (b : bool) : M unit :=
  if b then ret tt else raise AssertionError.

End Monad.

Declare Scope py_scope.
Delimit Scope py_scope with py.
Notation "x <- m ;; k" := (bind m (λ x, k))
  (at level 100, m at next level, right associativity) : py_scope.
Notation "m ;;; k" := (bind m (λ _, k))
  (at level 100, right associativity) : py_scope.
Local Open Scope py_scope.

Section Loops.
Context `{Domain}.

(** [for i in idx: s = body(i, s)] *)
Fixpoint for_each {I S} (idx : list I) (body : I → S → M S) (s : S) : M S :=
  match idx with
  | [] => ret s
  | i :: rest => s' <- body i s ;; for_each rest body s'
  end.

(** [for i in range(n): s = body(i, s)] *)
Definition for_range {S} (n : nat) (body : nat → S → M S) (s : S) : M S :=
  for_each (seq 0 n) body s.

(** [l[i] = x] on a Python list, for a non-negative index. *)
Definition list_setitem {A} (l : list A) (i : nat) (x : A) : Result (list A) :=
  if bool_decide (i < length l)%nat then Ok (<[i:=x]> l) else Raise IndexError.

(** [f] on every element, left to right, the first exception ending it. *)
Fixpoint M_map {A B} (f : A → M B) (l : list A) : M (list B) :=
  match l with
  | [] => ret []
  | x :: l' => y <- f x ;; ys <- M_map f l' ;; ret (y :: ys)
  end.

End Loops.

(** ** The pieces of numpy and of the builtins the selection uses *)

Definition Qltb (x y : Q) : bool := negb (Qle_bool y x).

(** The builtin [min] on a sequence: keeps the first of the smallest items,
    raises [ValueError] on an empty one. *)
Definition py_min (l : list Q) : Result Q :=
  match l with
  | [] => Raise ValueError
  | x :: l' => Ok (fold_left (λ m y, if Qltb y m then y else m) l' x)
  end.

(** [costs == m] on a numpy array: the elementwise mask. *)
Definition np_eq (costs : list Q) (m : Q) : list bool :=
  map (λ c, Qeq_bool c m) costs.

(** [mask.nonzero()[0]]: the indices of the true entries, ascending. *)
Fixpoint np_nonzero_from (i : nat) (mask : list bool) : list nat :=
  match mask with
  | [] => []
  | b :: mask' => if b then i :: np_nonzero_from (S i) mask'
                  else np_nonzero_from (S i) mask'
  end.

Definition np_nonzero (mask : list bool) : list nat := np_nonzero_from 0 mask.

(** ** dd_passmanager.py *)

Section DDPassManager.
Context `{Collaborators}.

(** [PassManager_DD_ALAP_XX.get_pass_manager] *)
Definition get_pass_manager (self : PassManager_DD_ALAP_XX.t)
    : M (PassManager InstructionDurations) :=
  let backend := PassManager_DD_ALAP_XX._backend self in
  durations <- call (EvFromBackend backend) (InstructionDurations_from_backend backend) ;;
  let dd_sequence := [XGate; XGate] in
  timing <- lift (py_getattr (timing_constraints backend) "timing_constraints") ;;
  pulse_alignment <- lift (dict_getitem timing "pulse_alignment") ;;
  let pm := Build_PassManager
              [ALAPScheduleAnalysis durations;
               PadDynamicalDecoupling durations dd_sequence pulse_alignment] in
  ret pm.

End DDPassManager.

(** ** transpiler.py *)

Section Transpiler.
Context `{Collaborators}.

(** Modelled from the spec: the vendor routine [compiler.transpile] of the
    external library, which is not part of this repository.  Called on a
    list of circuits with a list of seeds it performs one run per circuit,
    in order, run [i] with entry [i] of the seed list, all runs against the
    same backend and optimization level, and returns the list of results. *)
Definition compiler_transpile (circuits : list Circuit) (backend : Backend)
    (optimization_level : Z) (seed_transpiler : list (option Z)) : M (list Circuit) :=
  M_map (λ cs : Circuit * option Z,
           call (EvTranspile cs.1 backend (Some optimization_level) cs.2 None)
                (compiler_transpile_run cs.1 backend (Some optimization_level) cs.2 None))
        (zip circuits seed_transpiler).

(** Modelled from the spec: the same vendor routine called on one circuit
    with [initial_layout], which returns one circuit. *)
Definition compiler_transpile_layout (circuit : Circuit) (backend : Backend)
    (initial_layout : Layout) : M Circuit :=
  call (EvTranspile circuit backend None None (Some initial_layout))
       (compiler_transpile_run circuit backend None None (Some initial_layout)).

(** [# transpile for backend]: the first loop of [transpile]. *)
Definition transpile_for_backend (circuits_ : list Circuit) (backend : Backend)
    (optimization_level num_transpilations : Z) (seed_transpiler : list (option Z))
    (cost_transpile : Circuit → Result Q) : M (list Circuit) :=
  let num_circs := length circuits_ in
  for_range num_circs
    (λ i trans_circs,
       circ <- lift (list_getitem circuits_ i) ;;
       trans_qc <- compiler_transpile (list_repeat circ num_transpilations) backend
                                      optimization_level seed_transpiler ;;
       costs <- lift (rmap cost_transpile trans_qc) ;;
       lowest <- lift (py_min costs) ;;
       best_pos <- lift (list_getitem (np_nonzero (np_eq costs lowest)) 0) ;;
       best <- lift (list_getitem trans_qc best_pos) ;;
       ret (trans_circs ++ [best]))
    [].

(** [# deflate]: the loop that fills the list [deflated]. *)
Definition deflate_all (trans_circs : list Circuit) : M (list Circuit) :=
  for_each trans_circs
    (λ qc deflated,
       small_qc <- call (EvDeflate qc) (deflate_circuit qc) ;;
       ret (deflated ++ [small_qc]))
    [].

(** [# select best layout and transpile again] *)
Definition select_layouts (num_circs : nat) (trans_circs : list Circuit)
    (backend : Backend) (cost_mapomatic : option MapomaticCost) : M (list Circuit) :=
  for_range num_circs
    (λ i trans_circs,
       qc <- lift (list_getitem trans_circs i) ;;
       small_qc <- call (EvDeflate qc) (deflate_circuit qc) ;;
       layouts <- call (EvMatchingLayouts small_qc backend)
                       (matching_layouts small_qc backend) ;;
       scores <- call (EvEvaluateLayouts small_qc layouts backend cost_mapomatic)
                      (evaluate_layouts small_qc layouts backend cost_mapomatic) ;;
       first_score <- lift (list_getitem scores 0) ;;
       let best_layout := first_score.1 in
       new_qc <- compiler_transpile_layout small_qc backend best_layout ;;
       lift (list_setitem trans_circs i new_qc))
    trans_circs.

(** [# apply DD] *)
Definition apply_dd_all (num_circs : nat) (trans_circs : list Circuit)
    (dd_passmanager : option (PassManager InstructionDurations)) : M (list Circuit) :=
  for_range num_circs
    (λ i trans_circs,
       pm <- match dd_passmanager with
             | Some pm => ret pm
             | None => raise (AttributeError "run")
             end ;;
       qc <- lift (list_getitem trans_circs i) ;;
       new_qc <- call (EvRun pm qc) (PassManager_run pm qc) ;;
       lift (list_setitem trans_circs i new_qc))
    trans_circs.

(** [# default arguments], the seeds: [[None]*num_transpilations] when no
    seeds were given, else the seeds after the [assert] on their length. *)
Definition default_seed_transpiler (seed_transpiler : option (list (option Z)))
    (num_transpilations : Z) : M (list (option Z)) :=
  match seed_transpiler with
  | None => ret (list_repeat None num_transpilations)
  | Some seeds => py_assert (num_transpilations <=? len seeds) ;;; ret seeds
  end.

(** [# default arguments], the plan: built from [self._backend] when
    decoupling is asked for and no plan was given. *)
Definition default_dd_passmanager (self : TranspilerSabreMapomaticDD.t) (apply_dd : bool)
    (dd_passmanager : option (PassManager InstructionDurations))
    : M (option (PassManager InstructionDurations)) :=
  if apply_dd && is_None dd_passmanager
  then let dd_pm_xx := PassManager_DD_ALAP_XX.__init__
                         (TranspilerSabreMapomaticDD._backend self) in
       pm <- get_pass_manager dd_pm_xx ;;
       ret (Some pm)
  else ret dd_passmanager.

(** [TranspilerSabreMapomaticDD.transpile] *)
Definition transpile (circuits : Circuits) : M Circuits :=
  self <- get_self ;;
  (* unify to list format *)
  let circuits_ := match circuits with
                   | Many l => l
                   | Single c => [c]
                   end in
  let backend := TranspilerSabreMapomaticDD._backend self in
  (* options *)
  let optimization_level := TranspilerSabreMapomaticDD._optimization_level self in
  let num_transpilations := TranspilerSabreMapomaticDD._num_transpilations self in
  let seed_transpiler := TranspilerSabreMapomaticDD._seed_transpiler self in
  let cost_transpile := TranspilerSabreMapomaticDD._cost_transpile self in
  let apply_mapomatic := TranspilerSabreMapomaticDD._apply_mapomatic self in
  let cost_mapomatic := TranspilerSabreMapomaticDD._cost_mapomatic self in
  let apply_dd := TranspilerSabreMapomaticDD._apply_dd self in
  let dd_passmanager := TranspilerSabreMapomaticDD._dd_passmanager self in
  (* default arguments *)
  seed_transpiler <- default_seed_transpiler seed_transpiler num_transpilations ;;
  let cost_transpile := match cost_transpile with
                        | None => transpile_cost_depthcnot_default
                        | Some f => f
                        end in
  dd_passmanager <- default_dd_passmanager self apply_dd dd_passmanager ;;
  (* transpile for backend *)
  let num_circs := length circuits_ in
  trans_circs <- transpile_for_backend circuits_ backend optimization_level
                                       num_transpilations seed_transpiler
                                       cost_transpile ;;
  (* apply mapomatic *)
  trans_circs <-
    (if apply_mapomatic
     then deflated <- deflate_all trans_circs ;;
          select_layouts num_circs trans_circs backend cost_mapomatic
     else ret trans_circs) ;;
  (* apply DD *)
  trans_circs <-
    (if apply_dd
     then apply_dd_all num_circs trans_circs dd_passmanager
     else ret trans_circs) ;;
  (* return transpiled circuits in the same format as input *)
  match circuits with
  | Single _ => first <- lift (list_getitem trans_circs 0) ;; ret (Single first)
  | Many _ => ret (Many trans_circs)
  end.

(** The [backend] property and its setter. *)
Definition backend : M Backend :=
  self <- get_self ;; ret (TranspilerSabreMapomaticDD._backend self).

Definition backend_setter (backend : Backend) : M unit :=
  self <- get_self ;;
  put_self (TranspilerSabreMapomaticDD.__init__ backend
              (TranspilerSabreMapomaticDD._optimization_level self)
              (TranspilerSabreMapomaticDD._num_transpilations self)
              (TranspilerSabreMapomaticDD._seed_transpiler self)
              (TranspilerSabreMapomaticDD._cost_transpile self)
              (TranspilerSabreMapomaticDD._apply_mapomatic self)
              (TranspilerSabreMapomaticDD._cost_mapomatic self)
              (TranspilerSabreMapomaticDD._apply_dd self)
              (TranspilerSabreMapomaticDD._dd_passmanager self)).

End Transpiler.

(** ** Vocabulary of the statements

    The bodies of the three loops of [transpile] for one circuit, and the
    notions the properties are stated with. *)

Section Vocabulary.
Context `{Collaborators}.

(** One pass through the first loop: the repeated vendor runs on [circ] and
    the choice among their results. *)
Definition select_best (backend : Backend) (optimization_level num_transpilations : Z)
    (seed_transpiler : list (option Z)) (cost_transpile : Circuit → Result Q)
    (circ : Circuit) : M Circuit :=
  trans_qc <- compiler_transpile (list_repeat circ num_transpilations) backend
                                 optimization_level seed_transpiler ;;
  costs <- lift (rmap cost_transpile trans_qc) ;;
  lowest <- lift (py_min costs) ;;
  best_pos <- lift (list_getitem (np_nonzero (np_eq costs lowest)) 0) ;;
  lift (list_getitem trans_qc best_pos).

(** One call of [mapomatic.deflate_circuit]. *)
Definition deflate (qc : Circuit) : M Circuit :=
  call (EvDeflate qc) (deflate_circuit qc).

(** One pass through the layout loop. *)
Definition select_layout (backend : Backend) (cost_mapomatic : option MapomaticCost)
    (qc : Circuit) : M Circuit :=
  small_qc <- deflate qc ;;
  layouts <- call (EvMatchingLayouts small_qc backend)
                  (matching_layouts small_qc backend) ;;
  scores <- call (EvEvaluateLayouts small_qc layouts backend cost_mapomatic)
                 (evaluate_layouts small_qc layouts backend cost_mapomatic) ;;
  first_score <- lift (list_getitem scores 0) ;;
  compiler_transpile_layout small_qc backend first_score.1.

(** One pass through the decoupling loop. *)
Definition run_plan (pm : PassManager InstructionDurations) (qc : Circuit) : M Circuit :=
  call (EvRun pm qc) (PassManager_run pm qc).

(** The input of [transpile] as a list ([circuits_]), and the shape of its
    result. *)
Definition as_list (circuits : Circuits) : list Circuit :=
  match circuits with
  | Single c => [c]
  | Many l => l
  end.

Definition same_shape (input output : Circuits) : Prop :=
  match input, output with
  | Single _, Single _ => True
  | Many l, Many l' => length l' = length l
  | _, _ => False
  end.

(** The seeds and the cost function [transpile] works with once the
    defaults are filled in. *)
Definition seeds_in_use (self : TranspilerSabreMapomaticDD.t) : list (option Z) :=
  match TranspilerSabreMapomaticDD._seed_transpiler self with
  | None => list_repeat None (TranspilerSabreMapomaticDD._num_transpilations self)
  | Some seeds => seeds
  end.

Definition cost_in_use (self : TranspilerSabreMapomaticDD.t) : Circuit → Result Q :=
  match TranspilerSabreMapomaticDD._cost_transpile self with
  | None => transpile_cost_depthcnot_default
  | Some f => f
  end.

(** The precondition on the seeds: none given, or at least
    [num_transpilations] of them. *)
Definition seeds_long_enough (self : TranspilerSabreMapomaticDD.t) : Prop :=
  match TranspilerSabreMapomaticDD._seed_transpiler self with
  | None => True
  | Some seeds => TranspilerSabreMapomaticDD._num_transpilations self ≤ len seeds
  end.

(** [m] can return [a]: it does so from some world. *)
Definition returns {A} (m : M A) (a : A) : Prop :=
  ∃ w w', m w = (Ok a, w').

(** [pos] is the first position of a smallest entry of [costs]. *)
Definition is_first_minimum (costs : list Q) (pos : nat) : Prop :=
  ∃ c, costs !! pos = Some c
       ∧ (∀ j cj, costs !! j = Some cj → (c <= cj)%Q)
       ∧ (∀ j cj, (j < pos)%nat → costs !! j = Some cj → (c < cj)%Q).

(** [best] was selected for [circ]: the vendor routine, called on
    [num_transpilations] copies of [circ], returned [num_transpilations]
    candidates, each has a cost, and [best] is the first cheapest. *)
Definition selected_for (self : TranspilerSabreMapomaticDD.t) (circ best : Circuit) : Prop :=
  let K := TranspilerSabreMapomaticDD._num_transpilations self in
  ∃ wa wb trans_qc costs best_pos,
    compiler_transpile (list_repeat circ K) (TranspilerSabreMapomaticDD._backend self)
      (TranspilerSabreMapomaticDD._optimization_level self) (seeds_in_use self) wa
      = (Ok trans_qc, wb)
    ∧ len trans_qc = K
    ∧ rmap (cost_in_use self) trans_qc = Ok costs
    ∧ length costs = length trans_qc
    ∧ is_first_minimum costs best_pos
    ∧ trans_qc !! best_pos = Some best.

(** The plan [transpile] applies: the one given at construction, or one
    that [get_pass_manager] returns for the pipeline's backend. *)
Definition plan_in_use (self : TranspilerSabreMapomaticDD.t)
    (pm : PassManager InstructionDurations) : Prop :=
  match TranspilerSabreMapomaticDD._dd_passmanager self with
  | Some given => pm = given
  | None => returns (get_pass_manager
                       (PassManager_DD_ALAP_XX.__init__
                          (TranspilerSabreMapomaticDD._backend self))) pm
  end.

(** [output] is a transpilation of [input] by the pipeline [self]: the
    selection on [input], then the re-layout when enabled, then the
    decoupling plan when enabled. *)
Definition transpilation_of (self : TranspilerSabreMapomaticDD.t)
    (input output : Circuit) : Prop :=
  ∃ selected relaid,
    returns (select_best (TranspilerSabreMapomaticDD._backend self)
               (TranspilerSabreMapomaticDD._optimization_level self)
               (TranspilerSabreMapomaticDD._num_transpilations self)
               (seeds_in_use self) (cost_in_use self) input) selected
    ∧ (if TranspilerSabreMapomaticDD._apply_mapomatic self
       then returns (select_layout (TranspilerSabreMapomaticDD._backend self)
                       (TranspilerSabreMapomaticDD._cost_mapomatic self) selected) relaid
       else relaid = selected)
    ∧ (if TranspilerSabreMapomaticDD._apply_dd self
       then ∃ pm, plan_in_use self pm ∧ returns (run_plan pm relaid) output
       else output = relaid).

(** [new_qc] is the re-layout of [qc]: the four calls of one pass through
    the layout loop, each starting where the one before left the outside
    world, the evaluator given the pipeline's [cost_mapomatic] and the
    layouts the matcher returned, and the vendor run pinned to the layout of
    the evaluator's first entry. *)
Definition relaid_from (self : TranspilerSabreMapomaticDD.t) (qc new_qc : Circuit) : Prop :=
  let backend := TranspilerSabreMapomaticDD._backend self in
  ∃ o0 small_qc o1 layouts o2 best_layout score rest o3 o4,
    deflate_circuit qc o0 = (Ok small_qc, o1)
    ∧ matching_layouts small_qc backend o1 = (Ok layouts, o2)
    ∧ evaluate_layouts small_qc layouts backend
        (TranspilerSabreMapomaticDD._cost_mapomatic self) o2
      = (Ok ((best_layout, score) :: rest), o3)
    ∧ compiler_transpile_run small_qc backend None None (Some best_layout) o3
      = (Ok new_qc, o4).

(** [working] is the working form of [input] when the decoupling loop is
    reached: the circuit selected for it, re-laid when the re-layout is on. *)
Definition working_form (self : TranspilerSabreMapomaticDD.t)
    (input working : Circuit) : Prop :=
  ∃ selected,
    selected_for self input selected
    ∧ (if TranspilerSabreMapomaticDD._apply_mapomatic self
       then relaid_from self selected working
       else working = selected).

(** [output] is what running the plan [pm] on [working] returned. *)
Definition plan_applied (pm : PassManager InstructionDurations)
    (working output : Circuit) : Prop :=
  ∃ o o', PassManager_run pm working o = (Ok output, o').

(** The right-hand side of line 57 of [get_pass_manager]:
    [backend.configuration().timing_constraints['pulse_alignment']]. *)
Definition pulse_alignment_of (backend : Backend) : Result Z :=
  rbind (py_getattr (timing_constraints backend) "timing_constraints")
        (λ timing, dict_getitem timing "pulse_alignment").

(** The events of the call log, by kind. *)
Definition is_seed_run (ev : Event) : bool :=
  match ev with
  | EvTranspile _ _ _ _ None => true
  | _ => false
  end.

Definition is_plan_build (ev : Event) : bool :=
  match ev with
  | EvFromBackend _ => true
  | _ => false
  end.

Definition is_plan_run (ev : Event) : bool :=
  match ev with
  | EvRun _ _ => true
  | _ => false
  end.

Definition is_relayout (ev : Event) : bool :=
  match ev with
  | EvDeflate _ | EvMatchingLayouts _ _ | EvEvaluateLayouts _ _ _ _
  | EvTranspile _ _ _ _ (Some _) => true
  | _ => false
  end.

(** From [w] to [w'] the pipeline object is the same and the call log grew
    by [new]. *)
Definition extends (w w' : World) (new : list Event) : Prop :=
  pipeline w' = pipeline w ∧ calls w' = calls w ++ new.

(** Whatever its outcome, [m] leaves the pipeline object alone and logs
    only calls of kind [P]. *)
Definition only_emits {A} (P : Event → Prop) (m : M A) : Prop :=
  ∀ w, ∃ new, extends w (m w).2 new ∧ Forall P new.

(** The vendor runs of the selection step for the circuits [circuits_]:
    for each circuit in order, one run per seed among the first
    [num_transpilations] seeds, in order. *)
Definition seed_runs (self : TranspilerSabreMapomaticDD.t) (circuits_ : list Circuit)
    : list Event :=
  circ ← circuits_;
  (λ seed, EvTranspile circ (TranspilerSabreMapomaticDD._backend self)
             (Some (TranspilerSabreMapomaticDD._optimization_level self)) seed None)
    <$> take (Z.to_nat (TranspilerSabreMapomaticDD._num_transpilations self))
             (seeds_in_use self).

(** [transpile] with the loop that fills [deflated] taken out, everything
    else as in [transpile]. *)
Definition transpile_without_deflated (circuits : Circuits) : M Circuits :=
  self <- get_self ;;
  let circuits_ := match circuits with
                   | Many l => l
                   | Single c => [c]
                   end in
  let backend := TranspilerSabreMapomaticDD._backend self in
  let optimization_level := TranspilerSabreMapomaticDD._optimization_level self in
  let num_transpilations := TranspilerSabreMapomaticDD._num_transpilations self in
  let seed_transpiler := TranspilerSabreMapomaticDD._seed_transpiler self in
  let cost_transpile := TranspilerSabreMapomaticDD._cost_transpile self in
  let apply_mapomatic := TranspilerSabreMapomaticDD._apply_mapomatic self in
  let cost_mapomatic := TranspilerSabreMapomaticDD._cost_mapomatic self in
  let apply_dd := TranspilerSabreMapomaticDD._apply_dd self in
  let dd_passmanager := TranspilerSabreMapomaticDD._dd_passmanager self in
  seed_transpiler <- default_seed_transpiler seed_transpiler num_transpilations ;;
  let cost_transpile := match cost_transpile with
                        | None => transpile_cost_depthcnot_default
                        | Some f => f
                        end in
  dd_passmanager <- default_dd_passmanager self apply_dd dd_passmanager ;;
  let num_circs := length circuits_ in
  trans_circs <- transpile_for_backend circuits_ backend optimization_level
                                       num_transpilations seed_transpiler
                                       cost_transpile ;;
  trans_circs <-
    (if apply_mapomatic
     then select_layouts num_circs trans_circs backend cost_mapomatic
     else ret trans_circs) ;;
  trans_circs <-
    (if apply_dd
     then apply_dd_all num_circs trans_circs dd_passmanager
     else ret trans_circs) ;;
  match circuits with
  | Single _ => first <- lift (list_getitem trans_circs 0) ;; ret (Single first)
  | Many _ => ret (Many trans_circs)
  end.

(** [mapomatic.deflate_circuit] as a function of the circuit alone: it
    leaves the outside world as it is and its outcome does not depend on it. *)
Definition deflate_is_pure : Prop :=
  ∃ d : Circuit → Result Circuit, ∀ qc o, deflate_circuit qc o = (d qc, o).

(** [mapomatic.deflate_circuit] never raises. *)
Definition deflate_is_total : Prop :=
  ∀ qc o, is_ok (deflate_circuit qc o).1 = true.

(** Two worlds that differ at most in their call logs. *)
Definition same_outside (w1 w2 : World) : Prop :=
  pipeline w1 = pipeline w2 ∧ outside w1 = outside w2.

(** [m] does not look at the call log. *)
Definition log_blind {A} (m : M A) : Prop :=
  ∀ w1 w2, same_outside w1 w2 →
    (m w1).1 = (m w2).1 ∧ same_outside (m w1).2 (m w2).2.

(** Two outcomes agree on what is returned: one returns [out] exactly when
    the other does, and then the worlds differ at most in their logs. *)
Definition same_return {A} (x y : Result A * World) : Prop :=
  (∀ out, x.1 = Ok out ↔ y.1 = Ok out)
  ∧ (is_ok x.1 = true → same_outside x.2 y.2).

(** Two outcomes agree altogether, exception included, up to the logs. *)
Definition same_outcome {A} (x y : Result A * World) : Prop :=
  x.1 = y.1 ∧ same_outside x.2 y.2.

End Vocabulary.

(** ** Further vocabulary: what the collaborators are assumed to do *)

Section Assumptions.
Context `{Collaborators}.

(** The vendor routine never raises. *)
Definition vendor_succeeds : Prop :=
  ∀ circuit backend level seed layout o,
    is_ok (compiler_transpile_run circuit backend level seed layout o).1 = true.

(** [mapomatic.matching_layouts] never raises. *)
Definition matching_succeeds : Prop :=
  ∀ circuit backend o, is_ok (matching_layouts circuit backend o).1 = true.


(** [mapomatic.evaluate_layouts] always returns the empty list: no layout
    of the backend fits. *)
Definition evaluator_finds_nothing : Prop :=
  ∀ circuit layouts backend cost o,
    (evaluate_layouts circuit layouts backend cost o).1 = Ok [].


(** The backend has a duration model and a [pulse_alignment] entry. *)
Definition backend_has_timing (backend : Backend) : Prop :=
  (∀ o, is_ok (InstructionDurations_from_backend backend o).1 = true)
  ∧ ∃ timing, timing_constraints backend = Some timing
              ∧ is_Some (timing !! "pulse_alignment").

(** A cost function given at construction never raises. *)
Definition cost_succeeds (self : TranspilerSabreMapomaticDD.t) : Prop :=
  ∀ f circuit, TranspilerSabreMapomaticDD._cost_transpile self = Some f →
               is_ok (f circuit) = true.

(** With an explicit seed the outcome of a vendor run is a function of its
    arguments: the outside world has no say in it. *)
Definition seeded_runs_reproducible : Prop :=
  ∀ circuit backend level seed layout o1 o2,
    (compiler_transpile_run circuit backend level (Some seed) layout o1).1
    = (compiler_transpile_run circuit backend level (Some seed) layout o2).1.

(** [m] returns the same from any two worlds that hold the same pipeline
    object. *)
Definition world_blind {A} (m : M A) : Prop :=
  ∀ w1 w2, pipeline w1 = pipeline w2 →
    (m w1).1 = (m w2).1 ∧ pipeline (m w1).2 = pipeline (m w2).2.

(** The single result [Single c] for the list result [Many [c]]. *)
Definition unwrap_single (r : Result Circuits) : Result Circuits :=
  match r with
  | Ok (Many [c]) => Ok (Single c)
  | other => other
  end.

(** More kinds of logged calls. *)
Definition is_deflate (ev : Event) : bool :=
  match ev with EvDeflate _ => true | _ => false end.

Definition is_matching (ev : Event) : bool :=
  match ev with EvMatchingLayouts _ _ => true | _ => false end.

Definition is_evaluate (ev : Event) : bool :=
  match ev with EvEvaluateLayouts _ _ _ _ => true | _ => false end.

Definition is_pinned_run (ev : Event) : bool :=
  match ev with EvTranspile _ _ _ _ (Some _) => true | _ => false end.

(** A logged vendor run has the arguments [transpile] gives it: a seeded
    run the pipeline's backend, its optimization level and one of its seeds;
    a run pinned to a layout the pipeline's backend, no optimization level
    and no seed. *)
Definition vendor_run_as_in (self : TranspilerSabreMapomaticDD.t) (ev : Event) : Prop :=
  match ev with
  | EvTranspile _ backend level seed None =>
      backend = TranspilerSabreMapomaticDD._backend self
      ∧ level = Some (TranspilerSabreMapomaticDD._optimization_level self)
      ∧ seed ∈ seeds_in_use self
  | EvTranspile _ backend level seed (Some _) =>
      backend = TranspilerSabreMapomaticDD._backend self
      ∧ level = None ∧ seed = None
  | _ => True
  end.

(** Whatever its outcome, [m] leaves the pipeline object alone and what it
    adds to the call log satisfies [R]. *)
Definition logs {A} (R : list Event → Prop) (m : M A) : Prop :=
  ∀ w, ∃ new, extends w (m w).2 new ∧ R new.

(** The pipeline object with another backend, every option kept. *)
Definition with_backend (self : TranspilerSabreMapomaticDD.t) (backend : Backend)
    : TranspilerSabreMapomaticDD.t :=
  TranspilerSabreMapomaticDD.__init__ backend
    (TranspilerSabreMapomaticDD._optimization_level self)
    (TranspilerSabreMapomaticDD._num_transpilations self)
    (TranspilerSabreMapomaticDD._seed_transpiler self)
    (TranspilerSabreMapomaticDD._cost_transpile self)
    (TranspilerSabreMapomaticDD._apply_mapomatic self)
    (TranspilerSabreMapomaticDD._cost_mapomatic self)
    (TranspilerSabreMapomaticDD._apply_dd self)
    (TranspilerSabreMapomaticDD._dd_passmanager self).

End Assumptions.

(** The constructor call [TranspilerSabreMapomaticDD(backend)] with every
    keyword at its default. *)
Definition TranspilerSabreMapomaticDD_default `{Domain} (backend : Backend)
    : TranspilerSabreMapomaticDD.t :=
  TranspilerSabreMapomaticDD.__init__ backend 0 1 None None false None false None.

(** ** A concrete world to run the definitions in

    Circuits are lists of named instructions on numbered qubits; the
    collaborators are small deterministic functions of their arguments and
    of a counter that plays the vendor's random generator. *)

Module Fixture.

Record Instruction : Type := { name : string; qubits : list nat }.

Record QuantumCircuit : Type := { num_qubits : nat; data : list Instruction }.

(** A stand-in for [count_ops] of the circuit library: the number of
    occurrences of every operation name. *)
Definition qc_count_ops (qc : QuantumCircuit) : gmap string nat :=
  foldr (λ ins ops, <[name ins := S (default 0%nat (ops !! name ins))]> ops) ∅ (data qc).

(** A stand-in for [depth] of the circuit library, the critical-path
    instruction-layer count: every instruction sits one layer above the
    highest layer reached so far on any of its qubits. *)
Definition qc_depth (qc : QuantumCircuit) : nat :=
  max_list
    (fold_left
       (λ op_stack ins,
          let level := S (max_list ((λ q, default 0%nat (op_stack !! q)) <$> qubits ins)) in
          foldr (λ q st, <[q:=level]> st) op_stack (qubits ins))
       (data qc) (replicate (num_qubits qc) 0%nat)).

#[export] Instance qc_api : QuantumCircuitAPI QuantumCircuit :=
  {| count_ops := qc_count_ops; depth := qc_depth |}.

Definition cx (control target : nat) : Instruction :=
  {| name := "cx"; qubits := [control; target] |}.

Definition x (qubit : nat) : Instruction := {| name := "x"; qubits := [qubit] |}.

Definition h (qubit : nat) : Instruction := {| name := "h"; qubits := [qubit] |}.

(** The circuit of the repository's tests: [QuantumCircuit(2)], then
    [cx(0, 1)] and [cx(1, 0)]. *)
Definition TWO_CNOTS : QuantumCircuit :=
  {| num_qubits := 2; data := [cx 0 1; cx 1 0] |}.

Definition append (qc : QuantumCircuit) (l : list Instruction) : QuantumCircuit :=
  {| num_qubits := num_qubits qc; data := data qc ++ l |}.

(** A backend: its duration model and its timing constraints, when it has
    them. *)
Record FakeBackend : Type := {
  durations_of : option Z;
  timing_of : option (gmap string Z);
}.

Definition good_backend : FakeBackend :=
  {| durations_of := Some 160; timing_of := Some {[ "pulse_alignment" := 16 ]} |}.

Definition no_durations_backend : FakeBackend :=
  {| durations_of := None; timing_of := Some {[ "pulse_alignment" := 16 ]} |}.

Definition no_alignment_backend : FakeBackend :=
  {| durations_of := Some 160; timing_of := Some {[ "granularity" := 16 ]} |}.

(** A simulator: durations, but a configuration without timing
    constraints. *)
Definition no_timing_backend : FakeBackend :=
  {| durations_of := Some 160; timing_of := None |}.

(** A vendor run appends [k mod 3] gates [cx(0, 1)], [k] being the seed
    when there is one and the counter otherwise; every run advances the
    counter. *)
Definition fake_transpile_run (qc : QuantumCircuit) (b : FakeBackend)
    (level : option Z) (seed : option Z) (layout : option (list nat)) (counter : nat)
    : Result QuantumCircuit * nat :=
  let k := match seed with
           | Some z => Z.to_nat z
           | None => counter
           end in
  (Ok (append qc (replicate (k mod 3) (cx 0 1))), S counter).

(** Deflation drops the idle qubits: here, the instructions named [id]. *)
Definition fake_deflate (qc : QuantumCircuit) (counter : nat)
    : Result QuantumCircuit * nat :=
  (Ok {| num_qubits := num_qubits qc;
         data := filter (λ ins, name ins ≠ "id") (data qc) |}, counter).

#[export] Instance domain : Domain := {|
  Circuit := QuantumCircuit;
  Backend := FakeBackend;
  Layout := list nat;
  InstructionDurations := Z;
  MapomaticCost := unit;
  External := nat;
|}.

#[export] Instance world : Collaborators := {|
  circuit_api := qc_api;
  timing_constraints := timing_of;
  InstructionDurations_from_backend b counter :=
    (match durations_of b with
     | Some d => Ok d
     | None => Raise (CollaboratorError 1)
     end, counter);
  compiler_transpile_run := fake_transpile_run;
  deflate_circuit := fake_deflate;
  matching_layouts qc b counter := (Ok [[0; 1]; [1; 2]]%nat, counter);
  evaluate_layouts qc layouts b cost counter :=
    (Ok ((λ l, (l, 0%Q)) <$> layouts), counter);
  PassManager_run pm qc counter := (Ok (append qc [x 0; x 0]), counter);
|}.

(** A world to start from: the given pipeline, a fresh counter, an empty log. *)
Definition start (self : TranspilerSabreMapomaticDD.t) : World :=
  {| pipeline := self; outside := 0%nat; calls := [] |}.

(** Pipelines on the good backend: three runs with four seeds and nothing
    else; the same with the re-layout and the decoupling enabled and no
    plan given; three runs with a single seed. *)
Definition seeded : TranspilerSabreMapomaticDD.t :=
  TranspilerSabreMapomaticDD.__init__ good_backend 1 3
    (Some [Some 2; Some 1; Some 1; Some 7]) None false None false None.

Definition full : TranspilerSabreMapomaticDD.t :=
  TranspilerSabreMapomaticDD.__init__ good_backend 1 3
    (Some [Some 2; Some 1; Some 1; Some 7]) None true None true None.

Definition short_seeds : TranspilerSabreMapomaticDD.t :=
  TranspilerSabreMapomaticDD.__init__ good_backend 1 3
    (Some [Some 1]) None false None false None.

(** A second circuit, and a batch of two. *)
Definition BELL : QuantumCircuit :=
  {| num_qubits := 2; data := [h 0; cx 0 1] |}.

Definition batch : Circuits := Many [TWO_CNOTS; BELL].

(** Inputs of one circuit (not in a list). *)
Definition one_two_cnots : Circuits := Single TWO_CNOTS.

Definition one_bell : Circuits := Single BELL.

(** [TWO_CNOTS] with one more [cx], as a single result. *)
Definition one_more_cx : Circuits := Single (append TWO_CNOTS [cx 0 1]).

(** The three candidates the seeds [2, 1, 1] give for [TWO_CNOTS], with
    costs 84, 63 and 63. *)
Definition candidates : list QuantumCircuit :=
  [append TWO_CNOTS [cx 0 1; cx 0 1]; append TWO_CNOTS [cx 0 1];
   append TWO_CNOTS [cx 0 1]].

Definition candidate_costs : list Q := [84; 63; 63]%Q.

(** Plan builders: [PassManager_DD_ALAP_XX(backend)]. *)
Definition good_builder : PassManager_DD_ALAP_XX.t :=
  PassManager_DD_ALAP_XX.__init__ good_backend.

Definition no_alignment_builder : PassManager_DD_ALAP_XX.t :=
  PassManager_DD_ALAP_XX.__init__ no_alignment_backend.

Definition no_durations_builder : PassManager_DD_ALAP_XX.t :=
  PassManager_DD_ALAP_XX.__init__ no_durations_backend.

Definition no_timing_builder : PassManager_DD_ALAP_XX.t :=
  PassManager_DD_ALAP_XX.__init__ no_timing_backend.

(** The plan [get_pass_manager] builds for the good backend. *)
Definition good_plan : PassManager InstructionDurations :=
  Build_PassManager
    [ALAPScheduleAnalysis 160; PadDynamicalDecoupling 160 [XGate; XGate] 16].

(** What a call returns, or the empty list when it raises. *)
Definition returned (r : Result Circuits * World) : Circuits :=
  match r.1 with
  | Ok out => out
  | Raise _ => Many []
  end.

Definition full_batch_output : Circuits :=
  Eval vm_compute in returned (transpile batch (start full)).

End Fixture.

(** ** More concrete worlds and pipelines, for the edges *)

Module Cases.

#[local] Existing Instance Fixture.domain.

(** The concrete collaborators with an evaluator that always has the layout
    [[0, 1]] to offer, whatever candidates it is given. *)
Definition steady : Collaborators := {|
  circuit_api := Fixture.qc_api;
  timing_constraints := Fixture.timing_of;
  InstructionDurations_from_backend :=
    InstructionDurations_from_backend (Collaborators := Fixture.world);
  compiler_transpile_run := Fixture.fake_transpile_run;
  deflate_circuit := Fixture.fake_deflate;
  matching_layouts := matching_layouts (Collaborators := Fixture.world);
  evaluate_layouts qc layouts b cost counter :=
    (Ok (([0; 1]%nat, 0%Q) :: ((λ l, (l, 1%Q)) <$> layouts)), counter);
  PassManager_run := PassManager_run (Collaborators := Fixture.world);
|}.

(** The concrete collaborators with an evaluator that never finds a layout. *)
Definition no_layout : Collaborators := {|
  circuit_api := Fixture.qc_api;
  timing_constraints := Fixture.timing_of;
  InstructionDurations_from_backend :=
    InstructionDurations_from_backend (Collaborators := Fixture.world);
  compiler_transpile_run := Fixture.fake_transpile_run;
  deflate_circuit := Fixture.fake_deflate;
  matching_layouts := matching_layouts (Collaborators := Fixture.world);
  evaluate_layouts qc layouts b cost counter := (Ok [], counter);
  PassManager_run := PassManager_run (Collaborators := Fixture.world);
|}.

(** Pipelines: no run asked for; decoupling on a backend without the
    alignment entry; decoupling with a plan given at construction. *)
Definition no_runs : TranspilerSabreMapomaticDD.t :=
  TranspilerSabreMapomaticDD.__init__ Fixture.good_backend 1 0
    None None false None false None.

Definition no_alignment : TranspilerSabreMapomaticDD.t :=
  TranspilerSabreMapomaticDD.__init__ Fixture.no_alignment_backend 1 3
    (Some [Some 2; Some 1; Some 1; Some 7]) None false None true None.

Definition with_plan : TranspilerSabreMapomaticDD.t :=
  TranspilerSabreMapomaticDD.__init__ Fixture.good_backend 1 3
    (Some [Some 2; Some 1; Some 1; Some 7]) None false None true
    (Some Fixture.good_plan).

(** A world whose outside state is further on than in [Fixture.start]. *)
Definition later (self : TranspilerSabreMapomaticDD.t) : World :=
  {| pipeline := self; outside := 5%nat; calls := [] |}.

End Cases.

(** * Properties *)

(** ** The default cost function *)

Section CostFacts.
Context {Circuit : Type} `{QuantumCircuitAPI Circuit}.

Lemma cx_lookup_getitem (circuit : Circuit) :
  (if dict_contains (count_ops circuit) "cx"
   then dict_getitem (count_ops circuit) "cx"
   else Ok 0%nat) = Ok (cx_count circuit).
Proof.
  unfold dict_contains, dict_getitem, cx_count.
  destruct (count_ops circuit !! "cx") as [n|]; reflexivity.
Qed.

Lemma transpile_cost_depthcnot_value (circuit : Circuit) (weight_depth weight_cnot : Q) :
  transpile_cost_depthcnot circuit weight_depth weight_cnot
    = Ok (weight_depth * inject_Z (Z.of_nat (depth circuit))
          + weight_cnot * inject_Z (Z.of_nat (cx_count circuit)))%Q.
Proof. unfold transpile_cost_depthcnot. rewrite cx_lookup_getitem. reflexivity. Qed.


End CostFacts.

(** ** The loops as maps *)

Section LoopFacts.
Context `{Collaborators}.

(** A loop that appends one result per index collects the map of its body. *)
Lemma for_each_collect {I A} (f : I → M A) (body : I → list A → M (list A)) :
  (∀ i acc w, body i acc w = (y <- f i ;; ret (acc ++ [y])) w) →
  ∀ idx acc w,
    for_each idx body acc w = (ys <- M_map f idx ;; ret (acc ++ ys)) w.
Proof.
  intros Hbody. induction idx as [|i idx IH]; intros acc w; simpl.
  - unfold bind, ret. rewrite app_nil_r. reflexivity.
  - unfold bind. rewrite Hbody. unfold bind, ret.
    destruct (f i w) as [[y|e] w1]; [|reflexivity].
    rewrite IH. unfold bind, ret.
    destruct (M_map f idx w1) as [[ys|e] w2]; [|reflexivity].
    rewrite <- app_assoc. reflexivity.
Qed.

(** Reading [l[i]] for [i] over [range(len(l))] visits the elements in order. *)
Lemma M_map_range {A B} (f : A → M B) (done todo : list A) w :
  M_map (λ i, x <- lift (list_getitem (done ++ todo) i) ;; f x)
        (seq (length done) (length todo)) w
  = M_map f todo w.
Proof.
  revert done w. induction todo as [|x todo IH]; intros done w; [reflexivity|].
  simpl. unfold bind, lift, list_getitem.
  rewrite list_lookup_middle by reflexivity.
  destruct (f x w) as [[y|e] w1]; [|reflexivity].
  specialize (IH (done ++ [x]) w1).
  rewrite length_app, <- app_assoc in IH. simpl in IH.
  rewrite Nat.add_1_r in IH. unfold bind, lift, list_getitem in IH.
  rewrite IH. reflexivity.
Qed.

(** A loop that replaces [s[i]] by the image of [s[i]], for [i] over
    [range(len(s))], maps its body over the list. *)
Lemma for_range_update {A} (f : A → M A) (body : nat → list A → M (list A)) :
  (∀ i s w, body i s w
            = (x <- lift (list_getitem s i) ;; y <- f x ;; lift (list_setitem s i y)) w) →
  ∀ todo done w,
    for_each (seq (length done) (length todo)) body (done ++ todo) w
    = (ys <- M_map f todo ;; ret (done ++ ys)) w.
Proof.
  intros Hbody. induction todo as [|x todo IH]; intros done w; simpl.
  - unfold bind, ret. rewrite app_nil_r. reflexivity.
  - unfold bind. rewrite Hbody. unfold bind, lift, list_getitem.
    rewrite list_lookup_middle by reflexivity.
    destruct (f x w) as [[y|e] w1]; [|reflexivity].
    unfold list_setitem.
    rewrite bool_decide_eq_true_2 by (rewrite length_app; simpl; lia).
    replace (<[length done:=y]> (done ++ x :: todo)) with ((done ++ [y]) ++ todo).
    2:{ rewrite <- app_assoc. simpl.
        rewrite insert_app_r_alt by lia. rewrite Nat.sub_diag. reflexivity. }
    specialize (IH (done ++ [y]) w1).
    rewrite length_app in IH. simpl in IH. rewrite Nat.add_1_r in IH.
    rewrite IH. unfold bind, ret.
    destruct (M_map f todo w1) as [[ys|e] w2]; [|reflexivity].
    rewrite <- app_assoc. reflexivity.
Qed.

Lemma for_range_update_all {A} (f : A → M A) (body : nat → list A → M (list A)) :
  (∀ i s w, body i s w
            = (x <- lift (list_getitem s i) ;; y <- f x ;; lift (list_setitem s i y)) w) →
  ∀ l w, for_range (length l) body l w = M_map f l w.
Proof.
  intros Hbody l w. unfold for_range.
  pose proof (for_range_update f body Hbody l [] w) as E. simpl in E.
  rewrite E. unfold bind, ret.
  destruct (M_map f l w) as [[ys|e] w1]; reflexivity.
Qed.

Lemma M_map_length {A B} (f : A → M B) l w ys w' :
  M_map f l w = (Ok ys, w') → length ys = length l.
Proof.
  revert w ys. induction l as [|x l IH]; intros w ys; simpl.
  - intros [= <- _]. reflexivity.
  - unfold bind. destruct (f x w) as [[y|e] w1]; [|discriminate].
    destruct (M_map f l w1) as [[ys'|e] w2] eqn:E; [|discriminate].
    intros [= <- <-]. simpl. f_equal. eauto.
Qed.

Lemma M_map_returns {A B} (f : A → M B) l w ys w' :
  M_map f l w = (Ok ys, w') → Forall2 (λ x y, returns (f x) y) l ys.
Proof.
  revert w ys. induction l as [|x l IH]; intros w ys; simpl.
  - intros [= <- _]. constructor.
  - unfold bind. destruct (f x w) as [[y|e] w1] eqn:Ex; [|discriminate].
    destruct (M_map f l w1) as [[ys'|e] w2] eqn:E; [|discriminate].
    intros [= <- <-]. constructor; [exists w, w1; exact Ex|eauto].
Qed.

(** The first loop of [transpile] is the selection mapped over the input. *)
Lemma transpile_for_backend_map circuits_ backend level K seeds cost w :
  transpile_for_backend circuits_ backend level K seeds cost w
  = M_map (select_best backend level K seeds cost) circuits_ w.
Proof.
  unfold transpile_for_backend, for_range.
  rewrite (for_each_collect
             (λ i, circ <- lift (list_getitem circuits_ i) ;;
                   select_best backend level K seeds cost circ)).
  - pose proof (M_map_range (select_best backend level K seeds cost) [] circuits_ w) as E.
    simpl in E. unfold bind at 1. rewrite E.
    destruct (M_map _ circuits_ w) as [[ys|e] w1]; reflexivity.
  - intros i acc w0. unfold select_best, bind, lift, ret.
    destruct (list_getitem circuits_ i) as [circ|e]; [|reflexivity].
    destruct (compiler_transpile _ _ _ _ w0) as [[trans_qc|e] w1]; [|reflexivity].
    destruct (rmap cost trans_qc) as [costs|e]; [|reflexivity].
    destruct (py_min costs) as [lowest|e]; [|reflexivity].
    destruct (list_getitem (np_nonzero _) 0) as [best_pos|e]; [|reflexivity].
    destruct (list_getitem trans_qc best_pos); reflexivity.
Qed.

Lemma deflate_all_map trans_circs w :
  deflate_all trans_circs w = M_map deflate trans_circs w.
Proof.
  unfold deflate_all. rewrite (for_each_collect deflate).
  - unfold bind, ret. destruct (M_map deflate trans_circs w) as [[ys|e] w1]; reflexivity.
  - reflexivity.
Qed.

Lemma select_layouts_map trans_circs backend cost_mapomatic w :
  select_layouts (length trans_circs) trans_circs backend cost_mapomatic w
  = M_map (select_layout backend cost_mapomatic) trans_circs w.
Proof.
  apply (for_range_update_all (select_layout backend cost_mapomatic)).
  intros i s w0. unfold select_layout, deflate, bind, lift.
  destruct (list_getitem s i) as [qc|e]; [|reflexivity].
  destruct (call (EvDeflate qc) _ w0) as [[small_qc|e] w1]; [|reflexivity].
  destruct (call (EvMatchingLayouts _ _) _ w1) as [[layouts|e] w2]; [|reflexivity].
  destruct (call (EvEvaluateLayouts _ _ _ _) _ w2) as [[scores|e] w3]; [|reflexivity].
  destruct (list_getitem scores 0) as [first_score|e]; reflexivity.
Qed.

Lemma apply_dd_all_map trans_circs pm w :
  apply_dd_all (length trans_circs) trans_circs (Some pm) w
  = M_map (run_plan pm) trans_circs w.
Proof.
  apply (for_range_update_all (run_plan pm)).
  intros i s w0. unfold run_plan, bind, lift, ret.
  destruct (list_getitem s i) as [qc|e]; reflexivity.
Qed.

End LoopFacts.

(** ** The choice of the cheapest candidate *)

Section MinimumFacts.

Lemma Qltb_lt (x y : Q) : Qltb x y = true ↔ (x < y)%Q.
Proof.
  unfold Qltb. rewrite negb_true_iff, <- not_true_iff_false, Qle_bool_iff.
  split; [apply Qnot_le_lt | apply Qlt_not_le].
Qed.

Lemma Qltb_ge (x y : Q) : Qltb x y = false ↔ (y <= x)%Q.
Proof. unfold Qltb. rewrite negb_false_iff. apply Qle_bool_iff. Qed.

(** The running minimum of [min]: below the start value and every item,
    and one of them. *)
Lemma running_min_spec (l : list Q) (x : Q) :
  let m := fold_left (λ m y, if Qltb y m then y else m) l x in
  (m <= x)%Q ∧ Forall (λ c, (m <= c)%Q) l ∧ (m = x ∨ m ∈ l).
Proof.
  revert x. induction l as [|y l IH]; intros x; simpl.
  - split; [apply Qle_refl|]. split; [constructor|left; reflexivity].
  - destruct (Qltb y x) eqn:E.
    + apply Qltb_lt in E. destruct (IH y) as (Hx & Hall & Hin).
      split; [apply Qlt_le_weak; eapply Qle_lt_trans; eassumption|].
      split; [constructor; assumption|].
      right. destruct Hin as [->|Hin]; [left|right]; auto.
    + apply Qltb_ge in E. destruct (IH x) as (Hx & Hall & Hin).
      split; [assumption|].
      split; [constructor; [eapply Qle_trans; eassumption|assumption]|].
      destruct Hin as [Hin|Hin]; [left; assumption|right; right; assumption].
Qed.

Lemma py_min_spec (costs : list Q) (m : Q) :
  py_min costs = Ok m → Forall (λ c, (m <= c)%Q) costs ∧ m ∈ costs.
Proof.
  destruct costs as [|x l]; simpl; [discriminate|].
  intros [= <-]. destruct (running_min_spec l x) as (Hx & Hall & Hin).
  split; [constructor; assumption|].
  destruct Hin as [->|Hin]; [left|right; assumption].
Qed.

(** The first index [nonzero] reports is the first true entry of the mask. *)
Lemma np_nonzero_from_first (mask : list bool) (i p : nat) :
  np_nonzero_from i mask !! 0%nat = Some p →
  ∃ k, p = (i + k)%nat ∧ mask !! k = Some true
       ∧ ∀ j, (j < k)%nat → mask !! j = Some false.
Proof.
  revert i. induction mask as [|b mask IH]; intros i; simpl; [discriminate|].
  destruct b.
  - simpl. intros [= <-]. exists 0%nat. split; [lia|]. split; [reflexivity|].
    intros j Hj. lia.
  - intros Hp. destruct (IH _ Hp) as (k & -> & Hk & Hbefore).
    exists (S k). split; [lia|]. split; [exact Hk|].
    intros [|j] Hj; [reflexivity|]. simpl. apply Hbefore. lia.
Qed.

Lemma np_nonzero_from_some (mask : list bool) (i k : nat) :
  mask !! k = Some true → is_Some (np_nonzero_from i mask !! 0%nat).
Proof.
  revert i k. induction mask as [|b mask IH]; intros i k; [discriminate|].
  simpl. destruct b; [eauto|].
  destruct k as [|k]; [discriminate|]. simpl. apply IH.
Qed.

(** The position the selection computes is the first cheapest one. *)
Lemma best_pos_first_minimum (costs : list Q) (lowest : Q) (best_pos : nat) :
  py_min costs = Ok lowest →
  list_getitem (np_nonzero (np_eq costs lowest)) 0 = Ok best_pos →
  is_first_minimum costs best_pos.
Proof.
  intros Hmin Hpos. apply py_min_spec in Hmin as [Hall _].
  unfold list_getitem in Hpos.
  destruct (np_nonzero (np_eq costs lowest) !! 0%nat) as [p|] eqn:E; [|discriminate].
  injection Hpos as ->. apply np_nonzero_from_first in E as (k & -> & Hk & Hbefore).
  simpl. unfold np_eq in Hk, Hbefore.
  rewrite list_lookup_fmap in Hk.
  destruct (costs !! k) as [c|] eqn:Ec; [|discriminate].
  injection Hk as Hk. apply Qeq_bool_iff in Hk.
  exists c. split; [exact Ec|]. split.
  - intros j cj Hj. rewrite Hk.
    rewrite Forall_lookup in Hall. eapply Hall; eassumption.
  - intros j cj Hlt Hj. specialize (Hbefore j Hlt).
    rewrite list_lookup_fmap, Hj in Hbefore. injection Hbefore as Hne.
    rewrite Hk.
    rewrite Forall_lookup in Hall. specialize (Hall j cj Hj).
    apply Qle_lteq in Hall as [Hlt'|Heq]; [assumption|].
    apply Qeq_sym, Qeq_bool_iff in Heq. congruence.
Qed.

(** On a non-empty list of costs the selection finds a position. *)
Lemma best_pos_exists (costs : list Q) :
  costs ≠ [] →
  ∃ lowest best_pos,
    py_min costs = Ok lowest
    ∧ list_getitem (np_nonzero (np_eq costs lowest)) 0 = Ok best_pos
    ∧ (best_pos < length costs)%nat.
Proof.
  intros Hne. destruct costs as [|x l] eqn:Ecosts; [congruence|]. rewrite <- Ecosts.
  assert (∃ lowest, py_min costs = Ok lowest) as [lowest Hmin]
    by (rewrite Ecosts; simpl; eauto).
  exists lowest.
  destruct (py_min_spec _ _ Hmin) as [_ Hin].
  apply list_elem_of_lookup in Hin as [k Hk].
  assert (Hmask : np_eq costs lowest !! k = Some true).
  { unfold np_eq. rewrite list_lookup_fmap, Hk. simpl. f_equal.
    apply Qeq_bool_iff. reflexivity. }
  destruct (np_nonzero_from_some _ 0 _ Hmask) as [p Hp].
  exists p. split; [assumption|]. unfold list_getitem, np_nonzero. rewrite Hp.
  split; [reflexivity|].
  apply np_nonzero_from_first in Hp as (k' & -> & Hk' & _).
  apply lookup_lt_Some in Hk'. unfold np_eq in Hk'. rewrite length_fmap in Hk'.
  simpl. assumption.
Qed.

Lemma rmap_length {A B} (f : A → Result B) (l : list A) (ys : list B) :
  rmap f l = Ok ys → length ys = length l.
Proof.
  revert ys. induction l as [|x l IH]; intros ys; simpl.
  - intros [= <-]. reflexivity.
  - destruct (f x) as [y|e]; simpl; [|discriminate].
    destruct (rmap f l) as [ys'|e]; simpl; [|discriminate].
    intros [= <-]. simpl. f_equal. auto.
Qed.

End MinimumFacts.

(** ** The call log and the pipeline object *)

Section LogFacts.
Context `{Collaborators}.

Lemma extends_refl w : extends w w [].
Proof. split; [reflexivity|]. rewrite app_nil_r. reflexivity. Qed.

Lemma extends_trans w1 w2 w3 new1 new2 :
  extends w1 w2 new1 → extends w2 w3 new2 → extends w1 w3 (new1 ++ new2).
Proof.
  intros [Hp1 Hc1] [Hp2 Hc2]. split; [congruence|].
  rewrite Hc2, Hc1, app_assoc. reflexivity.
Qed.

Lemma only_emits_ret {A} P (a : A) : only_emits P (ret a).
Proof. intros w. exists []. split; [apply extends_refl|constructor]. Qed.

Lemma only_emits_raise {A} P e : only_emits P (raise (A:=A) e).
Proof. intros w. exists []. split; [apply extends_refl|constructor]. Qed.

Lemma only_emits_lift {A} P (r : Result A) : only_emits P (lift r).
Proof. intros w. exists []. split; [apply extends_refl|constructor]. Qed.

Lemma only_emits_get_self P : only_emits P get_self.
Proof. intros w. exists []. split; [apply extends_refl|constructor]. Qed.

Lemma only_emits_py_assert P b : only_emits P (py_assert b).
Proof. destruct b; [apply only_emits_ret|apply only_emits_raise]. Qed.

Lemma only_emits_call {A} (P : Event → Prop) ev (f : External → Result A * External) :
  P ev → only_emits P (call ev f).
Proof.
  intros HP w. exists [ev]. unfold call.
  destruct (f (outside w)) as [r o]. simpl.
  split; [split; reflexivity|]. constructor; [assumption|constructor].
Qed.

Lemma only_emits_bind {A B} P (m : M A) (k : A → M B) :
  only_emits P m → (∀ a, only_emits P (k a)) → only_emits P (bind m k).
Proof.
  intros Hm Hk w. destruct (Hm w) as (new1 & Hext1 & HP1). unfold bind.
  destruct (m w) as [[a|e] w1]; simpl in *.
  - destruct (Hk a w1) as (new2 & Hext2 & HP2).
    exists (new1 ++ new2). split; [eapply extends_trans; eassumption|].
    apply Forall_app; auto.
  - exists new1. auto.
Qed.

Lemma only_emits_mono {A} (P Q : Event → Prop) (m : M A) :
  (∀ ev, P ev → Q ev) → only_emits P m → only_emits Q m.
Proof.
  intros HPQ Hm w. destruct (Hm w) as (new & Hext & HP).
  exists new. split; [assumption|]. eapply Forall_impl; eauto.
Qed.

Lemma only_emits_for_each {I S} P (body : I → S → M S) idx :
  (∀ i s, only_emits P (body i s)) → ∀ s, only_emits P (for_each idx body s).
Proof.
  intros Hbody. induction idx as [|i idx IH]; intros s; simpl.
  - apply only_emits_ret.
  - apply only_emits_bind; auto.
Qed.

Lemma only_emits_M_map {A B} P (f : A → M B) l :
  (∀ x, only_emits P (f x)) → only_emits P (M_map f l).
Proof.
  intros Hf. induction l as [|x l IH]; simpl.
  - apply only_emits_ret.
  - apply only_emits_bind; [auto|]. intros y.
    apply only_emits_bind; [auto|]. intros ys. apply only_emits_ret.
Qed.

Ltac emits :=
  repeat first
    [ apply only_emits_ret | apply only_emits_raise | apply only_emits_lift
    | apply only_emits_get_self | apply only_emits_py_assert
    | apply only_emits_call; [reflexivity]
    | apply only_emits_for_each; intros
    | apply only_emits_M_map; intros
    | apply only_emits_bind; [|intros] ].

Lemma get_pass_manager_emits self :
  only_emits (λ ev, is_plan_build ev = true) (get_pass_manager self).
Proof. unfold get_pass_manager. emits. Qed.

Lemma default_dd_passmanager_emits self apply_dd dd :
  only_emits (λ ev, is_plan_build ev = true) (default_dd_passmanager self apply_dd dd).
Proof.
  unfold default_dd_passmanager. destruct (apply_dd && is_None dd).
  - apply only_emits_bind; [apply get_pass_manager_emits|]. intros. emits.
  - emits.
Qed.

Lemma default_seed_transpiler_pure seeds K w :
  (default_seed_transpiler seeds K w).2 = w.
Proof.
  unfold default_seed_transpiler. destruct seeds as [seeds|]; [|reflexivity].
  unfold bind, py_assert. destruct (K <=? len seeds); reflexivity.
Qed.

Lemma compiler_transpile_emits circuits backend level seeds :
  only_emits (λ ev, is_seed_run ev = true) (compiler_transpile circuits backend level seeds).
Proof. unfold compiler_transpile. emits. Qed.

Lemma transpile_for_backend_emits circuits_ backend level K seeds cost :
  only_emits (λ ev, is_seed_run ev = true)
             (transpile_for_backend circuits_ backend level K seeds cost).
Proof.
  unfold transpile_for_backend, for_range. emits.
Qed.

Lemma deflate_all_emits trans_circs :
  only_emits (λ ev, is_relayout ev = true) (deflate_all trans_circs).
Proof. unfold deflate_all. emits. Qed.

Lemma select_layouts_emits n trans_circs backend cost_mapomatic :
  only_emits (λ ev, is_relayout ev = true)
             (select_layouts n trans_circs backend cost_mapomatic).
Proof. unfold select_layouts, for_range, compiler_transpile_layout. emits. Qed.

Lemma apply_dd_all_emits n trans_circs dd :
  only_emits (λ ev, is_plan_run ev = true) (apply_dd_all n trans_circs dd).
Proof.
  unfold apply_dd_all, for_range. apply only_emits_for_each. intros i s.
  destruct dd; emits.
Qed.

Lemma default_seed_transpiler_emits P seeds K :
  only_emits P (default_seed_transpiler seeds K).
Proof. unfold default_seed_transpiler. destruct seeds; emits. Qed.

(** Whatever its outcome, [transpile] only adds to the call log and leaves
    the pipeline object as it was. *)
Lemma transpile_emits circuits : only_emits (λ _, True) (transpile circuits).
Proof.
  unfold transpile.
  apply only_emits_bind; [apply only_emits_get_self|]. intros self. cbv zeta.
  apply only_emits_bind; [apply default_seed_transpiler_emits|]. intros seeds.
  apply only_emits_bind;
    [eapply only_emits_mono; [|apply default_dd_passmanager_emits]; auto|].
  intros dd.
  apply only_emits_bind;
    [eapply only_emits_mono; [|apply transpile_for_backend_emits]; auto|].
  intros cs1.
  apply only_emits_bind.
  { destruct (TranspilerSabreMapomaticDD._apply_mapomatic self); [|apply only_emits_ret].
    apply only_emits_bind;
      [eapply only_emits_mono; [|apply deflate_all_emits]; auto|].
    intros deflated. eapply only_emits_mono; [|apply select_layouts_emits]. auto. }
  intros cs2.
  apply only_emits_bind.
  { destruct (TranspilerSabreMapomaticDD._apply_dd self); [|apply only_emits_ret].
    eapply only_emits_mono; [|apply apply_dd_all_emits]. auto. }
  intros cs3. destruct circuits; emits.
Qed.

Lemma transpile_keeps_pipeline circuits w :
  pipeline (transpile circuits w).2 = pipeline w.
Proof. destruct (transpile_emits circuits w) as (new & [Hp _] & _). exact Hp. Qed.

(** The setter replaces the backend the getter then reads, and nothing else. *)
Lemma backend_setter_then_backend (b : Backend) w :
  (backend_setter b ;;; backend)%py w
  = (Ok b, {| pipeline := TranspilerSabreMapomaticDD.__init__ b
                (TranspilerSabreMapomaticDD._optimization_level (pipeline w))
                (TranspilerSabreMapomaticDD._num_transpilations (pipeline w))
                (TranspilerSabreMapomaticDD._seed_transpiler (pipeline w))
                (TranspilerSabreMapomaticDD._cost_transpile (pipeline w))
                (TranspilerSabreMapomaticDD._apply_mapomatic (pipeline w))
                (TranspilerSabreMapomaticDD._cost_mapomatic (pipeline w))
                (TranspilerSabreMapomaticDD._apply_dd (pipeline w))
                (TranspilerSabreMapomaticDD._dd_passmanager (pipeline w));
              outside := outside w; calls := calls w |}).
Proof. reflexivity. Qed.

End LogFacts.

(** ** [transpile], stage by stage *)

Section TranspileFacts.
Context `{Collaborators}.

Lemma bind_ok_inv {A B} (m : M A) (k : A → M B) w b w' :
  bind m k w = (Ok b, w') → ∃ a w1, m w = (Ok a, w1) ∧ k a w1 = (Ok b, w').
Proof.
  unfold bind. destruct (m w) as [[a|e] w1]; [|discriminate]. eauto.
Qed.

Lemma default_seed_transpiler_ok_inv self w seeds w1 :
  default_seed_transpiler (TranspilerSabreMapomaticDD._seed_transpiler self)
    (TranspilerSabreMapomaticDD._num_transpilations self) w = (Ok seeds, w1) →
  seeds_long_enough self ∧ seeds = seeds_in_use self ∧ w1 = w.
Proof.
  unfold default_seed_transpiler, seeds_long_enough, seeds_in_use.
  destruct (TranspilerSabreMapomaticDD._seed_transpiler self) as [given|].
  - unfold bind, py_assert.
    destruct (_ <=? len given) eqn:E; [|discriminate].
    intros [= <- <-]. apply Z.leb_le in E. auto.
  - intros [= <- <-]. auto.
Qed.

Lemma default_seed_transpiler_ok self w :
  seeds_long_enough self →
  default_seed_transpiler (TranspilerSabreMapomaticDD._seed_transpiler self)
    (TranspilerSabreMapomaticDD._num_transpilations self) w = (Ok (seeds_in_use self), w).
Proof.
  unfold default_seed_transpiler, seeds_long_enough, seeds_in_use.
  destruct (TranspilerSabreMapomaticDD._seed_transpiler self) as [given|].
  - intros Hlen. apply Z.leb_le in Hlen. unfold bind, py_assert.
    rewrite Hlen. reflexivity.
  - reflexivity.
Qed.

(** When decoupling is on, the plan in use after the defaults is the given
    one, or the one just built from the pipeline's backend. *)
Lemma default_dd_passmanager_ok_inv self given w dd w1 :
  default_dd_passmanager self true given w = (Ok dd, w1) →
  ∃ pm, dd = Some pm
        ∧ match given with
          | Some pm0 => pm = pm0 ∧ w1 = w
          | None => get_pass_manager
                      (PassManager_DD_ALAP_XX.__init__
                         (TranspilerSabreMapomaticDD._backend self)) w = (Ok pm, w1)
          end.
Proof.
  unfold default_dd_passmanager. destruct given as [pm0|]; simpl.
  - intros [= <- <-]. eauto.
  - intros Hb. apply bind_ok_inv in Hb as (pm & w2 & Hpm & Hret).
    injection Hret as <- <-. eauto.
Qed.

(** A successful [transpile], read stage by stage. *)
Lemma transpile_ok_inv circuits w out w' :
  transpile circuits w = (Ok out, w') →
  let self := pipeline w in
  let backend := TranspilerSabreMapomaticDD._backend self in
  seeds_long_enough self
  ∧ ∃ dd w1 cs1 w2 cs2 w3 cs3,
      default_dd_passmanager self (TranspilerSabreMapomaticDD._apply_dd self)
        (TranspilerSabreMapomaticDD._dd_passmanager self) w = (Ok dd, w1)
      ∧ M_map (select_best backend (TranspilerSabreMapomaticDD._optimization_level self)
                 (TranspilerSabreMapomaticDD._num_transpilations self)
                 (seeds_in_use self) (cost_in_use self))
              (as_list circuits) w1 = (Ok cs1, w2)
      ∧ (if TranspilerSabreMapomaticDD._apply_mapomatic self
         then ∃ deflated wd,
                M_map deflate cs1 w2 = (Ok deflated, wd)
                ∧ M_map (select_layout backend
                           (TranspilerSabreMapomaticDD._cost_mapomatic self)) cs1 wd
                  = (Ok cs2, w3)
         else cs2 = cs1 ∧ w3 = w2)
      ∧ (if TranspilerSabreMapomaticDD._apply_dd self
         then ∃ pm, dd = Some pm ∧ M_map (run_plan pm) cs2 w3 = (Ok cs3, w')
         else cs3 = cs2 ∧ w' = w3)
      ∧ length cs3 = length (as_list circuits)
      ∧ match circuits with
        | Single _ => ∃ c, cs3 = [c] ∧ out = Single c
        | Many _ => out = Many cs3
        end.
Proof.
  intros Hrun self backend. unfold transpile in Hrun.
  apply bind_ok_inv in Hrun as (self0 & w0 & Hself & Hrun).
  injection Hself as <- <-. fold self in Hrun. cbv zeta in Hrun.
  apply bind_ok_inv in Hrun as (seeds & w0 & Hseeds & Hrun).
  apply default_seed_transpiler_ok_inv in Hseeds as (Hlong & -> & ->).
  split; [exact Hlong|].
  apply bind_ok_inv in Hrun as (dd & w1 & Hdd & Hrun).
  apply bind_ok_inv in Hrun as (cs1 & w2 & Hcs1 & Hrun).
  apply bind_ok_inv in Hrun as (cs2 & w3 & Hcs2 & Hrun).
  apply bind_ok_inv in Hrun as (cs3 & w4 & Hcs3 & Hrun).
  fold (as_list circuits) in Hcs1, Hcs2, Hcs3.
  rewrite transpile_for_backend_map in Hcs1. fold (cost_in_use self) in Hcs1.
  pose proof (M_map_length _ _ _ _ _ Hcs1) as Hlen1.
  assert (Hstage2 :
    (if TranspilerSabreMapomaticDD._apply_mapomatic self
     then ∃ deflated wd,
            M_map deflate cs1 w2 = (Ok deflated, wd)
            ∧ M_map (select_layout backend
                       (TranspilerSabreMapomaticDD._cost_mapomatic self)) cs1 wd
              = (Ok cs2, w3)
     else cs2 = cs1 ∧ w3 = w2) ∧ length cs2 = length cs1).
  { destruct (TranspilerSabreMapomaticDD._apply_mapomatic self).
    - apply bind_ok_inv in Hcs2 as (deflated & wd & Hdefl & Hcs2).
      rewrite deflate_all_map in Hdefl.
      rewrite <- Hlen1, select_layouts_map in Hcs2.
      split; [eauto|]. eapply M_map_length; eassumption.
    - injection Hcs2 as <- <-. auto. }
  destruct Hstage2 as [Hstage2 Hlen2].
  assert (Hstage3 :
    (if TranspilerSabreMapomaticDD._apply_dd self
     then ∃ pm, dd = Some pm ∧ M_map (run_plan pm) cs2 w3 = (Ok cs3, w4)
     else cs3 = cs2 ∧ w4 = w3) ∧ length cs3 = length cs2).
  { destruct (TranspilerSabreMapomaticDD._apply_dd self).
    - apply default_dd_passmanager_ok_inv in Hdd as (pm & -> & _).
      rewrite <- Hlen1, <- Hlen2, apply_dd_all_map in Hcs3.
      split; [eauto|]. eapply M_map_length; eassumption.
    - injection Hcs3 as <- <-. auto. }
  destruct Hstage3 as [Hstage3 Hlen3].
  assert (Hlen : length cs3 = length (as_list circuits)) by congruence.
  destruct circuits as [c|l].
  - simpl in Hlen. destruct cs3 as [|c3 [|? ?]]; try discriminate.
    unfold bind, lift, ret in Hrun. simpl in Hrun. injection Hrun as <- <-.
    exists dd, w1, cs1, w2, cs2, w3, [c3]. eauto 10.
  - injection Hrun as <- <-.
    exists dd, w1, cs1, w2, cs2, w3, cs3. eauto 10.
Qed.

End TranspileFacts.

(** ** The decoupling plan *)

Section PlanFacts.
Context `{Collaborators}.

(** The alignment lookup, case by case. *)
Lemma pulse_alignment_of_cases (backend : Backend) :
  pulse_alignment_of backend =
    match timing_constraints backend with
    | None => Raise (AttributeError "timing_constraints")
    | Some timing =>
        match timing !! "pulse_alignment" with
        | None => Raise (KeyError "pulse_alignment")
        | Some pulse_alignment => Ok pulse_alignment
        end
    end.
Proof.
  unfold pulse_alignment_of, py_getattr, dict_getitem.
  destruct (timing_constraints backend) as [timing|]; reflexivity.
Qed.

(** What [get_pass_manager] does, by the outcome of its two lookups. *)
Lemma get_pass_manager_run (self : PassManager_DD_ALAP_XX.t) (w : World) :
  let backend := PassManager_DD_ALAP_XX._backend self in
  let w' := {| pipeline := pipeline w;
               outside := (InstructionDurations_from_backend backend (outside w)).2;
               calls := calls w ++ [EvFromBackend backend] |} in
  get_pass_manager self w =
    match (InstructionDurations_from_backend backend (outside w)).1 with
    | Raise e => (Raise e, w')
    | Ok durations =>
        match pulse_alignment_of backend with
        | Raise e => (Raise e, w')
        | Ok pulse_alignment =>
            (Ok (Build_PassManager
                   [ALAPScheduleAnalysis durations;
                    PadDynamicalDecoupling durations [XGate; XGate] pulse_alignment]),
             w')
        end
    end.
Proof.
  unfold get_pass_manager, pulse_alignment_of, bind, call, lift, ret. simpl.
  destruct (InstructionDurations_from_backend _ _) as [[d|e] o]; simpl; [|reflexivity].
  destruct (py_getattr _ _) as [timing|e]; simpl; [|reflexivity].
  destruct (dict_getitem _ _); reflexivity.
Qed.

(** C6. A plan returned by [get_pass_manager] has exactly two stages, in
    this order: the ALAP schedule analysis on the backend's instruction
    durations, then the decoupling padding on the same durations, with the
    sequence [X, X] and the [pulse_alignment] of the backend's timing
    constraints; and that plan is returned whenever both lookups succeed. *)
Theorem get_pass_manager_two_stages (self : PassManager_DD_ALAP_XX.t) (w : World) :
  let backend := PassManager_DD_ALAP_XX._backend self in
  (∀ pm w', get_pass_manager self w = (Ok pm, w') →
     ∃ durations timing pulse_alignment,
       (InstructionDurations_from_backend backend (outside w)).1 = Ok durations
       ∧ timing_constraints backend = Some timing
       ∧ timing !! "pulse_alignment" = Some pulse_alignment
       ∧ passes pm = [ALAPScheduleAnalysis durations;
                      PadDynamicalDecoupling durations [XGate; XGate] pulse_alignment])
  ∧ (∀ durations timing pulse_alignment,
       (InstructionDurations_from_backend backend (outside w)).1 = Ok durations →
       timing_constraints backend = Some timing →
       timing !! "pulse_alignment" = Some pulse_alignment →
       (get_pass_manager self w).1
         = Ok (Build_PassManager
                 [ALAPScheduleAnalysis durations;
                  PadDynamicalDecoupling durations [XGate; XGate] pulse_alignment])).
Proof.
  intros backend. split.
  - intros pm w'. rewrite get_pass_manager_run, pulse_alignment_of_cases. fold backend.
    destruct (InstructionDurations_from_backend backend (outside w)).1 as [d|e];
      [|discriminate].
    destruct (timing_constraints backend) as [timing|]; [|discriminate].
    destruct (timing !! "pulse_alignment") as [a|] eqn:Ea; [|discriminate].
    intros [= <- _]. exists d, timing, a. auto.
  - intros d timing a Hd Ht Ha.
    rewrite get_pass_manager_run, pulse_alignment_of_cases. fold backend.
    rewrite Hd, Ht, Ha. reflexivity.
Qed.

(** C8. On a backend with a duration model and a [pulse_alignment] entry
    among its timing constraints [get_pass_manager] raises nothing and
    returns a plan, the one of two stages.  It fails in these ways and no
    other: the duration lookup raised, and [get_pass_manager] raises the
    same exception; or, the durations found, the configuration of the
    backend has no alignment entry to give, and [get_pass_manager] raises
    what line 57 raises then, the [AttributeError] of a configuration
    without timing constraints or the [KeyError] of timing constraints
    without the key.  Nothing is caught and nothing is raised in place of
    another exception. *)
Theorem get_pass_manager_failure_paths (self : PassManager_DD_ALAP_XX.t) (w : World) :
  let backend := PassManager_DD_ALAP_XX._backend self in
  let looked_up := (InstructionDurations_from_backend backend (outside w)).1 in
  (∀ durations timing pulse_alignment,
     looked_up = Ok durations →
     timing_constraints backend = Some timing →
     timing !! "pulse_alignment" = Some pulse_alignment →
     ∃ pm, (get_pass_manager self w).1 = Ok pm
           ∧ passes pm = [ALAPScheduleAnalysis durations;
                          PadDynamicalDecoupling durations [XGate; XGate]
                            pulse_alignment])
  ∧ (∀ e, looked_up = Raise e → (get_pass_manager self w).1 = Raise e)
  ∧ (∀ durations,
       looked_up = Ok durations →
       timing_constraints backend = None →
       (get_pass_manager self w).1 = Raise (AttributeError "timing_constraints"))
  ∧ (∀ durations timing,
       looked_up = Ok durations →
       timing_constraints backend = Some timing →
       timing !! "pulse_alignment" = None →
       (get_pass_manager self w).1 = Raise (KeyError "pulse_alignment"))
  ∧ (∀ e, (get_pass_manager self w).1 = Raise e →
       looked_up = Raise e
       ∨ (is_ok looked_up = true
          ∧ pulse_alignment_of backend = Raise e
          ∧ ((timing_constraints backend = None
              ∧ e = AttributeError "timing_constraints")
             ∨ (∃ timing, timing_constraints backend = Some timing
                          ∧ timing !! "pulse_alignment" = None
                          ∧ e = KeyError "pulse_alignment")))).
Proof.
  intros backend looked_up. subst looked_up.
  rewrite get_pass_manager_run. fold backend.
  split; [|split; [|split; [|split]]].
  - intros d timing a Hd Ht Ha. rewrite pulse_alignment_of_cases, Hd, Ht, Ha.
    eexists. split; reflexivity.
  - intros e He. rewrite He. reflexivity.
  - intros d Hd Ht. rewrite pulse_alignment_of_cases, Hd, Ht. reflexivity.
  - intros d timing Hd Ht Ha. rewrite pulse_alignment_of_cases, Hd, Ht, Ha. reflexivity.
  - intros e.
    destruct (InstructionDurations_from_backend backend (outside w)).1 as [d|e'].
    + rewrite pulse_alignment_of_cases.
      destruct (timing_constraints backend) as [timing|].
      * destruct (timing !! "pulse_alignment") as [a|] eqn:Ea; [discriminate|].
        intros [= <-]. right. split; [reflexivity|]. split; [reflexivity|].
        right. exists timing. auto.
      * intros [= <-]. right. split; [reflexivity|]. split; [reflexivity|].
        left. auto.
    + intros [= <-]. left. reflexivity.
Qed.

End PlanFacts.

(** ** The selection among the repeated runs *)

Section SelectionFacts.
Context `{Collaborators}.

Lemma zip_replicate_take {A B} (n : nat) (x : A) (l : list B) :
  zip (replicate n x) l = (λ y, (x, y)) <$> take n l.
Proof.
  revert l. induction n as [|n IH]; intros [|y l]; simpl; try reflexivity.
  rewrite IH. reflexivity.
Qed.

Lemma compiler_transpile_length circuits backend level seeds w out w' :
  compiler_transpile circuits backend level seeds w = (Ok out, w') →
  length out = (length circuits `min` length seeds)%nat.
Proof.
  unfold compiler_transpile. intros Hrun.
  apply M_map_length in Hrun. rewrite Hrun. apply length_zip_with.
Qed.

(** With seeds that pass the precondition, a non-empty batch of candidates
    has exactly [num_transpilations] members. *)
Lemma candidates_count self circ w trans_qc w' :
  seeds_long_enough self →
  compiler_transpile
    (list_repeat circ (TranspilerSabreMapomaticDD._num_transpilations self))
    (TranspilerSabreMapomaticDD._backend self)
    (TranspilerSabreMapomaticDD._optimization_level self) (seeds_in_use self) w
    = (Ok trans_qc, w') →
  trans_qc ≠ [] →
  len trans_qc = TranspilerSabreMapomaticDD._num_transpilations self.
Proof.
  intros Hlong Hrun Hne. apply compiler_transpile_length in Hrun.
  unfold list_repeat in Hrun. rewrite length_replicate in Hrun.
  assert (length trans_qc ≠ 0)%nat by (destruct trans_qc; [congruence|discriminate]).
  unfold seeds_long_enough, seeds_in_use, len, list_repeat in *.
  destruct (TranspilerSabreMapomaticDD._seed_transpiler self) as [seeds|].
  - lia.
  - rewrite length_replicate in Hrun. lia.
Qed.

(** A successful selection, read backwards. *)
Lemma select_best_ok_inv backend level K seeds cost circ w best w' :
  select_best backend level K seeds cost circ w = (Ok best, w') →
  ∃ trans_qc costs best_pos,
    compiler_transpile (list_repeat circ K) backend level seeds w = (Ok trans_qc, w')
    ∧ rmap cost trans_qc = Ok costs
    ∧ length costs = length trans_qc
    ∧ is_first_minimum costs best_pos
    ∧ trans_qc !! best_pos = Some best.
Proof.
  unfold select_best. intros Hrun.
  apply bind_ok_inv in Hrun as (trans_qc & w1 & Hbatch & Hrun).
  unfold bind, lift in Hrun.
  destruct (rmap cost trans_qc) as [costs|e] eqn:Ecosts; [|discriminate].
  destruct (py_min costs) as [lowest|e] eqn:Emin; [|discriminate].
  destruct (list_getitem (np_nonzero (np_eq costs lowest)) 0) as [best_pos|e] eqn:Epos;
    [|discriminate].
  unfold list_getitem in Hrun.
  destruct (trans_qc !! best_pos) as [c|] eqn:Ebest; [|discriminate].
  injection Hrun as <- <-.
  exists trans_qc, costs, best_pos.
  split; [assumption|]. split; [assumption|].
  split; [eapply rmap_length; eassumption|].
  split; [eapply best_pos_first_minimum; eassumption|assumption].
Qed.

(** The selection goes through as soon as the vendor returned at least one
    candidate and every candidate has a cost. *)
Lemma select_best_ok backend level K seeds cost circ w trans_qc w' costs :
  compiler_transpile (list_repeat circ K) backend level seeds w = (Ok trans_qc, w') →
  rmap cost trans_qc = Ok costs →
  trans_qc ≠ [] →
  ∃ best best_pos,
    select_best backend level K seeds cost circ w = (Ok best, w')
    ∧ is_first_minimum costs best_pos
    ∧ trans_qc !! best_pos = Some best.
Proof.
  intros Hbatch Hcosts Hne.
  pose proof (rmap_length _ _ _ Hcosts) as Hlen.
  assert (Hcne : costs ≠ []) by (destruct costs, trans_qc; simpl in *; congruence).
  destruct (best_pos_exists costs Hcne) as (lowest & best_pos & Hmin & Hpos & Hlt).
  destruct (lookup_lt_is_Some_2 trans_qc best_pos) as [best Hbest]; [lia|].
  exists best, best_pos. split.
  - unfold select_best, bind, lift. rewrite Hbatch, Hcosts, Hmin, Hpos.
    unfold list_getitem. rewrite Hbest. reflexivity.
  - split; [eapply best_pos_first_minimum; eassumption|assumption].
Qed.

(** Only one position is the first cheapest one. *)
Lemma is_first_minimum_unique costs p q :
  is_first_minimum costs p → is_first_minimum costs q → p = q.
Proof.
  intros (c & Hc & Hle & Hbefore) (c' & Hc' & Hle' & Hbefore').
  destruct (Nat.lt_trichotomy p q) as [Hlt|[Heq|Hlt]]; [|assumption|].
  - specialize (Hbefore' p c Hlt Hc). specialize (Hle q c' Hc').
    exfalso. eapply Qlt_not_le; eassumption.
  - specialize (Hbefore q c' Hlt Hc'). specialize (Hle' p c Hc).
    exfalso. eapply Qlt_not_le; eassumption.
Qed.

Lemma selected_for_intro self circ w best w' :
  seeds_long_enough self →
  select_best (TranspilerSabreMapomaticDD._backend self)
    (TranspilerSabreMapomaticDD._optimization_level self)
    (TranspilerSabreMapomaticDD._num_transpilations self)
    (seeds_in_use self) (cost_in_use self) circ w = (Ok best, w') →
  selected_for self circ best.
Proof.
  intros Hlong Hrun.
  apply select_best_ok_inv in Hrun
    as (trans_qc & costs & best_pos & Hbatch & Hcosts & Hlen & Hmin & Hbest).
  exists w, w', trans_qc, costs, best_pos.
  split; [assumption|].
  split; [|auto].
  eapply candidates_count; [eassumption..|].
  intros ->. discriminate.
Qed.

Lemma M_map_Forall2_worlds {A B} (f : A → M B) (R : A → B → Prop) l w ys w' :
  (∀ x w0 y w1, f x w0 = (Ok y, w1) → R x y) →
  M_map f l w = (Ok ys, w') → Forall2 R l ys.
Proof.
  intros HR. revert w ys. induction l as [|x l IH]; intros w ys; simpl.
  - intros [= <- _]. constructor.
  - unfold bind. destruct (f x w) as [[y|e] w1] eqn:Ex; [|discriminate].
    destruct (M_map f l w1) as [[ys'|e] w2] eqn:E; [|discriminate].
    intros [= <- <-]. constructor; eauto.
Qed.

(** C1. In a successful [transpile], every circuit of the input gets, as
    its working form after the first loop, a candidate of least cost among
    the [num_transpilations] candidates the vendor returned for it, and
    among the cheapest ones the first in run order; that position is
    unique, so the choice is a function of the costs; it is the result of
    [transpile] when neither the re-layout nor the decoupling is enabled.
    The selection never gets stuck on a non-empty batch of candidates that
    all have a cost. *)
Theorem transpile_selects_first_minimum (circuits : Circuits) (w : World) :
  let self := pipeline w in
  (∀ out w', transpile circuits w = (Ok out, w') →
     ∃ selected,
       Forall2 (selected_for self) (as_list circuits) selected
       ∧ (TranspilerSabreMapomaticDD._apply_mapomatic self = false →
          TranspilerSabreMapomaticDD._apply_dd self = false →
          as_list out = selected))
  ∧ (∀ costs p q, is_first_minimum costs p → is_first_minimum costs q → p = q)
  ∧ (∀ circ w0 trans_qc w1 costs,
       compiler_transpile
         (list_repeat circ (TranspilerSabreMapomaticDD._num_transpilations self))
         (TranspilerSabreMapomaticDD._backend self)
         (TranspilerSabreMapomaticDD._optimization_level self) (seeds_in_use self) w0
         = (Ok trans_qc, w1) →
       rmap (cost_in_use self) trans_qc = Ok costs →
       trans_qc ≠ [] →
       ∃ best best_pos,
         select_best (TranspilerSabreMapomaticDD._backend self)
           (TranspilerSabreMapomaticDD._optimization_level self)
           (TranspilerSabreMapomaticDD._num_transpilations self)
           (seeds_in_use self) (cost_in_use self) circ w0 = (Ok best, w1)
         ∧ is_first_minimum costs best_pos
         ∧ trans_qc !! best_pos = Some best).
Proof.
  intros self. split; [|split].
  - intros out w' Hrun.
    apply transpile_ok_inv in Hrun
      as (Hlong & dd & w1 & cs1 & w2 & cs2 & w3 & cs3 & _ & Hcs1 & Hcs2 & Hcs3 & _ & Hout).
    fold self in Hlong, Hcs1, Hcs2, Hcs3.
    exists cs1. split.
    + eapply M_map_Forall2_worlds; [|exact Hcs1].
      intros x w0 y w1' Hsel. eapply selected_for_intro; eassumption.
    + intros Hmap Hdd. rewrite Hmap in Hcs2. rewrite Hdd in Hcs3.
      destruct Hcs2 as [-> _], Hcs3 as [-> _].
      destruct circuits; [destruct Hout as (c & -> & ->)|subst out]; reflexivity.
  - apply is_first_minimum_unique.
  - intros circ w0 trans_qc w1 costs. apply select_best_ok.
Qed.

Lemma Forall2_eq_refl {A} (l : list A) : Forall2 eq l l.
Proof. induction l; constructor; auto. Qed.

(** C2. The result of [transpile] has the shape of its argument: one
    circuit for one circuit, and for a list a list of the same length whose
    entry [i] is a transpilation of entry [i] of the input. *)
Theorem transpile_mirrors_input_shape (circuits : Circuits) (w : World)
    (out : Circuits) (w' : World) :
  transpile circuits w = (Ok out, w') →
  same_shape circuits out
  ∧ length (as_list out) = length (as_list circuits)
  ∧ Forall2 (transpilation_of (pipeline w)) (as_list circuits) (as_list out).
Proof.
  intros Hrun. pose proof Hrun as Hinv.
  apply transpile_ok_inv in Hinv
    as (Hlong & dd & w1 & cs1 & w2 & cs2 & w3 & cs3 & Hdd & Hcs1 & Hcs2 & Hcs3 & Hlen & Hout).
  set (self := pipeline w) in *.
  assert (Hlist : as_list out = cs3).
  { destruct circuits; [destruct Hout as (c & -> & ->)|subst out]; reflexivity. }
  split; [|split].
  - destruct circuits; [destruct Hout as (c & -> & ->)|subst out]; simpl; auto.
  - rewrite Hlist. exact Hlen.
  - rewrite Hlist.
    apply M_map_returns in Hcs1.
    assert (H2 : Forall2 (λ a b,
              if TranspilerSabreMapomaticDD._apply_mapomatic self
              then returns (select_layout (TranspilerSabreMapomaticDD._backend self)
                              (TranspilerSabreMapomaticDD._cost_mapomatic self) a) b
              else b = a) cs1 cs2).
    { destruct (TranspilerSabreMapomaticDD._apply_mapomatic self).
      - destruct Hcs2 as (deflated & wd & _ & Hcs2).
        eapply M_map_returns; eassumption.
      - destruct Hcs2 as [-> _]. eapply Forall2_impl; [apply Forall2_eq_refl|].
        intros; subst; reflexivity. }
    assert (H3 : Forall2 (λ a b,
              if TranspilerSabreMapomaticDD._apply_dd self
              then ∃ pm, plan_in_use self pm ∧ returns (run_plan pm a) b
              else b = a) cs2 cs3).
    { destruct (TranspilerSabreMapomaticDD._apply_dd self) eqn:Edd.
      - destruct Hcs3 as (pm & -> & Hcs3).
        apply default_dd_passmanager_ok_inv in Hdd as (pm' & [= <-] & Hplan).
        assert (Hin : plan_in_use self pm).
        { unfold plan_in_use.
          destruct (TranspilerSabreMapomaticDD._dd_passmanager self).
          - tauto.
          - exists w, w1. exact Hplan. }
        apply M_map_returns in Hcs3.
        eapply Forall2_impl; [exact Hcs3|]. simpl. eauto.
      - destruct Hcs3 as [-> _]. eapply Forall2_impl; [apply Forall2_eq_refl|].
        intros; subst; reflexivity. }
    assert (H23 : Forall2 (λ b c, ∃ d,
              (if TranspilerSabreMapomaticDD._apply_mapomatic self
               then returns (select_layout (TranspilerSabreMapomaticDD._backend self)
                               (TranspilerSabreMapomaticDD._cost_mapomatic self) b) d
               else d = b)
              ∧ (if TranspilerSabreMapomaticDD._apply_dd self
                 then ∃ pm, plan_in_use self pm ∧ returns (run_plan pm d) c
                 else c = d)) cs1 cs3).
    { eapply Forall2_trans; [|exact H2|exact H3]. simpl. eauto. }
    eapply Forall2_trans; [|exact Hcs1|exact H23].
    intros a b c Hab (d & Hbd & Hdc). exists b, d. auto.
Qed.

End SelectionFacts.

(** ** What a call of [transpile] logs *)

Section EffectFacts.
Context `{Collaborators}.

Lemma filter_keep (P : Event → bool) l :
  Forall (λ ev, P ev = true) l → List.filter P l = l.
Proof.
  induction 1 as [|ev l Hev _ IH]; simpl; [reflexivity|].
  rewrite Hev, IH. reflexivity.
Qed.

Lemma filter_drop (P : Event → bool) l :
  Forall (λ ev, P ev = false) l → List.filter P l = [].
Proof.
  induction 1 as [|ev l Hev _ IH]; simpl; [reflexivity|].
  rewrite Hev, IH. reflexivity.
Qed.

(** Every logged call has exactly one kind. *)
Lemma event_kinds ev :
  match is_plan_build ev, is_seed_run ev, is_relayout ev, is_plan_run ev with
  | true, false, false, false
  | false, true, false, false
  | false, false, true, false
  | false, false, false, true => True
  | _, _, _, _ => False
  end.
Proof. destruct ev as [| ? ? ? ? [?|] | | | |]; exact I. Qed.

Lemma Forall_kind (P Q : Event → bool) l :
  (∀ ev, P ev = true → Q ev = false) →
  Forall (λ ev, P ev = true) l → Forall (λ ev, Q ev = false) l.
Proof. intros HPQ Hl. eapply Forall_impl; eauto. Qed.

Ltac kinds :=
  let ev := fresh "ev" in
  intros ev; pose proof (event_kinds ev);
  destruct (is_plan_build ev), (is_seed_run ev), (is_relayout ev), (is_plan_run ev);
  intros; try reflexivity; try contradiction; try discriminate.

Lemma plan_build_not_seed_run ev : is_plan_build ev = true → is_seed_run ev = false.
Proof. revert ev. kinds. Qed.
Lemma plan_build_not_relayout ev : is_plan_build ev = true → is_relayout ev = false.
Proof. revert ev. kinds. Qed.
Lemma plan_build_not_plan_run ev : is_plan_build ev = true → is_plan_run ev = false.
Proof. revert ev. kinds. Qed.
Lemma seed_run_not_plan_build ev : is_seed_run ev = true → is_plan_build ev = false.
Proof. revert ev. kinds. Qed.
Lemma seed_run_not_plan_run ev : is_seed_run ev = true → is_plan_run ev = false.
Proof. revert ev. kinds. Qed.
Lemma relayout_not_plan_build ev : is_relayout ev = true → is_plan_build ev = false.
Proof. revert ev. kinds. Qed.
Lemma relayout_not_seed_run ev : is_relayout ev = true → is_seed_run ev = false.
Proof. revert ev. kinds. Qed.
Lemma relayout_not_plan_run ev : is_relayout ev = true → is_plan_run ev = false.
Proof. revert ev. kinds. Qed.
Lemma plan_run_not_plan_build ev : is_plan_run ev = true → is_plan_build ev = false.
Proof. revert ev. kinds. Qed.
Lemma plan_run_not_seed_run ev : is_plan_run ev = true → is_seed_run ev = false.
Proof. revert ev. kinds. Qed.

(** A call logs its event whatever its outcome. *)
Lemma call_log {A} ev (f : External → Result A * External) w :
  extends w (call ev f w).2 [ev].
Proof. unfold call. destruct (f (outside w)). split; reflexivity. Qed.

Lemma M_map_call_ok_log {X A} (ev : X → Event) (f : X → External → Result A * External)
    l w ys w' :
  M_map (λ x, call (ev x) (f x)) l w = (Ok ys, w') → extends w w' (ev <$> l).
Proof.
  revert w ys. induction l as [|x l IH]; intros w ys; simpl.
  - intros [= _ <-]. apply extends_refl.
  - intros Hrun. apply bind_ok_inv in Hrun as (y & w1 & Hcall & Hrun).
    apply bind_ok_inv in Hrun as (ys' & w2 & Hrest & Hret).
    injection Hret as _ <-.
    pose proof (call_log (ev x) (f x) w) as Hlog. rewrite Hcall in Hlog.
    apply (extends_trans _ _ _ [ev x] (ev <$> l) Hlog). eauto.
Qed.

(** The batch call on [[circ]*K] logs one run per seed among the first [K]. *)
Lemma compiler_transpile_ok_log circ K backend level seeds w trans_qc w' :
  compiler_transpile (list_repeat circ K) backend level seeds w = (Ok trans_qc, w') →
  extends w w' ((λ seed, EvTranspile circ backend (Some level) seed None)
                  <$> take (Z.to_nat K) seeds).
Proof.
  unfold compiler_transpile, list_repeat. intros Hrun.
  apply (M_map_call_ok_log
           (λ cs : Circuit * option Z, EvTranspile cs.1 backend (Some level) cs.2 None)
           (λ cs : Circuit * option Z,
              compiler_transpile_run cs.1 backend (Some level) cs.2 None)) in Hrun.
  rewrite zip_replicate_take, <- list_fmap_compose in Hrun. exact Hrun.
Qed.

Lemma select_best_ok_log self circ w best w' :
  select_best (TranspilerSabreMapomaticDD._backend self)
    (TranspilerSabreMapomaticDD._optimization_level self)
    (TranspilerSabreMapomaticDD._num_transpilations self)
    (seeds_in_use self) (cost_in_use self) circ w = (Ok best, w') →
  extends w w' (seed_runs self [circ]).
Proof.
  intros Hrun. apply select_best_ok_inv in Hrun as (trans_qc & ? & ? & Hbatch & _).
  apply compiler_transpile_ok_log in Hbatch.
  unfold seed_runs. simpl. rewrite app_nil_r. exact Hbatch.
Qed.

Lemma seed_runs_cons self circ circuits_ :
  seed_runs self (circ :: circuits_) = seed_runs self [circ] ++ seed_runs self circuits_.
Proof. unfold seed_runs. simpl. rewrite app_nil_r. reflexivity. Qed.

Lemma selection_ok_log self circuits_ w cs1 w' :
  M_map (select_best (TranspilerSabreMapomaticDD._backend self)
           (TranspilerSabreMapomaticDD._optimization_level self)
           (TranspilerSabreMapomaticDD._num_transpilations self)
           (seeds_in_use self) (cost_in_use self)) circuits_ w = (Ok cs1, w') →
  extends w w' (seed_runs self circuits_).
Proof.
  revert w cs1. induction circuits_ as [|circ l IH]; intros w cs1 Hrun; simpl in Hrun.
  - injection Hrun as _ <-. apply extends_refl.
  - apply bind_ok_inv in Hrun as (y & w1 & Hx & Hrun).
    apply bind_ok_inv in Hrun as (ys' & w2 & Hrest & Hret).
    injection Hret as _ <-. rewrite seed_runs_cons.
    eapply extends_trans; [eapply select_best_ok_log|]; eauto.
Qed.

Lemma seed_runs_are_seed_runs self circuits_ :
  Forall (λ ev, is_seed_run ev = true) (seed_runs self circuits_).
Proof.
  induction circuits_ as [|circ l IH]; [constructor|].
  rewrite seed_runs_cons. apply Forall_app. split; [|exact IH].
  unfold seed_runs. simpl. rewrite app_nil_r.
  apply Forall_fmap, Forall_true. reflexivity.
Qed.

Lemma relayout_emits backend cost_mapomatic cs1 :
  only_emits (λ ev, is_relayout ev = true)
             (M_map (select_layout backend cost_mapomatic) cs1).
Proof.
  apply only_emits_M_map. intros qc.
  unfold select_layout, deflate, compiler_transpile_layout.
  repeat first [ apply only_emits_lift | apply only_emits_call; [reflexivity]
               | apply only_emits_bind; [|intros] ].
Qed.

Lemma deflate_emits cs1 :
  only_emits (λ ev, is_relayout ev = true) (M_map deflate cs1).
Proof.
  apply only_emits_M_map. intros qc. apply only_emits_call. reflexivity.
Qed.

Lemma only_emits_at {A} P (m : M A) w r w' :
  only_emits P m → m w = (r, w') → ∃ new, extends w w' new ∧ Forall P new.
Proof. intros Hm Hrun. specialize (Hm w). rewrite Hrun in Hm. exact Hm. Qed.

Lemma plan_runs_ok_log pm cs2 w cs3 w' :
  M_map (run_plan pm) cs2 w = (Ok cs3, w') → extends w w' (EvRun pm <$> cs2).
Proof. apply M_map_call_ok_log. Qed.

Lemma get_pass_manager_log self w :
  extends w (get_pass_manager self w).2 [EvFromBackend (PassManager_DD_ALAP_XX._backend self)].
Proof.
  rewrite get_pass_manager_run.
  destruct (InstructionDurations_from_backend _ _).1; [|split; reflexivity].
  destruct (pulse_alignment_of _); split; reflexivity.
Qed.

Lemma call_ok_inv {A} ev (f : External → Result A * External) w a w' :
  call ev f w = (Ok a, w') →
  ∃ o, f (outside w) = (Ok a, o) ∧ outside w' = o.
Proof.
  unfold call. destruct (f (outside w)) as [r o] eqn:E.
  intros [= -> <-]. exists o. split; reflexivity.
Qed.

Lemma select_layout_ok_inv self qc w new_qc w' :
  select_layout (TranspilerSabreMapomaticDD._backend self)
    (TranspilerSabreMapomaticDD._cost_mapomatic self) qc w = (Ok new_qc, w') →
  relaid_from self qc new_qc.
Proof.
  unfold select_layout, deflate, compiler_transpile_layout. intros Hrun.
  apply bind_ok_inv in Hrun as (small & w1 & H1 & Hrun).
  apply bind_ok_inv in Hrun as (layouts & w2 & H2 & Hrun).
  apply bind_ok_inv in Hrun as (scores & w3 & H3 & Hrun).
  apply bind_ok_inv in Hrun as (first & w4 & H4 & Hrun).
  unfold lift in H4. injection H4 as H4 <-.
  unfold list_getitem in H4. destruct scores as [|[best score] rest]; [discriminate|].
  simpl in H4. injection H4 as <-. simpl in Hrun.
  apply call_ok_inv in H1 as (o1 & H1 & E1).
  apply call_ok_inv in H2 as (o2 & H2 & E2).
  apply call_ok_inv in H3 as (o3 & H3 & E3).
  apply call_ok_inv in Hrun as (o4 & H4 & E4).
  rewrite E1 in H2. rewrite E2 in H3. rewrite E3 in H4.
  exists (outside w), small, o1, layouts, o2, best, score, rest, o3, o4.
  auto.
Qed.

Lemma run_plan_ok_inv pm qc w new_qc w' :
  run_plan pm qc w = (Ok new_qc, w') → plan_applied pm qc new_qc.
Proof.
  unfold run_plan. intros Hrun. apply call_ok_inv in Hrun as (o & Hrun & _).
  exists (outside w), o. exact Hrun.
Qed.

Lemma Forall2_compose {A B C} (R : A → B → Prop) (S : B → C → Prop) l1 l2 l3 :
  Forall2 R l1 l2 → Forall2 S l2 l3 →
  Forall2 (λ a c, ∃ b, R a b ∧ S b c) l1 l3.
Proof.
  intros H12. revert l3. induction H12 as [|a b l1 l2 Hab _ IH]; intros l3 H23.
  - inversion H23. constructor.
  - inversion H23 as [|b' c l2' l3' Hbc Hrest]; subst.
    constructor; [exists b; auto|apply IH; exact Hrest].
Qed.

(** The log of a successful [transpile], stage by stage: the plan build if
    any, the seeded runs, the re-layout calls, the plan runs. *)
Lemma transpile_ok_log circuits w out w' :
  transpile circuits w = (Ok out, w') →
  let self := pipeline w in
  ∃ built relayout relaid dd,
    extends w w' (built ++ seed_runs self (as_list circuits) ++ relayout
                  ++ (if TranspilerSabreMapomaticDD._apply_dd self
                      then match dd with
                           | Some pm => EvRun pm <$> relaid
                           | None => []
                           end
                      else []))
    ∧ (∃ w1, default_dd_passmanager self (TranspilerSabreMapomaticDD._apply_dd self)
               (TranspilerSabreMapomaticDD._dd_passmanager self) w = (Ok dd, w1)
             ∧ extends w w1 built)
    ∧ Forall (λ ev, is_plan_build ev = true) built
    ∧ Forall (λ ev, is_relayout ev = true) relayout
    ∧ (TranspilerSabreMapomaticDD._apply_mapomatic self = false → relayout = [])
    ∧ length relaid = length (as_list circuits)
    ∧ Forall2 (working_form self) (as_list circuits) relaid
    ∧ (TranspilerSabreMapomaticDD._apply_dd self = true →
       ∃ pm, dd = Some pm ∧ Forall2 (plan_applied pm) relaid (as_list out)).
Proof.
  intros Hrun self.
  apply transpile_ok_inv in Hrun
    as (Hlong & dd & w1 & cs1 & w2 & cs2 & w3 & cs3 & Hdd & Hcs1 & Hcs2 & Hcs3 & Hlen & Hout).
  fold self in Hlong, Hdd, Hcs1, Hcs2, Hcs3.
  assert (Hforms : Forall2 (working_form self) (as_list circuits) cs2).
  { assert (Hsel : Forall2 (selected_for self) (as_list circuits) cs1).
    { eapply M_map_Forall2_worlds; [|exact Hcs1].
      intros x w0 y w1' Hx. eapply selected_for_intro; eassumption. }
    unfold working_form.
    destruct (TranspilerSabreMapomaticDD._apply_mapomatic self).
    - destruct Hcs2 as (deflated & wd & _ & Hcs2).
      eapply Forall2_compose; [exact Hsel|].
      eapply M_map_Forall2_worlds; [|exact Hcs2].
      intros x w0 y w1' Hx. eapply select_layout_ok_inv; eassumption.
    - destruct Hcs2 as [-> _].
      eapply Forall2_impl; [exact Hsel|]. intros a b Hab. exists b. auto. }
  assert (Hruns : TranspilerSabreMapomaticDD._apply_dd self = true →
            ∃ pm, dd = Some pm ∧ Forall2 (plan_applied pm) cs2 (as_list out)).
  { intros Hon. rewrite Hon in Hcs3. destruct Hcs3 as (pm & -> & Hcs3).
    exists pm. split; [reflexivity|].
    assert (as_list out = cs3) as ->
      by (destruct circuits; [destruct Hout as (c & -> & ->)|subst out]; reflexivity).
    eapply M_map_Forall2_worlds; [|exact Hcs3].
    intros x w0 y w1' Hx. eapply run_plan_ok_inv; eassumption. }
  destruct (only_emits_at _ _ _ _ _ (default_dd_passmanager_emits _ _ _) Hdd)
    as (built & Hbuilt & Hkind0).
  pose proof (selection_ok_log _ _ _ _ _ Hcs1) as Hlog1.
  assert (Hlog2 : ∃ relayout, extends w2 w3 relayout
            ∧ Forall (λ ev, is_relayout ev = true) relayout
            ∧ (TranspilerSabreMapomaticDD._apply_mapomatic self = false → relayout = [])
            ∧ length cs2 = length cs1).
  { destruct (TranspilerSabreMapomaticDD._apply_mapomatic self).
    - destruct Hcs2 as (deflated & wd & Hdefl & Hcs2).
      destruct (only_emits_at _ _ _ _ _ (deflate_emits _) Hdefl) as (n1 & He1 & Hk1).
      destruct (only_emits_at _ _ _ _ _ (relayout_emits _ _ _) Hcs2) as (n2 & He2 & Hk2).
      exists (n1 ++ n2). split; [eapply extends_trans; eassumption|].
      split; [apply Forall_app; auto|].
      split; [discriminate|]. eapply M_map_length; eassumption.
    - destruct Hcs2 as [-> ->]. exists []. split; [apply extends_refl|]. auto. }
  destruct Hlog2 as (relayout & Hlog2 & Hkind2 & Hoff & Hlen2).
  exists built, relayout, cs2, dd.
  split; [|split; [eauto|]].
  - eapply extends_trans; [exact Hbuilt|].
    eapply extends_trans; [exact Hlog1|].
    eapply extends_trans; [exact Hlog2|].
    destruct (TranspilerSabreMapomaticDD._apply_dd self).
    + destruct Hcs3 as (pm & -> & Hcs3). eapply plan_runs_ok_log; eassumption.
    + destruct Hcs3 as [_ ->]. apply extends_refl.
  - split; [assumption|]. split; [assumption|]. split; [assumption|].
    split; [apply M_map_length in Hcs1; congruence|]. split; assumption.
Qed.

End EffectFacts.

(** ** Seeds, the precondition, and the plan *)

Section SeedAndPlanFacts.
Context `{Collaborators}.

(** C3. With seeds given but fewer than [num_transpilations], [transpile]
    raises the assertion error and leaves the world exactly as it found
    it: nothing was logged, so no collaborator (no vendor run in
    particular) was called, and the pipeline object is the same. *)
Theorem transpile_short_seeds_fail_fast (circuits : Circuits) (w : World)
    (seeds : list (option Z)) :
  TranspilerSabreMapomaticDD._seed_transpiler (pipeline w) = Some seeds →
  len seeds < TranspilerSabreMapomaticDD._num_transpilations (pipeline w) →
  transpile circuits w = (Raise AssertionError, w).
Proof.
  intros Hseeds Hshort. unfold transpile, bind, get_self.
  unfold default_seed_transpiler. rewrite Hseeds. unfold bind, py_assert.
  apply Z.leb_gt in Hshort. rewrite Hshort. reflexivity.
Qed.

Lemma seeds_in_use_enough self :
  seeds_long_enough self →
  (Z.to_nat (TranspilerSabreMapomaticDD._num_transpilations self)
   ≤ length (seeds_in_use self))%nat.
Proof.
  unfold seeds_long_enough, seeds_in_use, len, list_repeat.
  destruct (TranspilerSabreMapomaticDD._seed_transpiler self) as [seeds|].
  - lia.
  - rewrite length_replicate. lia.
Qed.

Lemma seed_runs_length self circuits_ :
  seeds_long_enough self →
  length (seed_runs self circuits_)
  = (length circuits_ * Z.to_nat (TranspilerSabreMapomaticDD._num_transpilations self))%nat.
Proof.
  intros Hlong. apply seeds_in_use_enough in Hlong.
  induction circuits_ as [|circ l IH]; [reflexivity|].
  rewrite seed_runs_cons, length_app, IH. simpl. f_equal.
  unfold seed_runs. simpl. rewrite app_nil_r, length_fmap, length_take. lia.
Qed.

(** Run [i] for the circuit at position [n] is logged at position
    [n * K + i] and carries entry [i] of the seeds. *)
Lemma seed_runs_lookup self circuits_ n i circ seed :
  seeds_long_enough self →
  circuits_ !! n = Some circ →
  (i < Z.to_nat (TranspilerSabreMapomaticDD._num_transpilations self))%nat →
  seeds_in_use self !! i = Some seed →
  seed_runs self circuits_
    !! (n * Z.to_nat (TranspilerSabreMapomaticDD._num_transpilations self) + i)%nat
  = Some (EvTranspile circ (TranspilerSabreMapomaticDD._backend self)
            (Some (TranspilerSabreMapomaticDD._optimization_level self)) seed None).
Proof.
  intros Hlong Hn Hi Hseed. revert n Hn.
  induction circuits_ as [|c l IH]; intros n Hn; [discriminate|].
  rewrite seed_runs_cons.
  assert (Hblock : length (seed_runs self [c])
                   = Z.to_nat (TranspilerSabreMapomaticDD._num_transpilations self)).
  { rewrite seed_runs_length by assumption. simpl. lia. }
  destruct n as [|n]; simpl in Hn.
  - injection Hn as ->. rewrite lookup_app_l by lia. simpl.
    unfold seed_runs. simpl. rewrite app_nil_r, list_lookup_fmap.
    rewrite lookup_take_lt by lia. rewrite Hseed. reflexivity.
  - rewrite lookup_app_r by lia. rewrite Hblock.
    replace (S n * _ + i - _)%nat
      with (n * Z.to_nat (TranspilerSabreMapomaticDD._num_transpilations self) + i)%nat
      by lia.
    apply IH. exact Hn.
Qed.

(** C4. With seeds that are long enough the precondition check passes and
    hands on the seeds unchanged; a successful [transpile] then logs, as its
    seeded vendor runs, [num_transpilations] runs for every input circuit in
    order, run [i] with entry [i] of the seeds and nothing beyond the first
    [num_transpilations] entries; without seeds every entry is [None]. *)
Theorem transpile_seed_runs (circuits : Circuits) (w : World) :
  let self := pipeline w in
  let K := Z.to_nat (TranspilerSabreMapomaticDD._num_transpilations self) in
  seeds_long_enough self →
  default_seed_transpiler (TranspilerSabreMapomaticDD._seed_transpiler self)
    (TranspilerSabreMapomaticDD._num_transpilations self) w
    = (Ok (seeds_in_use self), w)
  ∧ (∀ out w', transpile circuits w = (Ok out, w') →
       ∃ new, extends w w' new
              ∧ List.filter is_seed_run new = seed_runs self (as_list circuits))
  ∧ length (seed_runs self (as_list circuits)) = (length (as_list circuits) * K)%nat
  ∧ (∀ n i circ seed,
       as_list circuits !! n = Some circ → (i < K)%nat →
       seeds_in_use self !! i = Some seed →
       seed_runs self (as_list circuits) !! (n * K + i)%nat
       = Some (EvTranspile circ (TranspilerSabreMapomaticDD._backend self)
                 (Some (TranspilerSabreMapomaticDD._optimization_level self)) seed None))
  ∧ (∀ seeds, TranspilerSabreMapomaticDD._seed_transpiler self = Some seeds →
       seeds_in_use self = seeds)
  ∧ (TranspilerSabreMapomaticDD._seed_transpiler self = None →
     ∀ i, (i < K)%nat → seeds_in_use self !! i = Some None).
Proof.
  intros self K Hlong.
  split; [apply default_seed_transpiler_ok; exact Hlong|].
  split; [|split; [apply seed_runs_length; exact Hlong|]].
  2: split; [intros; apply seed_runs_lookup; assumption|].
  2: split.
  - intros out w' Hrun.
    apply transpile_ok_log in Hrun
      as (built & relayout & relaid & dd & Hext & _ & Hk0 & Hk2 & _ & _).
    fold self in Hext, Hk0, Hk2. eexists. split; [exact Hext|].
    rewrite !List.filter_app.
    rewrite (filter_drop _ built)
      by (eapply Forall_kind; [apply plan_build_not_seed_run|exact Hk0]).
    rewrite (filter_keep _ (seed_runs _ _)) by apply seed_runs_are_seed_runs.
    rewrite (filter_drop _ relayout)
      by (eapply Forall_kind; [apply relayout_not_seed_run|exact Hk2]).
    rewrite filter_drop; [rewrite !app_nil_r; reflexivity|].
    destruct (TranspilerSabreMapomaticDD._apply_dd self); [|constructor].
    destruct dd as [pm|]; [|constructor].
    apply Forall_fmap, Forall_true. reflexivity.
  - intros seeds Hs. unfold seeds_in_use. rewrite Hs. reflexivity.
  - intros Hs i Hi. unfold seeds_in_use, list_repeat. rewrite Hs.
    apply lookup_replicate_2. exact Hi.
Qed.

(** One successful call with decoupling on and no plan given: one plan is
    built, from the pipeline's backend, and every plan run uses it. *)
Lemma transpile_plan_built_once circuits w out w' :
  let self := pipeline w in
  let backend := TranspilerSabreMapomaticDD._backend self in
  TranspilerSabreMapomaticDD._apply_dd self = true →
  TranspilerSabreMapomaticDD._dd_passmanager self = None →
  transpile circuits w = (Ok out, w') →
  ∃ pm w1 new relaid,
    get_pass_manager (PassManager_DD_ALAP_XX.__init__ backend) w = (Ok pm, w1)
    ∧ extends w w' new
    ∧ List.filter is_plan_build new = [EvFromBackend backend]
    ∧ List.filter is_plan_run new = EvRun pm <$> relaid
    ∧ length relaid = length (as_list circuits)
    ∧ Forall2 (working_form self) (as_list circuits) relaid
    ∧ Forall2 (plan_applied pm) relaid (as_list out).
Proof.
  intros self backend Hdd Hnone Hrun.
  apply transpile_ok_log in Hrun
    as (built & relayout & relaid & dd & Hext & (w1 & Hplan & Hbuilt) & Hk0 & Hk2 & _
        & Hlen & Hforms & Happly).
  fold self in Hext, Hplan, Hk0, Hk2, Hforms, Happly.
  rewrite Hdd in Hext. rewrite Hdd, Hnone in Hplan.
  apply default_dd_passmanager_ok_inv in Hplan as (pm & -> & Hpm). fold backend in Hpm.
  destruct (Happly Hdd) as (pm' & [= <-] & Happlied).
  pose proof (get_pass_manager_log (PassManager_DD_ALAP_XX.__init__ backend) w) as Hlog.
  rewrite Hpm in Hlog. simpl in Hlog.
  assert (built = [EvFromBackend backend]) as ->.
  { destruct Hbuilt as [_ Hb], Hlog as [_ Hl]. rewrite Hb in Hl.
    apply app_inv_head in Hl. exact Hl. }
  exists pm, w1. eexists. exists relaid. split; [exact Hpm|]. split; [exact Hext|].
  assert (Hruns : Forall (λ ev, is_plan_run ev = true) (EvRun pm <$> relaid))
    by (apply Forall_fmap, Forall_true; reflexivity).
  split; [|split; [|auto]].
  - rewrite !List.filter_app. simpl.
    rewrite (filter_drop _ (seed_runs _ _))
      by (eapply Forall_kind; [apply seed_run_not_plan_build|apply seed_runs_are_seed_runs]).
    rewrite (filter_drop _ relayout)
      by (eapply Forall_kind; [apply relayout_not_plan_build|exact Hk2]).
    rewrite filter_drop
      by (eapply Forall_kind; [apply plan_run_not_plan_build|exact Hruns]).
    reflexivity.
  - rewrite !List.filter_app. simpl.
    rewrite (filter_drop _ (seed_runs _ _))
      by (eapply Forall_kind; [apply seed_run_not_plan_run|apply seed_runs_are_seed_runs]).
    rewrite (filter_drop _ relayout)
      by (eapply Forall_kind; [apply relayout_not_plan_run|exact Hk2]).
    rewrite filter_keep by exact Hruns. reflexivity.
Qed.

(** C7. With decoupling on and no plan given at construction, a successful
    [transpile] builds exactly one plan, from the backend the pipeline holds
    at the call, and runs that one plan on every circuit of the batch: the
    plan runs of the log are, in order, one run of the built plan on the
    working form of each input circuit (the circuit selected for it, re-laid
    when the re-layout is on), and the results of these runs are what is
    returned.  The pipeline object is unchanged, its plan field still empty,
    so the next call builds a plan again, and runs it in the same way; no
    call of [transpile], whatever its outcome, writes to the pipeline
    object. *)
Theorem transpile_rebuilds_plan_each_call (circuits : Circuits) (w : World)
    (out : Circuits) (w' : World) :
  let self := pipeline w in
  let backend := TranspilerSabreMapomaticDD._backend self in
  TranspilerSabreMapomaticDD._apply_dd self = true →
  TranspilerSabreMapomaticDD._dd_passmanager self = None →
  transpile circuits w = (Ok out, w') →
  (∃ pm w1 new relaid,
     get_pass_manager (PassManager_DD_ALAP_XX.__init__ backend) w = (Ok pm, w1)
     ∧ extends w w' new
     ∧ List.filter is_plan_build new = [EvFromBackend backend]
     ∧ List.filter is_plan_run new = EvRun pm <$> relaid
     ∧ length relaid = length (as_list circuits)
     ∧ Forall2 (working_form self) (as_list circuits) relaid
     ∧ Forall2 (plan_applied pm) relaid (as_list out))
  ∧ pipeline w' = self
  ∧ TranspilerSabreMapomaticDD._dd_passmanager (pipeline w') = None
  ∧ (∀ circuits2 out2 w'',
       transpile circuits2 w' = (Ok out2, w'') →
       ∃ pm2 w1' new2 relaid2,
         get_pass_manager (PassManager_DD_ALAP_XX.__init__ backend) w' = (Ok pm2, w1')
         ∧ extends w' w'' new2
         ∧ List.filter is_plan_build new2 = [EvFromBackend backend]
         ∧ List.filter is_plan_run new2 = EvRun pm2 <$> relaid2
         ∧ length relaid2 = length (as_list circuits2)
         ∧ Forall2 (working_form self) (as_list circuits2) relaid2
         ∧ Forall2 (plan_applied pm2) relaid2 (as_list out2))
  ∧ (∀ circuits0 w0, pipeline (transpile circuits0 w0).2 = pipeline w0).
Proof.
  intros self backend Hdd Hnone Hrun.
  pose proof (transpile_plan_built_once _ _ _ _ Hdd Hnone Hrun) as Hfirst.
  assert (Hsame : pipeline w' = self).
  { destruct Hfirst as (? & ? & ? & ? & _ & [Hp _] & _). exact Hp. }
  split; [exact Hfirst|]. split; [exact Hsame|].
  split; [rewrite Hsame; exact Hnone|].
  split; [|apply transpile_keeps_pipeline].
  intros circuits2 out2 w'' Hrun2.
  apply transpile_plan_built_once in Hrun2; rewrite Hsame in *; assumption.
Qed.

(** [transpile] on the empty list, whatever the pipeline. *)
Lemma transpile_empty_run w :
  let self := pipeline w in
  transpile (Many []) w =
    match default_seed_transpiler (TranspilerSabreMapomaticDD._seed_transpiler self)
            (TranspilerSabreMapomaticDD._num_transpilations self) w with
    | (Raise e, w0) => (Raise e, w0)
    | (Ok _, w0) =>
        match default_dd_passmanager self (TranspilerSabreMapomaticDD._apply_dd self)
                (TranspilerSabreMapomaticDD._dd_passmanager self) w0 with
        | (Raise e, w1) => (Raise e, w1)
        | (Ok _, w1) => (Ok (Many []), w1)
        end
    end.
Proof.
  intros self. unfold transpile, bind, get_self. fold self.
  destruct (default_seed_transpiler _ _ w) as [[seeds|e] w0]; [|reflexivity].
  destruct (default_dd_passmanager _ _ _ w0) as [[dd|e] w1]; [|reflexivity].
  unfold transpile_for_backend, deflate_all, select_layouts, apply_dd_all, for_range.
  simpl. unfold ret.
  destruct (TranspilerSabreMapomaticDD._apply_mapomatic self),
           (TranspilerSabreMapomaticDD._apply_dd self); reflexivity.
Qed.

(** C10. On the empty list [transpile] can only return the empty list,
    and does return it as soon as the seed precondition holds and the plan,
    when one has to be built, can be built; whatever the outcome it logs no
    vendor run, no re-layout call and no plan run; when decoupling is on and
    no plan was given, it still logs the one plan build from the backend. *)
Theorem transpile_empty_list (w : World) :
  let self := pipeline w in
  let backend := TranspilerSabreMapomaticDD._backend self in
  let builds := TranspilerSabreMapomaticDD._apply_dd self
                && is_None (TranspilerSabreMapomaticDD._dd_passmanager self) in
  (∀ out w', transpile (Many []) w = (Ok out, w') → out = Many [])
  ∧ (seeds_long_enough self →
     (builds = true →
      is_ok (get_pass_manager (PassManager_DD_ALAP_XX.__init__ backend) w).1 = true) →
     (transpile (Many []) w).1 = Ok (Many []))
  ∧ (∃ new, extends w (transpile (Many []) w).2 new
            ∧ Forall (λ ev, is_seed_run ev = false ∧ is_relayout ev = false
                            ∧ is_plan_run ev = false) new)
  ∧ (seeds_long_enough self → builds = true →
     extends w (transpile (Many []) w).2 [EvFromBackend backend])
  ∧ (builds = false → (transpile (Many []) w).2 = w).
Proof.
  intros self backend builds. rewrite transpile_empty_run. fold self.
  pose proof (default_seed_transpiler_pure
                (TranspilerSabreMapomaticDD._seed_transpiler self)
                (TranspilerSabreMapomaticDD._num_transpilations self) w) as Hpure.
  split; [|split; [|split; [|split]]].
  - intros out w'.
    destruct (default_seed_transpiler _ _ w) as [[seeds|e] w0]; [|discriminate].
    destruct (default_dd_passmanager _ _ _ w0) as [[dd|e] w1]; [|discriminate].
    intros [= <- _]. reflexivity.
  - intros Hlong Hplan. rewrite default_seed_transpiler_ok by exact Hlong.
    unfold default_dd_passmanager. fold builds backend.
    destruct builds; [|reflexivity].
    specialize (Hplan eq_refl). unfold bind.
    destruct (get_pass_manager _ w) as [[pm|e] w1]; [reflexivity|discriminate].
  - destruct (default_seed_transpiler _ _ w) as [[seeds|e] w0]; simpl in Hpure; subst w0.
    2:{ exists []. split; [apply extends_refl|constructor]. }
    destruct (default_dd_passmanager_emits self
                (TranspilerSabreMapomaticDD._apply_dd self)
                (TranspilerSabreMapomaticDD._dd_passmanager self) w)
      as (new & Hext & Hkind).
    exists new. split.
    + destruct (default_dd_passmanager _ _ _ w) as [[dd|e] w1]; exact Hext.
    + eapply Forall_impl; [exact Hkind|]. intros ev Hev. simpl in Hev.
      auto using plan_build_not_seed_run, plan_build_not_relayout,
                 plan_build_not_plan_run.
  - intros Hlong Hbuilds. rewrite default_seed_transpiler_ok by exact Hlong.
    unfold default_dd_passmanager. fold builds backend. rewrite Hbuilds.
    pose proof (get_pass_manager_log (PassManager_DD_ALAP_XX.__init__ backend) w) as Hlog.
    unfold bind. destruct (get_pass_manager _ w) as [[pm|e] w1]; exact Hlog.
  - intros Hbuilds.
    destruct (default_seed_transpiler _ _ w) as [[seeds|e] w0]; simpl in Hpure; subst w0;
      [|reflexivity].
    unfold default_dd_passmanager. fold builds. rewrite Hbuilds. reflexivity.
Qed.

End SeedAndPlanFacts.

(** ** The loop that fills [deflated] *)

Section DeflationFacts.
Context `{Collaborators}.

Lemma same_outside_refl w : same_outside w w.
Proof. split; reflexivity. Qed.

Lemma same_outside_trans w1 w2 w3 :
  same_outside w1 w2 → same_outside w2 w3 → same_outside w1 w3.
Proof. intros [? ?] [? ?]. split; congruence. Qed.

Lemma log_blind_ret {A} (a : A) : log_blind (ret a).
Proof. intros w1 w2 Hw. split; [reflexivity|exact Hw]. Qed.

Lemma log_blind_raise {A} e : log_blind (raise (A:=A) e).
Proof. intros w1 w2 Hw. split; [reflexivity|exact Hw]. Qed.

Lemma log_blind_lift {A} (r : Result A) : log_blind (lift r).
Proof. intros w1 w2 Hw. split; [reflexivity|exact Hw]. Qed.

Lemma log_blind_call {A} ev (f : External → Result A * External) : log_blind (call ev f).
Proof.
  intros w1 w2 [Hp Ho]. unfold call. rewrite Ho.
  destruct (f (outside w2)) as [r o]. simpl. split; [reflexivity|].
  split; simpl; [exact Hp|reflexivity].
Qed.

Lemma log_blind_bind {A B} (m : M A) (k : A → M B) :
  log_blind m → (∀ a, log_blind (k a)) → log_blind (bind m k).
Proof.
  intros Hm Hk w1 w2 Hw. destruct (Hm w1 w2 Hw) as [Hr Hw']. unfold bind.
  destruct (m w1) as [r1 w1'], (m w2) as [r2 w2']. simpl in *. subst r2.
  destruct r1 as [a|e]; [apply Hk; exact Hw'|]. split; [reflexivity|exact Hw'].
Qed.

Lemma log_blind_for_each {I S} (body : I → S → M S) idx :
  (∀ i s, log_blind (body i s)) → ∀ s, log_blind (for_each idx body s).
Proof.
  intros Hbody. induction idx as [|i idx IH]; intros s; simpl.
  - apply log_blind_ret.
  - apply log_blind_bind; auto.
Qed.

Ltac blind :=
  repeat first
    [ apply log_blind_ret | apply log_blind_raise | apply log_blind_lift
    | apply log_blind_call
    | apply log_blind_for_each; intros
    | apply log_blind_bind; [|intros] ].

Lemma select_layouts_blind n trans_circs backend cost_mapomatic :
  log_blind (select_layouts n trans_circs backend cost_mapomatic).
Proof. unfold select_layouts, for_range, compiler_transpile_layout. blind. Qed.

Lemma apply_dd_all_blind n trans_circs dd :
  log_blind (apply_dd_all n trans_circs dd).
Proof.
  unfold apply_dd_all, for_range. apply log_blind_for_each. intros i s.
  destruct dd; blind.
Qed.

Lemma same_outcome_refl {A} (x : Result A * World) : same_outcome x x.
Proof. split; [reflexivity|apply same_outside_refl]. Qed.

Lemma same_outcome_return {A} (x y : Result A * World) :
  same_outcome x y → same_return x y.
Proof. intros [Hr Hw]. split; [intros out; rewrite Hr; tauto|auto]. Qed.

(** Two computations with the same first step agree when their
    continuations do. *)
Lemma bind_same_head {A B} (R : Result B * World → Result B * World → Prop)
    (m : M A) (k1 k2 : A → M B) w :
  (∀ e w1, R (Raise e, w1) (Raise e, w1)) →
  (∀ a w1, m w = (Ok a, w1) → R (k1 a w1) (k2 a w1)) →
  R (bind m k1 w) (bind m k2 w).
Proof.
  intros Hraise Hk. unfold bind. destruct (m w) as [[a|e] w1]; auto.
Qed.

(** With a pure [deflate_circuit], the loop that fills [deflated] changes
    the log only, and fails exactly when some circuit cannot be deflated. *)
Lemma deflate_all_pure (d : Circuit → Result Circuit) trans_circs w r w' :
  (∀ qc o, deflate_circuit qc o = (d qc, o)) →
  deflate_all trans_circs w = (r, w') →
  same_outside w' w
  ∧ (is_ok r = false → ∃ qc, qc ∈ trans_circs ∧ is_ok (d qc) = false).
Proof.
  intros Hd. rewrite deflate_all_map. revert w r w'.
  induction trans_circs as [|qc l IH]; intros w r w' Hrun; simpl in Hrun.
  - injection Hrun as <- <-. split; [apply same_outside_refl|discriminate].
  - unfold bind, deflate at 1, call in Hrun. rewrite Hd in Hrun.
    set (w1 := {| pipeline := pipeline w; outside := outside w;
                  calls := calls w ++ [EvDeflate qc] |}) in Hrun.
    assert (Hw1 : same_outside w1 w) by (split; reflexivity).
    destruct (d qc) as [small|e] eqn:Eqc.
    + destruct (M_map deflate l w1) as [[ys|e] w2] eqn:El;
        apply IH in El as [Hw Hfail]; injection Hrun as <- <-.
      * split; [eapply same_outside_trans; eassumption|discriminate].
      * split; [eapply same_outside_trans; eassumption|].
        intros _. destruct (Hfail eq_refl) as (qc' & Hin & Hqc').
        exists qc'. split; [right; exact Hin|exact Hqc'].
    + injection Hrun as <- <-. split; [exact Hw1|]. intros _.
      exists qc. split; [left|]. rewrite Eqc. reflexivity.
Qed.

(** The layout loop fails when one of its circuits cannot be deflated. *)
Lemma select_layouts_needs_deflation (d : Circuit → Result Circuit)
    backend cost_mapomatic trans_circs qc w :
  (∀ qc o, deflate_circuit qc o = (d qc, o)) →
  qc ∈ trans_circs → is_ok (d qc) = false →
  is_ok (M_map (select_layout backend cost_mapomatic) trans_circs w).1 = false.
Proof.
  intros Hd Hin Hqc. revert w.
  induction trans_circs as [|c l IH]; intros w; [inversion Hin|]. simpl.
  unfold bind at 1.
  destruct (select_layout backend cost_mapomatic c w) as [[y|e] w1] eqn:Ec;
    [|reflexivity].
  apply elem_of_cons in Hin as [<-|Hin].
  - exfalso. unfold select_layout, bind, deflate, call in Ec.
    rewrite Hd in Ec. destruct (d qc); discriminate.
  - specialize (IH Hin w1). unfold bind.
    destruct (M_map _ l w1) as [[ys|e] w2]; [discriminate|reflexivity].
Qed.

(** C9. Deflation being a function of the circuit alone, [transpile] and
    [transpile] with the loop that fills [deflated] taken out return the
    same circuits: either one returns [out] exactly when the other does,
    leaving the same outside world and pipeline; and when deflation cannot
    raise, they agree on exceptions too.  The re-layout loop deflates each
    working circuit itself and never reads [deflated]. *)
Theorem transpile_deflated_loop_redundant (circuits : Circuits) (w : World) :
  deflate_is_pure →
  same_return (transpile circuits w) (transpile_without_deflated circuits w)
  ∧ (deflate_is_total →
     same_outcome (transpile circuits w) (transpile_without_deflated circuits w)).
Proof.
  intros [d Hd].
  set (R := λ x y : Result Circuits * World,
              same_return x y ∧ (deflate_is_total → same_outcome x y)).
  assert (Hrefl : ∀ x, R x x).
  { intros x. split; [apply same_outcome_return|intros _]; apply same_outcome_refl. }
  change (R (transpile circuits w) (transpile_without_deflated circuits w)).
  unfold transpile, transpile_without_deflated.
  apply bind_same_head; [intros; apply Hrefl|]. intros self w0 _. cbv zeta.
  apply bind_same_head; [intros; apply Hrefl|]. intros seeds w1 _.
  apply bind_same_head; [intros; apply Hrefl|]. intros dd w2 _.
  apply bind_same_head; [intros; apply Hrefl|]. intros cs1 w3 Hcs1.
  rewrite transpile_for_backend_map in Hcs1. apply M_map_length in Hcs1.
  destruct (TranspilerSabreMapomaticDD._apply_mapomatic self); [|apply Hrefl].
  rewrite <- Hcs1.
  match goal with
  | |- R (bind _ ?k _) _ => set (tail := k)
  end.
  assert (Hblind : log_blind
            (bind (select_layouts (length cs1) cs1
                     (TranspilerSabreMapomaticDD._backend self)
                     (TranspilerSabreMapomaticDD._cost_mapomatic self)) tail)).
  { apply log_blind_bind; [apply select_layouts_blind|]. intros cs2. unfold tail.
    apply log_blind_bind.
    - destruct (TranspilerSabreMapomaticDD._apply_dd self);
        [apply apply_dd_all_blind|apply log_blind_ret].
    - intros cs3. destruct circuits; blind. }
  unfold bind at 1 2.
  destruct (deflate_all cs1 w3) as [[deflated|e] wd] eqn:Edefl;
    destruct (deflate_all_pure d cs1 w3 _ _ Hd Edefl) as [Hsame Hfail].
  - destruct (Hblind wd w3 Hsame) as [Hres Hw].
    assert (Hall : same_outcome
              (bind (select_layouts (length cs1) cs1
                       (TranspilerSabreMapomaticDD._backend self)
                       (TranspilerSabreMapomaticDD._cost_mapomatic self)) tail wd)
              (bind (select_layouts (length cs1) cs1
                       (TranspilerSabreMapomaticDD._backend self)
                       (TranspilerSabreMapomaticDD._cost_mapomatic self)) tail w3))
      by (split; assumption).
    split; [apply same_outcome_return|intros _]; exact Hall.
  - destruct (Hfail eq_refl) as (qc & Hin & Hqc).
    pose proof (select_layouts_needs_deflation d
                  (TranspilerSabreMapomaticDD._backend self)
                  (TranspilerSabreMapomaticDD._cost_mapomatic self) cs1 qc w3 Hd Hin Hqc)
      as Hlay.
    rewrite <- select_layouts_map in Hlay.
    split.
    + split.
      * intros out. simpl. unfold bind.
        destruct (select_layouts _ _ _ _ w3) as [[cs2|e2] w4]; [discriminate|].
        simpl. split; discriminate.
      * simpl. discriminate.
    + intros Htotal. exfalso. specialize (Htotal qc (outside w3)).
      rewrite Hd in Htotal. simpl in Htotal. congruence.
Qed.

End DeflationFacts.

(** ** When [transpile] returns, and how it fails at the edges *)

Section TotalityFacts.
Context `{Collaborators}.

Lemma bind_run_ok {A B} (m : M A) (k : A → M B) w a w' :
  m w = (Ok a, w') → bind m k w = k a w'.
Proof. unfold bind. intros ->. reflexivity. Qed.

Lemma bind_run_raise {A B} (m : M A) (k : A → M B) w e w' :
  m w = (Raise e, w') → bind m k w = (Raise e, w').
Proof. unfold bind. intros ->. reflexivity. Qed.

Lemma call_succeeds {A} ev (f : External → Result A * External) w :
  is_ok (f (outside w)).1 = true → ∃ a w', call ev f w = (Ok a, w').
Proof.
  unfold call. destruct (f (outside w)) as [[a|e] o]; simpl; [eauto|discriminate].
Qed.

Lemma M_map_succeeds {A B} (f : A → M B) l :
  (∀ x w, x ∈ l → ∃ y w', f x w = (Ok y, w')) →
  ∀ w, ∃ ys w', M_map f l w = (Ok ys, w').
Proof.
  induction l as [|x l IH]; intros Hf w; simpl.
  - eexists _, _. reflexivity.
  - destruct (Hf x w) as (y & w1 & Hx); [left|].
    destruct (IH (λ x' w' Hin, Hf x' w' (list_elem_of_further _ _ _ Hin)) w1)
      as (ys & w2 & Hl).
    exists (y :: ys), w2. unfold bind. rewrite Hx, Hl. reflexivity.
Qed.

Lemma rmap_succeeds {A B} (f : A → Result B) l :
  (∀ x, is_ok (f x) = true) → ∃ ys, rmap f l = Ok ys.
Proof.
  intros Hf. induction l as [|x l [ys IH]]; simpl; [eauto|].
  specialize (Hf x). destruct (f x) as [y|e]; [|discriminate].
  simpl. rewrite IH. simpl. eauto.
Qed.

Lemma compiler_transpile_succeeds circuits backend level seeds w :
  vendor_succeeds →
  ∃ trans_qc w', compiler_transpile circuits backend level seeds w = (Ok trans_qc, w').
Proof.
  intros Hvendor. unfold compiler_transpile. apply M_map_succeeds.
  intros cs w0 _. apply call_succeeds. apply Hvendor.
Qed.

Lemma cost_in_use_succeeds self circuit :
  cost_succeeds self → is_ok (cost_in_use self circuit) = true.
Proof.
  unfold cost_succeeds, cost_in_use. intros Hcost.
  destruct (TranspilerSabreMapomaticDD._cost_transpile self) as [f|]; [eauto|].
  unfold transpile_cost_depthcnot_default.
  rewrite transpile_cost_depthcnot_value. reflexivity.
Qed.

Lemma select_best_succeeds self circ w :
  vendor_succeeds → cost_succeeds self → seeds_long_enough self →
  1 ≤ TranspilerSabreMapomaticDD._num_transpilations self →
  ∃ best w',
    select_best (TranspilerSabreMapomaticDD._backend self)
      (TranspilerSabreMapomaticDD._optimization_level self)
      (TranspilerSabreMapomaticDD._num_transpilations self)
      (seeds_in_use self) (cost_in_use self) circ w = (Ok best, w').
Proof.
  intros Hvendor Hcost Hlong HK.
  destruct (compiler_transpile_succeeds
              (list_repeat circ (TranspilerSabreMapomaticDD._num_transpilations self))
              (TranspilerSabreMapomaticDD._backend self)
              (TranspilerSabreMapomaticDD._optimization_level self)
              (seeds_in_use self) w Hvendor) as (trans_qc & w' & Hbatch).
  destruct (rmap_succeeds (cost_in_use self) trans_qc) as [costs Hcosts].
  { intros c. apply cost_in_use_succeeds. exact Hcost. }
  assert (Hne : trans_qc ≠ []).
  { pose proof (compiler_transpile_length _ _ _ _ _ _ _ Hbatch) as Hlen.
    unfold list_repeat in Hlen. rewrite length_replicate in Hlen.
    pose proof (seeds_in_use_enough self Hlong).
    intros ->. simpl in Hlen. lia. }
  destruct (select_best_ok _ _ _ _ _ _ _ _ _ _ Hbatch Hcosts Hne)
    as (best & best_pos & Hsel & _).
  eauto.
Qed.



Lemma get_pass_manager_succeeds self w :
  backend_has_timing (PassManager_DD_ALAP_XX._backend self) →
  ∃ pm w', get_pass_manager self w = (Ok pm, w').
Proof.
  intros [Hdur (timing & Ht & [a Ha])].
  rewrite get_pass_manager_run, pulse_alignment_of_cases.
  specialize (Hdur (outside w)).
  destruct (InstructionDurations_from_backend _ _).1 as [d|e]; [|discriminate].
  rewrite Ht, Ha. eauto.
Qed.

(** With decoupling on, the defaults leave a plan in hand whenever the
    plan, if it has to be built, can be built. *)
Lemma default_dd_passmanager_succeeds self w :
  (TranspilerSabreMapomaticDD._dd_passmanager self = None →
   backend_has_timing (TranspilerSabreMapomaticDD._backend self)) →
  ∃ pm w1, default_dd_passmanager self true
             (TranspilerSabreMapomaticDD._dd_passmanager self) w = (Ok (Some pm), w1).
Proof.
  intros Htiming. unfold default_dd_passmanager.
  destruct (TranspilerSabreMapomaticDD._dd_passmanager self) as [pm|]; simpl.
  - eexists _, _. reflexivity.
  - destruct (get_pass_manager_succeeds
                (PassManager_DD_ALAP_XX.__init__ (TranspilerSabreMapomaticDD._backend self))
                w (Htiming eq_refl)) as (pm & w1 & Hpm).
    exists pm, w1. rewrite (bind_run_ok _ _ _ _ _ Hpm). reflexivity.
Qed.


(** X2. With no run asked for ([num_transpilations <= 0]) a non-empty input
    fails in [min] over the empty batch of candidates: [ValueError], right
    after the defaults were filled in and without any vendor run. *)
Theorem transpile_without_runs_raises (circuits : Circuits) (w : World) dd w1 :
  let self := pipeline w in
  TranspilerSabreMapomaticDD._num_transpilations self ≤ 0 →
  as_list circuits ≠ [] →
  default_dd_passmanager self (TranspilerSabreMapomaticDD._apply_dd self)
    (TranspilerSabreMapomaticDD._dd_passmanager self) w = (Ok dd, w1) →
  transpile circuits w = (Raise ValueError, w1).
Proof.
  intros self HK Hne Hplan.
  assert (Hlong : seeds_long_enough self).
  { unfold seeds_long_enough.
    destruct (TranspilerSabreMapomaticDD._seed_transpiler self) as [seeds|]; [|exact I].
    unfold len. lia. }
  unfold transpile.
  rewrite (bind_run_ok get_self _ w (pipeline w) w eq_refl). fold self. cbv zeta.
  rewrite (bind_run_ok _ _ _ _ _ (default_seed_transpiler_ok self w Hlong)).
  rewrite (bind_run_ok _ _ _ _ _ Hplan).
  fold (as_list circuits).
  apply bind_run_raise. rewrite transpile_for_backend_map.
  destruct (as_list circuits) as [|circ rest]; [congruence|]. simpl.
  apply bind_run_raise. unfold select_best, compiler_transpile, list_repeat.
  replace (Z.to_nat (TranspilerSabreMapomaticDD._num_transpilations self)) with 0%nat by lia.
  reflexivity.
Qed.

(** X3. When the plan has to be built and cannot be, [transpile] fails with
    the builder's exception right there: the log holds the one duration
    lookup and nothing else, so no vendor run was attempted. *)
Theorem transpile_plan_failure_first (circuits : Circuits) (w : World) e w1 :
  let self := pipeline w in
  let backend := TranspilerSabreMapomaticDD._backend self in
  seeds_long_enough self →
  TranspilerSabreMapomaticDD._apply_dd self = true →
  TranspilerSabreMapomaticDD._dd_passmanager self = None →
  get_pass_manager (PassManager_DD_ALAP_XX.__init__ backend) w = (Raise e, w1) →
  transpile circuits w = (Raise e, w1) ∧ extends w w1 [EvFromBackend backend].
Proof.
  intros self backend Hlong Hdd Hnone Hpm. split.
  - unfold transpile.
    rewrite (bind_run_ok get_self _ w (pipeline w) w eq_refl). fold self. cbv zeta.
    rewrite (bind_run_ok _ _ _ _ _ (default_seed_transpiler_ok self w Hlong)).
    apply bind_run_raise. unfold default_dd_passmanager. rewrite Hdd, Hnone. simpl.
    apply bind_run_raise. exact Hpm.
  - pose proof (get_pass_manager_log (PassManager_DD_ALAP_XX.__init__ backend) w) as Hlog.
    rewrite Hpm in Hlog. exact Hlog.
Qed.

End TotalityFacts.

(** ** The order of the stages, whatever the outcome *)

Section OrderFacts.
Context `{Collaborators}.

(** What a sequence logs is what its first step logs followed by what the
    rest logs, the rest logging nothing when the first step raises. *)
Lemma logs_bind {A B} (R1 R2 : list Event → Prop) (m : M A) (k : A → M B) :
  logs R1 m → (∀ a, logs R2 (k a)) → R2 [] →
  logs (λ new, ∃ new1 new2, new = new1 ++ new2 ∧ R1 new1 ∧ R2 new2) (bind m k).
Proof.
  intros Hm Hk Hnil w. destruct (Hm w) as (new1 & Hext1 & HR1). unfold bind.
  destruct (m w) as [[a|e] w1]; simpl in *.
  - destruct (Hk a w1) as (new2 & Hext2 & HR2).
    exists (new1 ++ new2). split; [eapply extends_trans; eassumption|]. eauto.
  - exists new1. split; [exact Hext1|].
    exists new1, []. rewrite app_nil_r. auto.
Qed.

Lemma logs_bind_silent {A B} (R : list Event → Prop) (m : M A) (k : A → M B) :
  (∀ w, (m w).2 = w) → (∀ a, logs R (k a)) → R [] → logs R (bind m k).
Proof.
  intros Hm Hk Hnil w. unfold bind. specialize (Hm w).
  destruct (m w) as [[a|e] w1]; simpl in Hm; subst w1.
  - apply Hk.
  - exists []. split; [apply extends_refl|exact Hnil].
Qed.

Lemma logs_then_silent {A B} (R : list Event → Prop) (m : M A) (k : A → M B) :
  logs R m → (∀ a w, (k a w).2 = w) → logs R (bind m k).
Proof.
  intros Hm Hk w. destruct (Hm w) as (new & Hext & HR). unfold bind.
  destruct (m w) as [[a|e] w1]; simpl in *; [rewrite Hk|]; eauto.
Qed.

(** What the plan default logs: nothing, or the one duration lookup when
    decoupling is on and no plan was given. *)
Lemma default_dd_passmanager_logs self :
  logs (λ new, new = []
               ∨ (TranspilerSabreMapomaticDD._apply_dd self = true
                  ∧ TranspilerSabreMapomaticDD._dd_passmanager self = None
                  ∧ new = [EvFromBackend (TranspilerSabreMapomaticDD._backend self)]))
       (default_dd_passmanager self (TranspilerSabreMapomaticDD._apply_dd self)
          (TranspilerSabreMapomaticDD._dd_passmanager self)).
Proof.
  intros w. unfold default_dd_passmanager.
  destruct (TranspilerSabreMapomaticDD._apply_dd self) eqn:Edd;
    [destruct (TranspilerSabreMapomaticDD._dd_passmanager self) as [pm|] eqn:Epm|];
    simpl.
  - exists []. split; [apply extends_refl|left; reflexivity].
  - exists [EvFromBackend (TranspilerSabreMapomaticDD._backend self)].
    split; [|right; auto].
    pose proof (get_pass_manager_log
                  (PassManager_DD_ALAP_XX.__init__ (TranspilerSabreMapomaticDD._backend self))
                  w) as Hlog.
    unfold bind. destruct (get_pass_manager _ w) as [[pm|e] w1]; exact Hlog.
  - exists []. split; [apply extends_refl|left; reflexivity].
Qed.

(** X4. Whatever its outcome, a call of [transpile] logs its collaborator calls
    stage after stage: the plan build if there is one (only with decoupling
    on and no plan given), then the seeded vendor runs, then the calls of
    the re-layout (none when it is off), then the plan runs (none when
    decoupling is off).  No re-layout call comes before the last seeded
    run, no plan run before the last re-layout call. *)
Theorem transpile_stage_order (circuits : Circuits) (w : World) :
  let self := pipeline w in
  ∃ built seeded relayout runs,
    extends w (transpile circuits w).2 (built ++ seeded ++ relayout ++ runs)
    ∧ (built = []
       ∨ (TranspilerSabreMapomaticDD._apply_dd self = true
          ∧ TranspilerSabreMapomaticDD._dd_passmanager self = None
          ∧ built = [EvFromBackend (TranspilerSabreMapomaticDD._backend self)]))
    ∧ Forall (λ ev, is_seed_run ev = true) seeded
    ∧ Forall (λ ev, is_relayout ev = true) relayout
    ∧ (TranspilerSabreMapomaticDD._apply_mapomatic self = false → relayout = [])
    ∧ Forall (λ ev, is_plan_run ev = true) runs
    ∧ (TranspilerSabreMapomaticDD._apply_dd self = false → runs = []).
Proof.
  intros self.
  set (R3 := λ new : list Event,
         Forall (λ ev, is_plan_run ev = true) new
         ∧ (TranspilerSabreMapomaticDD._apply_dd self = false → new = [])).
  set (R2 := λ new : list Event,
         Forall (λ ev, is_relayout ev = true) new
         ∧ (TranspilerSabreMapomaticDD._apply_mapomatic self = false → new = [])).
  assert (HR3 : R3 []) by (split; [constructor|reflexivity]).
  assert (HR2 : R2 []) by (split; [constructor|reflexivity]).
  unfold transpile.
  rewrite (bind_run_ok get_self _ w (pipeline w) w eq_refl). fold self. cbv zeta.
  match goal with
  | |- context [bind (default_seed_transpiler ?s ?k) ?rest w] =>
      assert (Hlogs : logs
        (λ new, ∃ new0 rest0, new = new0 ++ rest0
           ∧ (new0 = []
              ∨ (TranspilerSabreMapomaticDD._apply_dd self = true
                 ∧ TranspilerSabreMapomaticDD._dd_passmanager self = None
                 ∧ new0 = [EvFromBackend (TranspilerSabreMapomaticDD._backend self)]))
           ∧ ∃ new1 rest1, rest0 = new1 ++ rest1
               ∧ Forall (λ ev, is_seed_run ev = true) new1
               ∧ ∃ new2 new3, rest1 = new2 ++ new3 ∧ R2 new2 ∧ R3 new3)
        (bind (default_seed_transpiler s k) rest))
  end.
  { apply logs_bind_silent; [apply default_seed_transpiler_pure| |].
    2:{ exists [], []. split; [reflexivity|]. split; [left; reflexivity|].
        exists [], []. split; [reflexivity|]. split; [constructor|].
        exists [], []. auto. }
    intros seeds.
    apply logs_bind; [apply default_dd_passmanager_logs| |].
    2:{ exists [], []. split; [reflexivity|]. split; [constructor|].
        exists [], []. auto. }
    intros dd.
    apply logs_bind; [apply transpile_for_backend_emits| |].
    2:{ exists [], []. auto. }
    intros cs1.
    apply logs_bind.
    - destruct (TranspilerSabreMapomaticDD._apply_mapomatic self) eqn:Emap.
      + intros w0.
        assert (Hem : only_emits (λ ev, is_relayout ev = true)
                  (bind (deflate_all cs1)
                     (λ _, select_layouts
                             (length match circuits with
                                     | Single c => [c]
                                     | Many l => l
                                     end) cs1
                             (TranspilerSabreMapomaticDD._backend self)
                             (TranspilerSabreMapomaticDD._cost_mapomatic self)))).
        { apply only_emits_bind; [apply deflate_all_emits|].
          intros _. apply select_layouts_emits. }
        destruct (Hem w0) as (new & Hext & Hkind).
        exists new. split; [exact Hext|]. split; [exact Hkind|discriminate].
      + intros w0. exists []. split; [apply extends_refl|exact HR2].
    - intros cs2. apply logs_then_silent.
      + destruct (TranspilerSabreMapomaticDD._apply_dd self) eqn:Edd.
        * intros w0. destruct (apply_dd_all_emits
                                 (length match circuits with
                                         | Single c => [c]
                                         | Many l => l
                                         end) cs2 dd w0) as (new & Hext & Hkind).
          exists new. split; [exact Hext|]. split; [exact Hkind|discriminate].
        * intros w0. exists []. split; [apply extends_refl|exact HR3].
      + intros cs3 w0. destruct circuits; [|reflexivity].
        unfold bind, lift, ret. destruct (list_getitem cs3 0); reflexivity.
    - exact HR3. }
  destruct (Hlogs w) as (new & Hext & new0 & rest0 & -> & Hbuilt
                         & new1 & rest1 & -> & Hseeded
                         & new2 & new3 & -> & [Hrel Hoff2] & [Hruns Hoff3]).
  exists new0, new1, new2, new3. auto 10.
Qed.

Lemma only_emits_M_map_in {A B} P (f : A → M B) l :
  (∀ x, x ∈ l → only_emits P (f x)) → only_emits P (M_map f l).
Proof.
  induction l as [|x l IH]; intros Hf; simpl.
  - apply only_emits_ret.
  - apply only_emits_bind; [apply Hf; left|]. intros y.
    apply only_emits_bind; [|intros ys; apply only_emits_ret].
    apply IH. intros x' Hin. apply Hf. right. exact Hin.
Qed.

Ltac emits_as_in :=
  repeat first
    [ apply only_emits_ret | apply only_emits_raise | apply only_emits_lift
    | apply only_emits_call; simpl; solve [auto]
    | apply only_emits_for_each; intros
    | apply only_emits_bind; [|intros] ].

Lemma compiler_transpile_as_in self circuits :
  only_emits (vendor_run_as_in self)
    (compiler_transpile circuits (TranspilerSabreMapomaticDD._backend self)
       (TranspilerSabreMapomaticDD._optimization_level self) (seeds_in_use self)).
Proof.
  unfold compiler_transpile. apply only_emits_M_map_in. intros [c s] Hin.
  apply only_emits_call. simpl. split; [reflexivity|]. split; [reflexivity|].
  apply elem_of_zip_r in Hin. exact Hin.
Qed.

(** Whatever its outcome, every vendor run a call of [transpile] logs has
    the arguments the source gives it. *)
Lemma transpile_logs_as_in (circuits : Circuits) (w : World) :
  ∃ new, extends w (transpile circuits w).2 new
         ∧ Forall (vendor_run_as_in (pipeline w)) new.
Proof.
  set (self := pipeline w). unfold transpile.
  rewrite (bind_run_ok get_self _ w (pipeline w) w eq_refl). fold self. cbv zeta.
  destruct (default_seed_transpiler
              (TranspilerSabreMapomaticDD._seed_transpiler self)
              (TranspilerSabreMapomaticDD._num_transpilations self) w)
    as [[seeds|e] w0] eqn:Eseeds.
  2:{ pose proof (default_seed_transpiler_pure
                    (TranspilerSabreMapomaticDD._seed_transpiler self)
                    (TranspilerSabreMapomaticDD._num_transpilations self) w) as Hpure.
      rewrite Eseeds in Hpure. simpl in Hpure. subst w0.
      rewrite (bind_run_raise _ _ _ _ _ Eseeds).
      exists []. split; [apply extends_refl|constructor]. }
  rewrite (bind_run_ok _ _ _ _ _ Eseeds).
  apply default_seed_transpiler_ok_inv in Eseeds as (_ & -> & ->).
  match goal with
  | |- ∃ new, extends w (?rest w).2 new ∧ _ =>
      assert (Hrest : only_emits (vendor_run_as_in self) rest); [|exact (Hrest w)]
  end.
  apply only_emits_bind.
  { eapply only_emits_mono; [|apply default_dd_passmanager_emits].
    intros [] Hev; try discriminate. exact I. }
  intros dd. apply only_emits_bind.
  { unfold transpile_for_backend, for_range. apply only_emits_for_each. intros i acc.
    apply only_emits_bind; [apply only_emits_lift|]. intros circ.
    apply only_emits_bind; [apply compiler_transpile_as_in|]. intros trans_qc.
    emits_as_in. }
  intros cs1. apply only_emits_bind.
  { destruct (TranspilerSabreMapomaticDD._apply_mapomatic self); [|apply only_emits_ret].
    unfold deflate_all, select_layouts, for_range, compiler_transpile_layout.
    emits_as_in. }
  intros cs2. apply only_emits_bind.
  { destruct (TranspilerSabreMapomaticDD._apply_dd self); [|apply only_emits_ret].
    unfold apply_dd_all, for_range. apply only_emits_for_each. intros i acc.
    destruct dd; emits_as_in. }
  intros cs3. destruct circuits; emits_as_in.
Qed.

(** X5. Whatever its outcome, every vendor run a call of [transpile] logs has
    the arguments the source gives it: the seeded runs go to the pipeline's
    backend with its optimization level and one of its seeds, the runs
    pinned to a layout go to the same backend with neither optimization
    level nor seed (the pipeline's optimization level is not passed on). *)
Theorem transpile_vendor_run_arguments (circuits : Circuits) (w : World) :
  let self := pipeline w in
  ∃ new,
    extends w (transpile circuits w).2 new
    ∧ (∀ circ backend level seed,
         EvTranspile circ backend level seed None ∈ new →
         backend = TranspilerSabreMapomaticDD._backend self
         ∧ level = Some (TranspilerSabreMapomaticDD._optimization_level self)
         ∧ seed ∈ seeds_in_use self)
    ∧ (∀ circ backend level seed layout,
         EvTranspile circ backend level seed (Some layout) ∈ new →
         backend = TranspilerSabreMapomaticDD._backend self
         ∧ level = None ∧ seed = None).
Proof.
  intros self. destruct (transpile_logs_as_in circuits w) as (new & Hext & Hall).
  exists new. split; [exact Hext|]. rewrite Forall_forall in Hall. split.
  - intros circ backend level seed Hin. exact (Hall _ Hin).
  - intros circ backend level seed layout Hin. exact (Hall _ Hin).
Qed.

End OrderFacts.

(** ** The plan given at construction, and the calls of the re-layout *)

Section RelayoutFacts.
Context `{Collaborators}.

Lemma transpile_given_plan_log (circuits : Circuits) (w : World)
    (out : Circuits) (w' : World) (pm : PassManager InstructionDurations) :
  let self := pipeline w in
  TranspilerSabreMapomaticDD._apply_dd self = true →
  TranspilerSabreMapomaticDD._dd_passmanager self = Some pm →
  transpile circuits w = (Ok out, w') →
  ∃ new relaid,
    extends w w' new
    ∧ List.filter is_plan_build new = []
    ∧ List.filter is_plan_run new = EvRun pm <$> relaid
    ∧ length relaid = length (as_list circuits)
    ∧ Forall2 (working_form self) (as_list circuits) relaid
    ∧ Forall2 (plan_applied pm) relaid (as_list out).
Proof.
  intros self Hdd Hgiven Hrun.
  apply transpile_ok_log in Hrun
    as (built & relayout & relaid & dd & Hext & (w1 & Hplan & Hbuilt) & Hk0 & Hk2 & _
        & Hlen & Hforms & Happly).
  fold self in Hext, Hplan, Hk0, Hk2, Hforms, Happly.
  rewrite Hdd in Hext. rewrite Hdd, Hgiven in Hplan.
  unfold default_dd_passmanager in Hplan. simpl in Hplan. injection Hplan as <- <-.
  destruct (Happly Hdd) as (pm' & [= <-] & Happlied).
  assert (built = []) as ->.
  { destruct Hbuilt as [_ Hb]. rewrite <- (app_nil_r (calls w)) in Hb at 1.
    apply app_inv_head in Hb. congruence. }
  eexists. exists relaid. split; [exact Hext|].
  assert (Hruns : Forall (λ ev, is_plan_run ev = true) (EvRun pm <$> relaid))
    by (apply Forall_fmap, Forall_true; reflexivity).
  split; [|split; [|auto]].
  - rewrite !List.filter_app. simpl.
    rewrite (filter_drop _ (seed_runs _ _))
      by (eapply Forall_kind; [apply seed_run_not_plan_build|apply seed_runs_are_seed_runs]).
    rewrite (filter_drop _ relayout)
      by (eapply Forall_kind; [apply relayout_not_plan_build|exact Hk2]).
    rewrite filter_drop
      by (eapply Forall_kind; [apply plan_run_not_plan_build|exact Hruns]).
    reflexivity.
  - rewrite !List.filter_app. simpl.
    rewrite (filter_drop _ (seed_runs _ _))
      by (eapply Forall_kind; [apply seed_run_not_plan_run|apply seed_runs_are_seed_runs]).
    rewrite (filter_drop _ relayout)
      by (eapply Forall_kind; [apply relayout_not_plan_run|exact Hk2]).
    rewrite filter_keep by exact Hruns. reflexivity.
Qed.

(** X6. With a plan given at construction and decoupling on, a successful
    [transpile] builds no plan and runs the given one on every circuit: the
    plan runs of the log are, in order, one run of the given plan on the
    working form of each input circuit (the circuit selected for it, re-laid
    when the re-layout is on), and the results of these runs are what is
    returned; the given plan stays on the pipeline object. *)
Theorem transpile_uses_given_plan (circuits : Circuits) (w : World)
    (out : Circuits) (w' : World) (pm : PassManager InstructionDurations) :
  let self := pipeline w in
  TranspilerSabreMapomaticDD._apply_dd self = true →
  TranspilerSabreMapomaticDD._dd_passmanager self = Some pm →
  transpile circuits w = (Ok out, w') →
  (∃ new relaid,
     extends w w' new
     ∧ List.filter is_plan_build new = []
     ∧ List.filter is_plan_run new = EvRun pm <$> relaid
     ∧ length relaid = length (as_list circuits)
     ∧ Forall2 (working_form self) (as_list circuits) relaid
     ∧ Forall2 (plan_applied pm) relaid (as_list out))
  ∧ TranspilerSabreMapomaticDD._dd_passmanager (pipeline w') = Some pm.
Proof.
  intros self Hdd Hgiven Hrun. split.
  - eapply transpile_given_plan_log; eassumption.
  - pose proof (transpile_keeps_pipeline circuits w) as Hkeep.
    rewrite Hrun in Hkeep. simpl in Hkeep. rewrite Hkeep. exact Hgiven.
Qed.

(** The calls of one pass through the layout loop that goes through. *)
Lemma select_layout_ok_log backend cost_mapomatic qc w new_qc w' :
  select_layout backend cost_mapomatic qc w = (Ok new_qc, w') →
  ∃ small layouts best_layout,
    extends w w' [EvDeflate qc; EvMatchingLayouts small backend;
                  EvEvaluateLayouts small layouts backend cost_mapomatic;
                  EvTranspile small backend None None (Some best_layout)].
Proof.
  unfold select_layout, deflate, compiler_transpile_layout. intros Hrun.
  apply bind_ok_inv in Hrun as (small & w1 & H1 & Hrun).
  apply bind_ok_inv in Hrun as (layouts & w2 & H2 & Hrun).
  apply bind_ok_inv in Hrun as (scores & w3 & H3 & Hrun).
  apply bind_ok_inv in Hrun as (first & w4 & H4 & Hrun).
  unfold lift in H4. injection H4 as _ <-.
  exists small, layouts, first.1.
  pose proof (call_log (EvDeflate qc) (deflate_circuit qc) w) as L1.
  rewrite H1 in L1.
  pose proof (call_log (EvMatchingLayouts small backend)
                (matching_layouts small backend) w1) as L2.
  rewrite H2 in L2.
  pose proof (call_log (EvEvaluateLayouts small layouts backend cost_mapomatic)
                (evaluate_layouts small layouts backend cost_mapomatic) w2) as L3.
  rewrite H3 in L3.
  pose proof (call_log (EvTranspile small backend None None (Some first.1))
                (compiler_transpile_run small backend None None (Some first.1)) w3) as L4.
  rewrite Hrun in L4.
  exact (extends_trans _ _ _ _ _ L1
           (extends_trans _ _ _ _ _ L2 (extends_trans _ _ _ _ _ L3 L4))).
Qed.

Lemma relayout_ok_counts backend cost_mapomatic l w ys w' :
  M_map (select_layout backend cost_mapomatic) l w = (Ok ys, w') →
  ∃ new, extends w w' new
         ∧ Forall (λ ev, is_relayout ev = true) new
         ∧ List.filter is_deflate new = EvDeflate <$> l
         ∧ length (List.filter is_matching new) = length l
         ∧ length (List.filter is_evaluate new) = length l
         ∧ length (List.filter is_pinned_run new) = length l.
Proof.
  revert w ys. induction l as [|qc l IH]; intros w ys Hrun; simpl in Hrun.
  - injection Hrun as _ <-. exists []. split; [apply extends_refl|].
    split; [constructor|]. auto.
  - apply bind_ok_inv in Hrun as (y & w1 & Hx & Hrun).
    apply bind_ok_inv in Hrun as (ys' & w2 & Hrest & Hret).
    injection Hret as _ <-.
    apply select_layout_ok_log in Hx as (small & layouts & lay & Hx).
    apply IH in Hrest as (new & Hext & Hkind & Hd & Hm & He & Hp).
    eexists. split; [eapply extends_trans; [exact Hx|exact Hext]|].
    split; [repeat constructor; exact Hkind|].
    simpl. rewrite Hd, Hm, He, Hp. auto.
Qed.

Lemma relayout_parts ev :
  is_relayout ev = false →
  is_deflate ev = false ∧ is_matching ev = false ∧ is_evaluate ev = false
  ∧ is_pinned_run ev = false.
Proof. destruct ev as [| ? ? ? ? [?|] | | | |]; simpl; intros; auto; discriminate. Qed.

(** Among calls of the other stages a filter on a re-layout kind finds
    nothing. *)
Lemma filter_relayout_kind (P : Event → bool) built seeded relayout runs :
  (∀ ev, is_relayout ev = false → P ev = false) →
  Forall (λ ev, is_plan_build ev = true) built →
  Forall (λ ev, is_seed_run ev = true) seeded →
  Forall (λ ev, is_plan_run ev = true) runs →
  List.filter P (built ++ seeded ++ relayout ++ runs) = List.filter P relayout.
Proof.
  intros HP Hb Hs Hr. rewrite !List.filter_app.
  rewrite (filter_drop P built).
  2:{ eapply Forall_impl; [exact Hb|]. intros ev Hev.
      apply HP, plan_build_not_relayout, Hev. }
  rewrite (filter_drop P seeded).
  2:{ eapply Forall_impl; [exact Hs|]. intros ev Hev. apply HP.
      pose proof (event_kinds ev) as Hk. rewrite Hev in Hk.
      destruct (is_plan_build ev), (is_relayout ev), (is_plan_run ev);
        try contradiction; reflexivity. }
  rewrite (filter_drop P runs).
  2:{ eapply Forall_impl; [exact Hr|]. intros ev Hev. apply HP.
      pose proof (event_kinds ev) as Hk. rewrite Hev in Hk.
      destruct (is_plan_build ev), (is_seed_run ev), (is_relayout ev);
        try contradiction; reflexivity. }
  rewrite app_nil_r. reflexivity.
Qed.

(** X7. A successful [transpile] with the re-layout on deflates every selected
    circuit exactly twice (once in the loop that fills [deflated], once in
    the layout loop), and calls the layout matcher, the layout evaluator and
    the pinned vendor run exactly once per circuit. *)
Theorem transpile_relayout_calls (circuits : Circuits) (w : World)
    (out : Circuits) (w' : World) :
  let self := pipeline w in
  TranspilerSabreMapomaticDD._apply_mapomatic self = true →
  transpile circuits w = (Ok out, w') →
  ∃ new selected,
    extends w w' new
    ∧ Forall2 (selected_for self) (as_list circuits) selected
    ∧ List.filter is_deflate new = EvDeflate <$> (selected ++ selected)
    ∧ length (List.filter is_matching new) = length (as_list circuits)
    ∧ length (List.filter is_evaluate new) = length (as_list circuits)
    ∧ length (List.filter is_pinned_run new) = length (as_list circuits).
Proof.
  intros self Hmap Hrun.
  apply transpile_ok_inv in Hrun
    as (Hlong & dd & w1 & cs1 & w2 & cs2 & w3 & cs3 & Hdd & Hcs1 & Hcs2 & Hcs3 & _ & _).
  fold self in Hlong, Hdd, Hcs1, Hcs2, Hcs3. rewrite Hmap in Hcs2.
  destruct Hcs2 as (deflated & wd & Hdefl & Hcs2).
  destruct (only_emits_at _ _ _ _ _ (default_dd_passmanager_emits _ _ _) Hdd)
    as (built & Hbuilt & Hk0).
  pose proof (selection_ok_log _ _ _ _ _ Hcs1) as Hlog1.
  pose proof (M_map_length _ _ _ _ _ Hcs1) as Hlen1.
  assert (Hsel : Forall2 (selected_for self) (as_list circuits) cs1).
  { eapply M_map_Forall2_worlds; [|exact Hcs1].
    intros x w0 y w1' Hx. eapply selected_for_intro; eassumption. }
  apply (M_map_call_ok_log EvDeflate deflate_circuit) in Hdefl.
  apply relayout_ok_counts in Hcs2 as (new2 & Hext2 & Hkind2 & Hd & Hm & He & Hp).
  assert (Hlog3 : ∃ runs, extends w3 w' runs ∧ Forall (λ ev, is_plan_run ev = true) runs).
  { destruct (TranspilerSabreMapomaticDD._apply_dd self).
    - destruct Hcs3 as (pm & _ & Hcs3). apply plan_runs_ok_log in Hcs3.
      eexists. split; [exact Hcs3|]. apply Forall_fmap, Forall_true. reflexivity.
    - destruct Hcs3 as [_ ->]. exists []. split; [apply extends_refl|constructor]. }
  destruct Hlog3 as (runs & Hext3 & Hk3).
  exists (built ++ seed_runs self (as_list circuits)
          ++ ((EvDeflate <$> cs1) ++ new2) ++ runs), cs1.
  split.
  { eapply extends_trans; [exact Hbuilt|].
    eapply extends_trans; [exact Hlog1|].
    eapply extends_trans; [|exact Hext3].
    eapply extends_trans; [exact Hdefl|exact Hext2]. }
  split; [exact Hsel|].
  rewrite !filter_relayout_kind;
    try assumption; try apply seed_runs_are_seed_runs;
    try (intros ev Hev; apply relayout_parts in Hev; tauto).
  rewrite !List.filter_app, Hd.
  rewrite (filter_keep is_deflate (EvDeflate <$> cs1))
    by (apply Forall_fmap, Forall_true; reflexivity).
  rewrite (filter_drop is_matching (EvDeflate <$> cs1))
    by (apply Forall_fmap, Forall_true; reflexivity).
  rewrite (filter_drop is_evaluate (EvDeflate <$> cs1))
    by (apply Forall_fmap, Forall_true; reflexivity).
  rewrite (filter_drop is_pinned_run (EvDeflate <$> cs1))
    by (apply Forall_fmap, Forall_true; reflexivity).
  simpl. rewrite Hm, He, Hp, fmap_app, Hlen1. auto.
Qed.

(** One pass through the layout loop when the evaluator has nothing to
    offer: [scores[0]] raises, after the three mapomatic calls. *)
Lemma select_layout_no_layout backend cost_mapomatic qc w :
  deflate_is_total → matching_succeeds → evaluator_finds_nothing →
  ∃ w' small layouts,
    select_layout backend cost_mapomatic qc w = (Raise IndexError, w')
    ∧ extends w w' [EvDeflate qc; EvMatchingLayouts small backend;
                    EvEvaluateLayouts small layouts backend cost_mapomatic].
Proof.
  intros Hdefl Hmatch Heval. unfold select_layout, deflate.
  destruct (call_succeeds (EvDeflate qc) (deflate_circuit qc) w (Hdefl _ _))
    as (small & w1 & H1).
  rewrite (bind_run_ok _ _ _ _ _ H1).
  destruct (call_succeeds (EvMatchingLayouts small backend)
              (matching_layouts small backend) w1 (Hmatch _ _ _))
    as (layouts & w2 & H2).
  rewrite (bind_run_ok _ _ _ _ _ H2).
  pose proof (Heval small layouts backend cost_mapomatic (outside w2)) as Hscores.
  destruct (call_succeeds (EvEvaluateLayouts small layouts backend cost_mapomatic)
              (evaluate_layouts small layouts backend cost_mapomatic) w2)
    as (scores & w3 & H3); [rewrite Hscores; reflexivity|].
  rewrite (bind_run_ok _ _ _ _ _ H3).
  assert (scores = []) as ->.
  { unfold call in H3. destruct (evaluate_layouts _ _ _ _ _) as [r o].
    simpl in Hscores. subst r. injection H3 as <- _. reflexivity. }
  exists w3, small, layouts. split; [reflexivity|].
  pose proof (call_log (EvDeflate qc) (deflate_circuit qc) w) as L1.
  rewrite H1 in L1.
  pose proof (call_log (EvMatchingLayouts small backend)
                (matching_layouts small backend) w1) as L2.
  rewrite H2 in L2.
  pose proof (call_log (EvEvaluateLayouts small layouts backend cost_mapomatic)
                (evaluate_layouts small layouts backend cost_mapomatic) w2) as L3.
  rewrite H3 in L3.
  exact (extends_trans _ _ _ _ _ L1 (extends_trans _ _ _ _ _ L2 L3)).
Qed.

(** X8. When the layout evaluator returns no scored layout, [transpile] with
    the re-layout on fails on a non-empty input with the [IndexError] of
    [scores[0]], everything up to there having gone through; the log then
    holds no vendor run pinned to a layout and no plan run. *)
Theorem transpile_no_layout_raises (circuits : Circuits) (w : World) :
  let self := pipeline w in
  as_list circuits ≠ [] →
  TranspilerSabreMapomaticDD._apply_mapomatic self = true →
  seeds_long_enough self →
  1 ≤ TranspilerSabreMapomaticDD._num_transpilations self →
  vendor_succeeds → cost_succeeds self →
  deflate_is_total → matching_succeeds → evaluator_finds_nothing →
  (TranspilerSabreMapomaticDD._apply_dd self = true →
   TranspilerSabreMapomaticDD._dd_passmanager self = None →
   backend_has_timing (TranspilerSabreMapomaticDD._backend self)) →
  ∃ w' new,
    transpile circuits w = (Raise IndexError, w')
    ∧ extends w w' new
    ∧ List.filter is_pinned_run new = []
    ∧ List.filter is_plan_run new = [].
Proof.
  intros self Hne Hmap Hlong HK Hvendor Hcost Hdefl Hmatch Heval Htiming.
  assert (Hdefault : ∃ dd w1,
            default_dd_passmanager self (TranspilerSabreMapomaticDD._apply_dd self)
              (TranspilerSabreMapomaticDD._dd_passmanager self) w = (Ok dd, w1)).
  { destruct (TranspilerSabreMapomaticDD._apply_dd self) eqn:Edd.
    - destruct (default_dd_passmanager_succeeds self w (Htiming eq_refl))
        as (pm & w1 & Hpm). eauto.
    - eexists _, _. reflexivity. }
  destruct Hdefault as (dd & w1 & Hplan).
  destruct (only_emits_at _ _ _ _ _ (default_dd_passmanager_emits _ _ _) Hplan)
    as (built & Hbuilt & Hk0).
  destruct (M_map_succeeds
              (select_best (TranspilerSabreMapomaticDD._backend self)
                 (TranspilerSabreMapomaticDD._optimization_level self)
                 (TranspilerSabreMapomaticDD._num_transpilations self)
                 (seeds_in_use self) (cost_in_use self))
              (as_list circuits)
              (λ c w0 _, select_best_succeeds self c w0 Hvendor Hcost Hlong HK) w1)
    as (cs1 & w2 & Hcs1).
  pose proof (M_map_length _ _ _ _ _ Hcs1) as Hlen1.
  pose proof (selection_ok_log _ _ _ _ _ Hcs1) as Hlog1.
  destruct (M_map_succeeds deflate cs1
              (λ c w0 _, call_succeeds (EvDeflate c) (deflate_circuit c) w0
                           (Hdefl c (outside w0))) w2)
    as (deflated & wd & Hd).
  pose proof (M_map_call_ok_log EvDeflate deflate_circuit _ _ _ _ Hd) as Hlogd.
  destruct cs1 as [|qc rest].
  { destruct (as_list circuits); [congruence|discriminate]. }
  destruct (select_layout_no_layout (TranspilerSabreMapomaticDD._backend self)
              (TranspilerSabreMapomaticDD._cost_mapomatic self) qc wd Hdefl Hmatch Heval)
    as (w3 & small & layouts & Hfail & Hlogf).
  exists w3. eexists. split; [|split].
  - unfold transpile.
    rewrite (bind_run_ok get_self _ w (pipeline w) w eq_refl). fold self. cbv zeta.
    rewrite (bind_run_ok _ _ _ _ _ (default_seed_transpiler_ok self w Hlong)).
    rewrite (bind_run_ok _ _ _ _ _ Hplan).
    fold (as_list circuits).
    rewrite <- transpile_for_backend_map in Hcs1.
    rewrite (bind_run_ok _ _ _ _ _ Hcs1).
    apply bind_run_raise. rewrite Hmap.
    rewrite <- deflate_all_map in Hd. rewrite (bind_run_ok _ _ _ _ _ Hd).
    rewrite <- Hlen1, select_layouts_map. simpl.
    apply bind_run_raise. exact Hfail.
  - eapply extends_trans; [exact Hbuilt|].
    eapply extends_trans; [exact Hlog1|].
    eapply extends_trans; [exact Hlogd|exact Hlogf].
  - rewrite !List.filter_app.
    rewrite (filter_drop is_pinned_run built).
    2:{ eapply Forall_impl; [exact Hk0|]. intros ev Hev.
        apply plan_build_not_relayout, relayout_parts in Hev. tauto. }
    rewrite (filter_drop is_pinned_run (seed_runs _ _)).
    2:{ eapply Forall_impl; [apply seed_runs_are_seed_runs|].
        intros [| ? ? ? ? [?|] | | | |]; simpl; intros; auto; discriminate. }
    rewrite (filter_drop is_pinned_run (EvDeflate <$> _))
      by (apply Forall_fmap, Forall_true; reflexivity).
    rewrite (filter_drop is_plan_run built)
      by (eapply Forall_kind; [apply plan_build_not_plan_run|exact Hk0]).
    rewrite (filter_drop is_plan_run (seed_runs _ _))
      by (eapply Forall_kind; [apply seed_run_not_plan_run|apply seed_runs_are_seed_runs]).
    rewrite (filter_drop is_plan_run (EvDeflate <$> _))
      by (apply Forall_fmap, Forall_true; reflexivity).
    simpl. auto.
Qed.

(** X9. In a successful [transpile] with the re-layout on, the working form of
    every circuit after the layout loop is the vendor run of its deflated
    selection, pinned to the layout of the first entry of what
    [mapomatic.evaluate_layouts] returned: the pipeline does not compare the
    scores itself. The evaluator is called with the pipeline's
    [cost_mapomatic] on the layouts the matcher returned for that deflated
    circuit, and no other call comes between the four. With the decoupling
    off these working forms are the result. *)
Theorem transpile_relayout_first_score (circuits : Circuits) (w : World)
    (out : Circuits) (w' : World) :
  let self := pipeline w in
  TranspilerSabreMapomaticDD._apply_mapomatic self = true →
  transpile circuits w = (Ok out, w') →
  ∃ selected relaid,
    Forall2 (selected_for self) (as_list circuits) selected
    ∧ Forall2 (relaid_from self) selected relaid
    ∧ (TranspilerSabreMapomaticDD._apply_dd self = false → as_list out = relaid).
Proof.
  intros self Hmap Hrun.
  apply transpile_ok_inv in Hrun
    as (Hlong & dd & w1 & cs1 & w2 & cs2 & w3 & cs3 & Hdd & Hcs1 & Hcs2 & Hcs3 & _ & Hout).
  fold self in Hlong, Hdd, Hcs1, Hcs2, Hcs3. rewrite Hmap in Hcs2.
  destruct Hcs2 as (deflated & wd & Hdefl & Hcs2).
  exists cs1, cs2. split; [|split].
  - eapply M_map_Forall2_worlds; [|exact Hcs1].
    intros x w0 y w1' Hx. eapply selected_for_intro; eassumption.
  - eapply M_map_Forall2_worlds; [|exact Hcs2].
    intros x w0 y w1' Hx. eapply select_layout_ok_inv; eassumption.
  - intros Hoff. rewrite Hoff in Hcs3. destruct Hcs3 as [-> _].
    destruct circuits; [destruct Hout as (c & -> & ->)|subst out]; reflexivity.
Qed.

End RelayoutFacts.

(** ** One circuit or a list of one, the default cost at work, the setter,
       and seeds *)

Section ComposeFacts.
Context `{Collaborators}.

Lemma stage_length_relayout (flag : bool) cs1 n backend cost_mapomatic w cs2 w' :
  length cs1 = n →
  (if flag
   then deflated <- deflate_all cs1 ;; select_layouts n cs1 backend cost_mapomatic
   else ret cs1) w = (Ok cs2, w') →
  length cs2 = n.
Proof.
  intros Hlen. destruct flag.
  - intros Hrun. apply bind_ok_inv in Hrun as (deflated & wd & _ & Hrun).
    rewrite <- Hlen, select_layouts_map in Hrun.
    apply M_map_length in Hrun. congruence.
  - intros [= <- _]. exact Hlen.
Qed.

Lemma apply_dd_all_no_plan n cs w cs' w' :
  apply_dd_all n cs None w = (Ok cs', w') → n = 0%nat ∧ cs' = cs.
Proof.
  unfold apply_dd_all, for_range. destruct n as [|n]; simpl.
  - intros [= <- _]. auto.
  - unfold bind, raise. discriminate.
Qed.

Lemma stage_length_plan (flag : bool) cs2 n dd w cs3 w' :
  length cs2 = n →
  (if flag then apply_dd_all n cs2 dd else ret cs2) w = (Ok cs3, w') →
  length cs3 = n.
Proof.
  intros Hlen. destruct flag.
  - destruct dd as [pm|].
    + rewrite <- Hlen, apply_dd_all_map. intros Hrun.
      apply M_map_length in Hrun. congruence.
    + intros Hrun. apply apply_dd_all_no_plan in Hrun as [_ ->]. exact Hlen.
  - intros [= <- _]. exact Hlen.
Qed.

(** X10. Calling [transpile] on one circuit is calling it on the list of that
    one circuit and taking the element out: same exception if any, same
    calls to the collaborators, same final world. *)
Theorem transpile_single_is_singleton (c : Circuit) (w : World) :
  (transpile (Single c) w).1 = unwrap_single (transpile (Many [c]) w).1
  ∧ (transpile (Single c) w).2 = (transpile (Many [c]) w).2.
Proof.
  set (R := λ x y : Result Circuits * World, x.1 = unwrap_single y.1 ∧ x.2 = y.2).
  assert (Hraise : ∀ e w1, R (Raise e, w1) (Raise e, w1)) by (split; reflexivity).
  change (R (transpile (Single c) w) (transpile (Many [c]) w)).
  unfold transpile.
  apply bind_same_head; [exact Hraise|]. intros self w0 _. cbv zeta.
  apply bind_same_head; [exact Hraise|]. intros seeds w1 _.
  apply bind_same_head; [exact Hraise|]. intros dd w2 _.
  apply bind_same_head; [exact Hraise|]. intros cs1 w3 Hcs1.
  rewrite transpile_for_backend_map in Hcs1. apply M_map_length in Hcs1.
  apply bind_same_head; [exact Hraise|]. intros cs2 w4 Hcs2.
  apply stage_length_relayout in Hcs2; [|exact Hcs1].
  apply bind_same_head; [exact Hraise|]. intros cs3 w5 Hcs3.
  apply stage_length_plan in Hcs3; [|exact Hcs2].
  destruct cs3 as [|c3 [|? ?]]; try discriminate.
  split; reflexivity.
Qed.

Lemma rmap_lookup_ok {A B} (f : A → Result B) (l : list A) (ys : list B) i x :
  rmap f l = Ok ys → l !! i = Some x → ∃ y, f x = Ok y ∧ ys !! i = Some y.
Proof.
  revert ys i. induction l as [|x0 l IH]; intros ys i; simpl; [discriminate|].
  destruct (f x0) as [y0|e] eqn:E0; simpl; [|discriminate].
  destruct (rmap f l) as [ys'|e]; simpl; [|discriminate].
  intros [= <-]. destruct i as [|i]; simpl.
  - intros [= <-]. eauto.
  - intros Hi. eapply IH; eauto.
Qed.

(** The default cost compares like [depth + 20 * cx] on natural numbers. *)
Lemma default_cost_le (d1 x1 d2 x2 : nat) :
  (1 * inject_Z (Z.of_nat d1) + 20 * inject_Z (Z.of_nat x1)
   <= 1 * inject_Z (Z.of_nat d2) + 20 * inject_Z (Z.of_nat x2))%Q
  → (d1 + 20 * x1 ≤ d2 + 20 * x2)%nat.
Proof. unfold Qle, Qplus, Qmult, inject_Z. simpl. lia. Qed.

(** What the selection with the default cost picks among its candidates. *)
Lemma select_best_default_cost backend level K seeds circ w best w' :
  select_best backend level K seeds transpile_cost_depthcnot_default circ w
  = (Ok best, w') →
  ∃ trans_qc,
    compiler_transpile (list_repeat circ K) backend level seeds w = (Ok trans_qc, w')
    ∧ best ∈ trans_qc
    ∧ ∀ other, other ∈ trans_qc →
        (depth best + 20 * cx_count best ≤ depth other + 20 * cx_count other)%nat.
Proof.
  intros Hrun. apply select_best_ok_inv in Hrun
    as (trans_qc & costs & best_pos & Hbatch & Hcosts & Hlen & Hmin & Hbest).
  exists trans_qc. split; [exact Hbatch|].
  split; [apply list_elem_of_lookup; eauto|].
  intros other Hin. apply list_elem_of_lookup in Hin as [j Hj].
  destruct Hmin as (cmin & Hcmin & Hle & _).
  destruct (rmap_lookup_ok _ _ _ _ _ Hcosts Hbest) as (y & Hy & Hy').
  destruct (rmap_lookup_ok _ _ _ _ _ Hcosts Hj) as (z & Hz & Hz').
  assert (y = cmin) by congruence. subst y.
  specialize (Hle j z Hz').
  unfold transpile_cost_depthcnot_default in Hy, Hz.
  rewrite transpile_cost_depthcnot_value in Hy, Hz.
  injection Hy as <-. injection Hz as <-.
  apply default_cost_le. exact Hle.
Qed.

(** X11. Left with the default cost function, a successful [transpile] keeps for
    every input circuit, after its first loop, a vendor candidate whose
    [depth + 20 * (number of cx)] is the least among the candidates for that
    circuit; with re-layout and decoupling off these are the circuits it
    returns. *)
Theorem transpile_default_cost_selection (circuits : Circuits) (w : World)
    (out : Circuits) (w' : World) :
  let self := pipeline w in
  TranspilerSabreMapomaticDD._cost_transpile self = None →
  transpile circuits w = (Ok out, w') →
  ∃ selected,
    Forall2
      (λ circ best,
         ∃ wa wb trans_qc,
           compiler_transpile
             (list_repeat circ (TranspilerSabreMapomaticDD._num_transpilations self))
             (TranspilerSabreMapomaticDD._backend self)
             (TranspilerSabreMapomaticDD._optimization_level self)
             (seeds_in_use self) wa = (Ok trans_qc, wb)
           ∧ best ∈ trans_qc
           ∧ ∀ other, other ∈ trans_qc →
               (depth best + 20 * cx_count best
                ≤ depth other + 20 * cx_count other)%nat)
      (as_list circuits) selected
    ∧ (TranspilerSabreMapomaticDD._apply_mapomatic self = false →
       TranspilerSabreMapomaticDD._apply_dd self = false →
       as_list out = selected).
Proof.
  intros self Hcost Hrun.
  apply transpile_ok_inv in Hrun
    as (Hlong & dd & w1 & cs1 & w2 & cs2 & w3 & cs3 & _ & Hcs1 & Hcs2 & Hcs3 & _ & Hout).
  fold self in Hcs1, Hcs2, Hcs3.
  assert (Hdef : cost_in_use self = transpile_cost_depthcnot_default).
  { unfold cost_in_use. rewrite Hcost. reflexivity. }
  rewrite Hdef in Hcs1.
  exists cs1. split.
  - eapply M_map_Forall2_worlds; [|exact Hcs1].
    intros circ wa best wb Hsel.
    apply select_best_default_cost in Hsel as (trans_qc & Hbatch & Hin & Hle).
    exists wa, wb, trans_qc. auto.
  - intros Hmap Hdd. rewrite Hmap in Hcs2. rewrite Hdd in Hcs3.
    destruct Hcs2 as [-> _], Hcs3 as [-> _].
    destruct circuits; [destruct Hout as (c & -> & ->)|subst out]; reflexivity.
Qed.

End ComposeFacts.

Section CostOrderFacts.
Context {Circuit : Type} `{QuantumCircuitAPI Circuit}.

Lemma weighted_le (weight : Q) (a b : nat) :
  (0 <= weight)%Q → (a ≤ b)%nat →
  (weight * inject_Z (Z.of_nat a) <= weight * inject_Z (Z.of_nat b))%Q.
Proof.
  intros Hw Hab. rewrite !(Qmult_comm weight).
  apply Qmult_le_compat_r; [|exact Hw].
  rewrite <- Zle_Qle. lia.
Qed.

(** X12. With weights that are not negative the cost grows with the depth and
    with the number of [cx] gates, and these two numbers are all it looks
    at: gates of any other name weigh in through the depth only. *)
Theorem transpile_cost_depthcnot_monotone (c1 c2 : Circuit) (weight_depth weight_cnot : Q) :
  (0 <= weight_depth)%Q → (0 <= weight_cnot)%Q →
  (depth c1 ≤ depth c2)%nat → (cx_count c1 ≤ cx_count c2)%nat →
  ∃ cost1 cost2,
    transpile_cost_depthcnot c1 weight_depth weight_cnot = Ok cost1
    ∧ transpile_cost_depthcnot c2 weight_depth weight_cnot = Ok cost2
    ∧ (cost1 <= cost2)%Q
    ∧ (depth c1 = depth c2 → count_ops c1 !! "cx" = count_ops c2 !! "cx" →
       cost1 = cost2).
Proof.
  intros Hwd Hwc Hd Hx. rewrite !transpile_cost_depthcnot_value.
  eexists _, _. split; [reflexivity|]. split; [reflexivity|]. split.
  - apply Qplus_le_compat; apply weighted_le; assumption.
  - intros Hdepth Hcx. unfold cx_count. rewrite Hdepth, Hcx. reflexivity.
Qed.

End CostOrderFacts.

(** ** The backend setter, and reproducibility with seeds *)

Section SetterFacts.
Context `{Collaborators}.

(** X13. After the setter every vendor run of the next [transpile] goes to the
    new backend, and a plan built by that call is built from the new
    backend; but a plan given at construction is kept and run as it is:
    the setter touches the backend field only. *)
Theorem backend_setter_then_transpile (new_backend : Backend) (circuits : Circuits)
    (w : World) :
  let self := pipeline w in
  let w1 := {| pipeline := with_backend self new_backend;
               outside := outside w; calls := calls w |} in
  backend_setter new_backend w = (Ok tt, w1)
  ∧ (∃ new, extends w1 (transpile circuits w1).2 new
            ∧ ∀ circ backend level seed layout,
                EvTranspile circ backend level seed layout ∈ new →
                backend = new_backend)
  ∧ (∀ out w',
       transpile circuits w1 = (Ok out, w') →
       TranspilerSabreMapomaticDD._apply_dd self = true →
       match TranspilerSabreMapomaticDD._dd_passmanager self with
       | Some pm =>
           ∃ new relaid, extends w1 w' new
                         ∧ List.filter is_plan_build new = []
                         ∧ List.filter is_plan_run new = EvRun pm <$> relaid
       | None =>
           ∃ new, extends w1 w' new
                  ∧ List.filter is_plan_build new = [EvFromBackend new_backend]
       end).
Proof.
  intros self w1. split; [reflexivity|]. split.
  - destruct (transpile_logs_as_in circuits w1) as (new & Hext & Hall).
    exists new. split; [exact Hext|]. rewrite Forall_forall in Hall.
    intros circ backend level seed layout Hin. specialize (Hall _ Hin).
    destruct layout; simpl in Hall; tauto.
  - intros out w' Hrun Hdd.
    destruct (TranspilerSabreMapomaticDD._dd_passmanager self) as [pm|] eqn:Epm.
    + destruct (transpile_given_plan_log circuits w1 out w' pm Hdd Epm Hrun)
        as (new & relaid & Hext & Hb & Hr & _).
      eauto.
    + destruct (transpile_plan_built_once circuits w1 out w' Hdd Epm Hrun)
        as (pm & w2 & new & relaid & _ & Hext & Hb & _).
      eauto.
Qed.

End SetterFacts.

Section SeedFacts.
Context `{Collaborators}.

Lemma world_blind_ret {A} (a : A) : world_blind (ret a).
Proof. intros w1 w2 Hw. split; [reflexivity|exact Hw]. Qed.

Lemma world_blind_lift {A} (r : Result A) : world_blind (lift r).
Proof. intros w1 w2 Hw. split; [reflexivity|exact Hw]. Qed.

Lemma world_blind_call {A} ev (f : External → Result A * External) :
  (∀ o1 o2, (f o1).1 = (f o2).1) → world_blind (call ev f).
Proof.
  intros Hf w1 w2 Hw. unfold call. specialize (Hf (outside w1) (outside w2)).
  destruct (f (outside w1)) as [r1 o1], (f (outside w2)) as [r2 o2].
  simpl in *. auto.
Qed.

Lemma world_blind_bind {A B} (m : M A) (k : A → M B) :
  world_blind m → (∀ a, world_blind (k a)) → world_blind (bind m k).
Proof.
  intros Hm Hk w1 w2 Hw. destruct (Hm w1 w2 Hw) as [Hr Hw']. unfold bind.
  destruct (m w1) as [r1 w1'], (m w2) as [r2 w2']. simpl in *. subst r2.
  destruct r1 as [a|e]; [apply Hk; exact Hw'|]. split; [reflexivity|exact Hw'].
Qed.

Lemma world_blind_M_map_in {A B} (f : A → M B) l :
  (∀ x, x ∈ l → world_blind (f x)) → world_blind (M_map f l).
Proof.
  induction l as [|x l IH]; intros Hf; simpl.
  - apply world_blind_ret.
  - apply world_blind_bind; [apply Hf; left|]. intros y.
    apply world_blind_bind; [|intros ys; apply world_blind_ret].
    apply IH. intros x' Hin. apply Hf. right. exact Hin.
Qed.

Lemma world_blind_for_each {I S} (body : I → S → M S) idx :
  (∀ i s, world_blind (body i s)) → ∀ s, world_blind (for_each idx body s).
Proof.
  intros Hbody. induction idx as [|i idx IH]; intros s; simpl.
  - apply world_blind_ret.
  - apply world_blind_bind; auto.
Qed.

(** The batch of runs for one circuit is reproducible when the seeds it
    uses are all explicit. *)
Lemma compiler_transpile_blind circ K backend level seeds :
  seeded_runs_reproducible →
  (∀ seed, seed ∈ take (Z.to_nat K) seeds → is_Some seed) →
  world_blind (compiler_transpile (list_repeat circ K) backend level seeds).
Proof.
  intros Hrep Hseeds. unfold compiler_transpile, list_repeat.
  apply world_blind_M_map_in. intros [c s] Hin.
  rewrite zip_replicate_take in Hin.
  apply list_elem_of_fmap in Hin as (s' & [= -> ->] & Hin).
  destruct (Hseeds _ Hin) as [seed ->].
  apply world_blind_call. intros o1 o2. apply Hrep.
Qed.

(** X14. Seeds are for reproducibility: when a vendor run with an explicit seed
    is a function of its arguments and the first [num_transpilations] seeds
    are all explicit, what [transpile] returns (or raises) with re-layout
    and decoupling off depends on the pipeline object and the input only,
    not on the state of the outside world it starts from. *)
Theorem transpile_reproducible_with_seeds (circuits : Circuits) (w1 w2 : World) :
  let self := pipeline w1 in
  seeded_runs_reproducible →
  pipeline w2 = self →
  TranspilerSabreMapomaticDD._apply_mapomatic self = false →
  TranspilerSabreMapomaticDD._apply_dd self = false →
  (∀ seed,
     seed ∈ take (Z.to_nat (TranspilerSabreMapomaticDD._num_transpilations self))
                 (seeds_in_use self) →
     is_Some seed) →
  (transpile circuits w1).1 = (transpile circuits w2).1.
Proof.
  intros self Hrep Hsame Hmap Hdd Hseeds. unfold transpile.
  rewrite (bind_run_ok get_self _ w1 (pipeline w1) w1 eq_refl).
  rewrite (bind_run_ok get_self _ w2 (pipeline w2) w2 eq_refl).
  rewrite Hsame. fold self. cbv zeta.
  destruct (default_seed_transpiler
              (TranspilerSabreMapomaticDD._seed_transpiler self)
              (TranspilerSabreMapomaticDD._num_transpilations self) w1)
    as [[seeds|e] w0] eqn:E1.
  - apply default_seed_transpiler_ok_inv in E1 as (Hlong & -> & ->).
    rewrite (bind_run_ok _ _ _ _ _ (default_seed_transpiler_ok self w1 Hlong)).
    rewrite (bind_run_ok _ _ _ _ _ (default_seed_transpiler_ok self w2 Hlong)).
    match goal with
    | |- (?rest w1).1 = (?rest w2).1 =>
        assert (Hblind : world_blind rest);
        [|exact (proj1 (Hblind w1 w2 (eq_sym Hsame)))]
    end.
    rewrite Hmap, Hdd. unfold default_dd_passmanager. simpl.
    apply world_blind_bind; [apply world_blind_ret|]. intros dd.
    apply world_blind_bind.
    { unfold transpile_for_backend, for_range. apply world_blind_for_each. intros i acc.
      apply world_blind_bind; [apply world_blind_lift|]. intros circ.
      apply world_blind_bind;
        [apply compiler_transpile_blind; assumption|].
      intros trans_qc.
      repeat first [ apply world_blind_ret | apply world_blind_lift
                   | apply world_blind_bind; [|intros] ]. }
    intros cs1. apply world_blind_bind; [apply world_blind_ret|]. intros cs2.
    apply world_blind_bind; [apply world_blind_ret|]. intros cs3.
    destruct circuits;
      repeat first [ apply world_blind_ret | apply world_blind_lift
                   | apply world_blind_bind; [|intros] ].
  - rewrite (bind_run_raise _ _ _ _ _ E1).
    assert (E2 : (default_seed_transpiler
                    (TranspilerSabreMapomaticDD._seed_transpiler self)
                    (TranspilerSabreMapomaticDD._num_transpilations self) w2).1
                 = Raise e).
    { revert E1. unfold default_seed_transpiler.
      destruct (TranspilerSabreMapomaticDD._seed_transpiler self) as [given|];
        [|discriminate].
      unfold bind, py_assert.
      destruct (_ <=? len given); [discriminate|]. intros [= <- _]. reflexivity. }
    unfold bind at 1.
    destruct (default_seed_transpiler _ _ w2) as [r2 w2']. simpl in E2. subst r2.
    reflexivity.
Qed.

End SeedFacts.

(** * The properties at work on the concrete world *)

Section Examples.
#[local] Existing Instance Fixture.domain.
#[local] Existing Instance Fixture.world.
#[local] Existing Instance Fixture.qc_api.

Lemma candidate_costs_first_minimum : is_first_minimum Fixture.candidate_costs 1.
Proof.
  apply (best_pos_first_minimum Fixture.candidate_costs 63%Q); reflexivity.
Qed.

Lemma full_seeds_long_enough : seeds_long_enough Fixture.full.
Proof. unfold seeds_long_enough. simpl. unfold len. simpl. lia. Qed.

Lemma fixture_deflate_is_pure : deflate_is_pure.
Proof.
  exists (λ qc, (Fixture.fake_deflate qc 0%nat).1). intros qc o. reflexivity.
Qed.

Lemma fixture_deflate_is_total : deflate_is_total.
Proof. intros qc o. reflexivity. Qed.


(** The other test of the repository: the default pipeline on [TWO_CNOTS],
    alone and in a list. *)
Lemma default_transpiler_returns :
  (transpile Fixture.one_two_cnots
     (Fixture.start (TranspilerSabreMapomaticDD_default Fixture.good_backend))).1
  = Ok Fixture.one_two_cnots
  ∧ (transpile (Many [Fixture.TWO_CNOTS])
       (Fixture.start (TranspilerSabreMapomaticDD_default Fixture.good_backend))).1
    = Ok (Many [Fixture.TWO_CNOTS]).
Proof. split; vm_compute; reflexivity. Qed.

(** Seeds [2, 1, 1]: the second candidate is chosen, not the third. *)
Lemma transpile_selects_first_minimum_example :
  (∃ selected,
     Forall2 (selected_for Fixture.seeded) [Fixture.TWO_CNOTS] selected
     ∧ (TranspilerSabreMapomaticDD._apply_mapomatic Fixture.seeded = false →
        TranspilerSabreMapomaticDD._apply_dd Fixture.seeded = false →
        [Fixture.append Fixture.TWO_CNOTS [Fixture.cx 0 1]] = selected))
  ∧ (1 = 1)%nat
  ∧ (∃ best best_pos,
       select_best Fixture.good_backend 1 3 (seeds_in_use Fixture.seeded)
         (cost_in_use Fixture.seeded) Fixture.TWO_CNOTS (Fixture.start Fixture.seeded)
       = (Ok best,
          (compiler_transpile (list_repeat Fixture.TWO_CNOTS 3) Fixture.good_backend 1
             (seeds_in_use Fixture.seeded) (Fixture.start Fixture.seeded)).2)
       ∧ is_first_minimum Fixture.candidate_costs best_pos
       ∧ Fixture.candidates !! best_pos = Some best).
Proof.
  pose proof (transpile_selects_first_minimum Fixture.one_two_cnots
                (Fixture.start Fixture.seeded)) as (Hsel & Huniq & Hprogress).
  split; [|split].
  - apply (Hsel Fixture.one_more_cx
                (transpile Fixture.one_two_cnots (Fixture.start Fixture.seeded)).2).
    vm_compute. reflexivity.
  - apply (Huniq Fixture.candidate_costs);
      exact candidate_costs_first_minimum.
  - apply (Hprogress Fixture.TWO_CNOTS (Fixture.start Fixture.seeded)
             Fixture.candidates).
    + vm_compute. reflexivity.
    + vm_compute. reflexivity.
    + discriminate.
Defined.

(** A batch of two through the whole pipeline. *)
Lemma transpile_mirrors_input_shape_example :
  same_shape Fixture.batch Fixture.full_batch_output
  ∧ length (as_list Fixture.full_batch_output) = length (as_list Fixture.batch)
  ∧ Forall2 (transpilation_of Fixture.full)
            (as_list Fixture.batch) (as_list Fixture.full_batch_output).
Proof.
  apply (transpile_mirrors_input_shape Fixture.batch (Fixture.start Fixture.full)
           Fixture.full_batch_output
           (transpile Fixture.batch (Fixture.start Fixture.full)).2).
  vm_compute. reflexivity.
Defined.

(** One seed for three runs. *)
Lemma transpile_short_seeds_fail_fast_example :
  transpile Fixture.batch (Fixture.start Fixture.short_seeds)
  = (Raise AssertionError, Fixture.start Fixture.short_seeds).
Proof.
  apply (transpile_short_seeds_fail_fast Fixture.batch
           (Fixture.start Fixture.short_seeds) [Some 1]).
  - reflexivity.
  - vm_compute. reflexivity.
Defined.

(** Four seeds for three runs: the fourth is never used. *)
Lemma transpile_seed_runs_example :
  ∃ new,
    extends (Fixture.start Fixture.full)
            (transpile Fixture.batch (Fixture.start Fixture.full)).2 new
    ∧ List.filter is_seed_run new
      = [EvTranspile Fixture.TWO_CNOTS Fixture.good_backend (Some 1) (Some 2) None;
         EvTranspile Fixture.TWO_CNOTS Fixture.good_backend (Some 1) (Some 1) None;
         EvTranspile Fixture.TWO_CNOTS Fixture.good_backend (Some 1) (Some 1) None;
         EvTranspile Fixture.BELL Fixture.good_backend (Some 1) (Some 2) None;
         EvTranspile Fixture.BELL Fixture.good_backend (Some 1) (Some 1) None;
         EvTranspile Fixture.BELL Fixture.good_backend (Some 1) (Some 1) None].
Proof.
  apply (proj1 (proj2 (transpile_seed_runs Fixture.batch (Fixture.start Fixture.full)
                         full_seeds_long_enough))
           Fixture.full_batch_output).
  vm_compute. reflexivity.
Defined.

(** The plan for the good backend. *)
Lemma get_pass_manager_two_stages_example :
  (∃ durations timing pulse_alignment,
     (InstructionDurations_from_backend Fixture.good_backend 0%nat).1 = Ok durations
     ∧ timing_constraints Fixture.good_backend = Some timing
     ∧ timing !! "pulse_alignment" = Some pulse_alignment
     ∧ passes Fixture.good_plan
       = [ALAPScheduleAnalysis durations;
          PadDynamicalDecoupling durations [XGate; XGate] pulse_alignment])
  ∧ (get_pass_manager Fixture.good_builder
       (Fixture.start Fixture.full)).1
    = Ok Fixture.good_plan.
Proof.
  pose proof (get_pass_manager_two_stages
                Fixture.good_builder
                (Fixture.start Fixture.full)) as [Hshape Hbuilt].
  split.
  - apply (Hshape Fixture.good_plan
                  (get_pass_manager Fixture.good_builder (Fixture.start Fixture.full)).2).
    vm_compute. reflexivity.
  - apply (Hbuilt 160 {[ "pulse_alignment" := 16 ]} 16); vm_compute; reflexivity.
Defined.

(** Two calls in a row, each with its own plan build, and each running its
    plan on the working form of every circuit it was given. *)
Lemma transpile_rebuilds_plan_each_call_example :
  (∃ pm w1 new relaid,
     get_pass_manager Fixture.good_builder (Fixture.start Fixture.full) = (Ok pm, w1)
     ∧ extends (Fixture.start Fixture.full)
         (transpile Fixture.batch (Fixture.start Fixture.full)).2 new
     ∧ List.filter is_plan_build new = [EvFromBackend Fixture.good_backend]
     ∧ List.filter is_plan_run new = EvRun pm <$> relaid
     ∧ length relaid = 2%nat
     ∧ Forall2 (working_form Fixture.full) (as_list Fixture.batch) relaid
     ∧ Forall2 (plan_applied pm) relaid (as_list Fixture.full_batch_output))
  ∧ pipeline (transpile Fixture.batch (Fixture.start Fixture.full)).2 = Fixture.full
  ∧ ∃ pm2 w1' new2 relaid2,
      get_pass_manager Fixture.good_builder
        (transpile Fixture.batch (Fixture.start Fixture.full)).2 = (Ok pm2, w1')
      ∧ extends (transpile Fixture.batch (Fixture.start Fixture.full)).2
          (transpile Fixture.one_bell
             (transpile Fixture.batch (Fixture.start Fixture.full)).2).2 new2
      ∧ List.filter is_plan_build new2 = [EvFromBackend Fixture.good_backend]
      ∧ List.filter is_plan_run new2 = EvRun pm2 <$> relaid2
      ∧ length relaid2 = 1%nat
      ∧ Forall2 (working_form Fixture.full) (as_list Fixture.one_bell) relaid2
      ∧ Forall2 (plan_applied pm2) relaid2
          (as_list (Fixture.returned
                      (transpile Fixture.one_bell
                         (transpile Fixture.batch (Fixture.start Fixture.full)).2))).
Proof.
  pose proof (transpile_rebuilds_plan_each_call Fixture.batch (Fixture.start Fixture.full)
                Fixture.full_batch_output
                (transpile Fixture.batch (Fixture.start Fixture.full)).2
                eq_refl eq_refl) as Hcall.
  destruct Hcall as (Hfirst & Hsame & _ & Hnext & _); [vm_compute; reflexivity|].
  split; [exact Hfirst|]. split; [exact Hsame|].
  apply (Hnext Fixture.one_bell
           (Fixture.returned
              (transpile Fixture.one_bell
                 (transpile Fixture.batch (Fixture.start Fixture.full)).2))).
  vm_compute. reflexivity.
Defined.

(** A backend with everything, one without a duration model, a simulator
    without timing constraints, one without the alignment entry. *)
Lemma get_pass_manager_failure_paths_example :
  (∃ pm, (get_pass_manager Fixture.good_builder (Fixture.start Fixture.full)).1 = Ok pm
         ∧ passes pm = [ALAPScheduleAnalysis 160;
                        PadDynamicalDecoupling 160 [XGate; XGate] 16])
  ∧ (get_pass_manager Fixture.no_durations_builder (Fixture.start Fixture.full)).1
    = Raise (CollaboratorError 1)
  ∧ (get_pass_manager Fixture.no_timing_builder (Fixture.start Fixture.full)).1
    = Raise (AttributeError "timing_constraints")
  ∧ (get_pass_manager Fixture.no_alignment_builder (Fixture.start Fixture.full)).1
    = Raise (KeyError "pulse_alignment").
Proof.
  split; [|split; [|split]].
  - apply (proj1 (get_pass_manager_failure_paths Fixture.good_builder
                    (Fixture.start Fixture.full))
             160 {[ "pulse_alignment" := 16 ]} 16); vm_compute; reflexivity.
  - apply (proj1 (proj2 (get_pass_manager_failure_paths Fixture.no_durations_builder
                           (Fixture.start Fixture.full)))
             (CollaboratorError 1)).
    vm_compute. reflexivity.
  - apply (proj1 (proj2 (proj2 (get_pass_manager_failure_paths Fixture.no_timing_builder
                                  (Fixture.start Fixture.full))))
             160); vm_compute; reflexivity.
  - apply (proj1 (proj2 (proj2 (proj2
                    (get_pass_manager_failure_paths Fixture.no_alignment_builder
                       (Fixture.start Fixture.full)))))
             160 {[ "granularity" := 16 ]}); vm_compute; reflexivity.
Defined.

(** The concrete deflation is a total function of the circuit. *)
Lemma transpile_deflated_loop_redundant_example :
  same_return (transpile Fixture.batch (Fixture.start Fixture.full))
              (transpile_without_deflated Fixture.batch (Fixture.start Fixture.full))
  ∧ same_outcome (transpile Fixture.batch (Fixture.start Fixture.full))
                 (transpile_without_deflated Fixture.batch (Fixture.start Fixture.full)).
Proof.
  pose proof (transpile_deflated_loop_redundant Fixture.batch (Fixture.start Fixture.full)
                fixture_deflate_is_pure) as [Hreturn Houtcome].
  split; [exact Hreturn|exact (Houtcome fixture_deflate_is_total)].
Defined.

(** The empty batch, decoupling on: one plan build and nothing else. *)
Lemma transpile_empty_list_example :
  (transpile (Many []) (Fixture.start Fixture.full)).1 = Ok (Many [])
  ∧ extends (Fixture.start Fixture.full)
            (transpile (Many []) (Fixture.start Fixture.full)).2
            [EvFromBackend Fixture.good_backend].
Proof.
  pose proof (transpile_empty_list (Fixture.start Fixture.full))
    as (_ & Hreturns & _ & Hbuilds & _).
  split.
  - apply Hreturns; [exact full_seeds_long_enough|]. intros _. vm_compute. reflexivity.
  - apply Hbuilds; [exact full_seeds_long_enough|reflexivity].
Defined.

End Examples.

(** * The further properties at work *)

Section MoreExamples.
#[local] Existing Instance Fixture.domain.
#[local] Existing Instance Fixture.world.
#[local] Existing Instance Fixture.qc_api.

Lemma fixture_vendor_succeeds : vendor_succeeds.
Proof. intros c b l s lay o. reflexivity. Qed.

Lemma fixture_seeded_runs_reproducible : seeded_runs_reproducible.
Proof. intros c b l s lay o1 o2. reflexivity. Qed.

Lemma seeded_seeds_explicit :
  ∀ seed,
    seed ∈ take (Z.to_nat (TranspilerSabreMapomaticDD._num_transpilations Fixture.seeded))
                (seeds_in_use Fixture.seeded) →
    is_Some seed.
Proof.
  intros seed Hin. cbn in Hin.
  repeat (apply elem_of_cons in Hin as [->|Hin]; [eauto|]).
  inversion Hin.
Qed.

(** No run asked for: [min] of nothing. *)
Lemma transpile_without_runs_raises_example :
  transpile Fixture.batch (Fixture.start Cases.no_runs)
  = (Raise ValueError, Fixture.start Cases.no_runs).
Proof.
  apply (transpile_without_runs_raises Fixture.batch (Fixture.start Cases.no_runs) None).
  - simpl. lia.
  - discriminate.
  - reflexivity.
Defined.

(** Decoupling on a backend without the alignment entry: the [KeyError]
    comes before any vendor run. *)
Lemma transpile_plan_failure_first_example :
  transpile Fixture.batch (Fixture.start Cases.no_alignment)
  = (Raise (KeyError "pulse_alignment"),
     (get_pass_manager Fixture.no_alignment_builder (Fixture.start Cases.no_alignment)).2)
  ∧ extends (Fixture.start Cases.no_alignment)
            (get_pass_manager Fixture.no_alignment_builder
               (Fixture.start Cases.no_alignment)).2
            [EvFromBackend Fixture.no_alignment_backend].
Proof.
  apply (transpile_plan_failure_first Fixture.batch (Fixture.start Cases.no_alignment)).
  - unfold seeds_long_enough. simpl. unfold len. simpl. lia.
  - reflexivity.
  - reflexivity.
  - vm_compute. reflexivity.
Defined.

(** The stages of the full pipeline on the batch of two, in the log. *)
Lemma transpile_stage_order_example :
  ∃ built seeded relayout runs,
    extends (Fixture.start Fixture.full)
            (transpile Fixture.batch (Fixture.start Fixture.full)).2
            (built ++ seeded ++ relayout ++ runs)
    ∧ (built = []
       ∨ (TranspilerSabreMapomaticDD._apply_dd Fixture.full = true
          ∧ TranspilerSabreMapomaticDD._dd_passmanager Fixture.full = None
          ∧ built = [EvFromBackend Fixture.good_backend]))
    ∧ Forall (λ ev, is_seed_run ev = true) seeded
    ∧ Forall (λ ev, is_relayout ev = true) relayout
    ∧ (TranspilerSabreMapomaticDD._apply_mapomatic Fixture.full = false → relayout = [])
    ∧ Forall (λ ev, is_plan_run ev = true) runs
    ∧ (TranspilerSabreMapomaticDD._apply_dd Fixture.full = false → runs = []).
Proof. exact (transpile_stage_order Fixture.batch (Fixture.start Fixture.full)). Defined.

(** The vendor runs of the full pipeline on the batch of two. *)
Lemma transpile_vendor_run_arguments_example :
  ∃ new,
    extends (Fixture.start Fixture.full)
            (transpile Fixture.batch (Fixture.start Fixture.full)).2 new
    ∧ (∀ circ backend level seed,
         EvTranspile circ backend level seed None ∈ new →
         backend = Fixture.good_backend ∧ level = Some 1
         ∧ seed ∈ [Some 2; Some 1; Some 1; Some 7])
    ∧ (∀ circ backend level seed layout,
         EvTranspile circ backend level seed (Some layout) ∈ new →
         backend = Fixture.good_backend ∧ level = None ∧ seed = None).
Proof. exact (transpile_vendor_run_arguments Fixture.batch (Fixture.start Fixture.full)). Defined.

(** A plan given at construction. *)
Lemma transpile_uses_given_plan_example :
  (∃ new relaid,
     extends (Fixture.start Cases.with_plan)
             (transpile Fixture.batch (Fixture.start Cases.with_plan)).2 new
     ∧ List.filter is_plan_build new = []
     ∧ List.filter is_plan_run new = EvRun Fixture.good_plan <$> relaid
     ∧ length relaid = 2%nat
     ∧ Forall2 (working_form Cases.with_plan) (as_list Fixture.batch) relaid
     ∧ Forall2 (plan_applied Fixture.good_plan) relaid
         (as_list (Fixture.returned
                     (transpile Fixture.batch (Fixture.start Cases.with_plan)))))
  ∧ TranspilerSabreMapomaticDD._dd_passmanager
      (pipeline (transpile Fixture.batch (Fixture.start Cases.with_plan)).2)
    = Some Fixture.good_plan.
Proof.
  apply (transpile_uses_given_plan Fixture.batch (Fixture.start Cases.with_plan)
           (Fixture.returned (transpile Fixture.batch (Fixture.start Cases.with_plan)))).
  - reflexivity.
  - reflexivity.
  - vm_compute. reflexivity.
Defined.

(** The full pipeline on the batch of two: four deflations, two of each
    other call of the re-layout. *)
Lemma transpile_relayout_calls_example :
  ∃ new selected,
    extends (Fixture.start Fixture.full)
            (transpile Fixture.batch (Fixture.start Fixture.full)).2 new
    ∧ Forall2 (selected_for Fixture.full) (as_list Fixture.batch) selected
    ∧ List.filter is_deflate new = EvDeflate <$> (selected ++ selected)
    ∧ length (List.filter is_matching new) = 2%nat
    ∧ length (List.filter is_evaluate new) = 2%nat
    ∧ length (List.filter is_pinned_run new) = 2%nat.
Proof.
  apply (transpile_relayout_calls Fixture.batch (Fixture.start Fixture.full)
           Fixture.full_batch_output).
  - reflexivity.
  - vm_compute. reflexivity.
Defined.

(** The full pipeline on the batch of two: the layouts pinned. *)
Lemma transpile_relayout_first_score_example :
  ∃ selected relaid,
    Forall2 (selected_for Fixture.full) (as_list Fixture.batch) selected
    ∧ Forall2 (relaid_from Fixture.full) selected relaid
    ∧ (TranspilerSabreMapomaticDD._apply_dd Fixture.full = false →
       as_list Fixture.full_batch_output = relaid).
Proof.
  apply (transpile_relayout_first_score Fixture.batch (Fixture.start Fixture.full)
           Fixture.full_batch_output
           (transpile Fixture.batch (Fixture.start Fixture.full)).2).
  - reflexivity.
  - vm_compute. reflexivity.
Defined.

(** Seeds [2, 1, 1] with the default cost: the choice among the three
    candidates for [TWO_CNOTS]. *)
Lemma transpile_default_cost_selection_example :
  ∃ selected,
    Forall2
      (λ circ best,
         ∃ wa wb trans_qc,
           compiler_transpile (list_repeat circ 3) Fixture.good_backend 1
             (seeds_in_use Fixture.seeded) wa = (Ok trans_qc, wb)
           ∧ best ∈ trans_qc
           ∧ ∀ other, other ∈ trans_qc →
               (depth best + 20 * cx_count best
                ≤ depth other + 20 * cx_count other)%nat)
      (as_list Fixture.one_two_cnots) selected
    ∧ (TranspilerSabreMapomaticDD._apply_mapomatic Fixture.seeded = false →
       TranspilerSabreMapomaticDD._apply_dd Fixture.seeded = false →
       as_list Fixture.one_more_cx = selected).
Proof.
  refine (transpile_default_cost_selection Fixture.one_two_cnots
            (Fixture.start Fixture.seeded) Fixture.one_more_cx
            (transpile Fixture.one_two_cnots (Fixture.start Fixture.seeded)).2 _ _).
  - reflexivity.
  - vm_compute. reflexivity.
Defined.

(** One more [cx] on [TWO_CNOTS] costs more, with the default weights. *)
Lemma transpile_cost_depthcnot_monotone_example :
  ∃ cost1 cost2,
    transpile_cost_depthcnot Fixture.TWO_CNOTS 1 20 = Ok cost1
    ∧ transpile_cost_depthcnot (Fixture.append Fixture.TWO_CNOTS [Fixture.cx 0 1]) 1 20
      = Ok cost2
    ∧ (cost1 <= cost2)%Q
    ∧ (depth Fixture.TWO_CNOTS
       = depth (Fixture.append Fixture.TWO_CNOTS [Fixture.cx 0 1]) →
       count_ops Fixture.TWO_CNOTS !! "cx"
       = count_ops (Fixture.append Fixture.TWO_CNOTS [Fixture.cx 0 1]) !! "cx" →
       cost1 = cost2).
Proof.
  apply (transpile_cost_depthcnot_monotone Fixture.TWO_CNOTS
           (Fixture.append Fixture.TWO_CNOTS [Fixture.cx 0 1]) 1 20).
  - discriminate.
  - discriminate.
  - vm_compute. lia.
  - vm_compute. lia.
Defined.

(** The backend replaced by one without the alignment entry, the plan given
    at construction kept. *)
Lemma backend_setter_then_transpile_example :
  backend_setter Fixture.no_alignment_backend (Fixture.start Cases.with_plan)
  = (Ok tt, Fixture.start (with_backend Cases.with_plan Fixture.no_alignment_backend))
  ∧ ∃ new relaid,
      extends (Fixture.start (with_backend Cases.with_plan Fixture.no_alignment_backend))
              (transpile Fixture.batch
                 (Fixture.start (with_backend Cases.with_plan Fixture.no_alignment_backend))).2
              new
      ∧ List.filter is_plan_build new = []
      ∧ List.filter is_plan_run new = EvRun Fixture.good_plan <$> relaid.
Proof.
  pose proof (backend_setter_then_transpile Fixture.no_alignment_backend Fixture.batch
                (Fixture.start Cases.with_plan)) as (Hset & _ & Hplan).
  split; [exact Hset|].
  apply (Hplan (Fixture.returned
                  (transpile Fixture.batch
                     (Fixture.start
                        (with_backend Cases.with_plan Fixture.no_alignment_backend))))).
  - vm_compute. reflexivity.
  - reflexivity.
Defined.

(** The seeded pipeline from two different states of the outside world. *)
Lemma transpile_reproducible_with_seeds_example :
  (transpile Fixture.batch (Fixture.start Fixture.seeded)).1
  = (transpile Fixture.batch (Cases.later Fixture.seeded)).1.
Proof.
  apply (transpile_reproducible_with_seeds Fixture.batch
           (Fixture.start Fixture.seeded) (Cases.later Fixture.seeded)).
  - exact fixture_seeded_runs_reproducible.
  - reflexivity.
  - reflexivity.
  - reflexivity.
  - exact seeded_seeds_explicit.
Defined.

End MoreExamples.

Section SteadyExamples.
#[local] Existing Instance Fixture.domain.
#[local] Existing Instance Cases.steady.


End SteadyExamples.

Section NoLayoutExamples.
#[local] Existing Instance Fixture.domain.
#[local] Existing Instance Cases.no_layout.

(** No layout fits: [scores[0]] raises. *)
Lemma transpile_no_layout_raises_example :
  ∃ w' new,
    transpile Fixture.batch (Fixture.start Fixture.full) = (Raise IndexError, w')
    ∧ extends (Fixture.start Fixture.full) w' new
    ∧ List.filter is_pinned_run new = []
    ∧ List.filter is_plan_run new = [].
Proof.
  apply (transpile_no_layout_raises Fixture.batch (Fixture.start Fixture.full)).
  - discriminate.
  - reflexivity.
  - unfold seeds_long_enough. simpl. unfold len. simpl. lia.
  - simpl. lia.
  - intros c b l s lay o. reflexivity.
  - intros f c Hf. discriminate.
  - intros qc o. reflexivity.
  - intros c b o. reflexivity.
  - intros c ls b cost o. reflexivity.
  - intros _ _. split; [intros o; reflexivity|].
    exists {[ "pulse_alignment" := 16 ]}. split; [reflexivity|].
    exists 16. vm_compute. reflexivity.
Defined.

End NoLayoutExamples.
